(** * Themisto: the coloring layer

    A shallow embedding of the coloring layer of Themisto (the hybrid
    bitmap-or-array color sets, the concatenated color set storage, the
    [Coloring] facade with its archive format, and the color streams of the
    index builder), together with the properties its specification states.

    Conventions of the embedding.
    - [int64_t] values, positions and lengths are [Z]; vectors are lists.
    - A C++ call that may throw or run into undefined behaviour returns an
      [outcome]: [Ret v] for a normal return, [Throw e] for an exception and
      [Undefined] for behaviour the language leaves open (an index past the
      end of a vector, dereferencing [end()]).
    - A non-owning pointer is modelled by the value it points to.
    - A [double] is an IEEE 754 binary64 number, with the conversions, the
      multiplication and the comparison of the Standard Library's
      [SpecFloat]; [log2] belongs to the C library and is a parameter
      ([Libm]) of the definitions that reach it. *)

From Stdlib Require Import ZArith List Bool Lia String Ascii Floats.SpecFloat.
From stdpp Require Import base tactics option list numbers list_numbers sorting.

Local Open Scope Z_scope.

(** ** Outcomes of calls *)

Inductive exn : Type :=
| WrongTemplateParameterException
| runtime_error (what : string).

Inductive outcome (A : Type) : Type :=
| Ret (a : A)
| Throw (e : exn)
| Undefined.

Arguments Ret {A} a.
Arguments Throw {A} e.
Arguments Undefined {A}.

#[global] Instance outcome_bind : MBind outcome := fun A B k m =>
  match m with
  | Ret a => k a
  | Throw e => Throw e
  | Undefined => Undefined
  end.

#[global] Instance outcome_ret : MRet outcome := fun A a => Ret a.

(** An [option] read as an outcome: [None] is undefined behaviour. *)
Definition defined {A : Type} (o : option A) : outcome A :=
  match o with
  | Some a => Ret a
  | None => Undefined
  end.

(** Element [i] of a vector indexed by an [int64_t]; no bounds check. *)
Definition at_index {A : Type} (v : list A) (i : Z) : option A :=
  if decide (0 <= i) then v !! Z.to_nat i else None.

(** ** Integer helpers *)

(** A [uint64_t] converted to [int64_t]. *)
Definition to_int64 (v : Z) : Z := if decide (v < 2 ^ 63) then v else v - 2 ^ 64.

(** An [int64_t] converted to [uint64_t]. *)
Definition to_uint64 (v : Z) : Z := v `mod` 2 ^ 64.

(** [std::bit_width] of a [uint64_t]. *)
Definition bit_width (x : Z) : Z := if decide (x = 0) then 0 else Z.log2 x + 1.

(** ** Streams and serialization

    An [ostream] is the list of bytes written to it, an [istream] the list of
    bytes still to be read. [serialize(os)] is modelled by the bytes it
    writes (the byte count it returns is their number), [load(is)] by the
    value read and the rest of the stream. *)

Definition stream : Type := list Z.

(** The [serialize] and [load] members of the classes of sdsl and sbwt that
    the coloring is written with. Their formats belong to those libraries;
    what the coloring relies on is that [load] reads back what [serialize]
    wrote, for the values the format can hold. *)
Class Serializable (T : Type) : Type := {
  serialize : T -> stream;
  load : stream -> outcome (T * stream);
  serializable : T -> Prop;
  load_serialize : forall x rest,
    serializable x -> load (serialize x ++ rest) = Ret (x, rest)
}.

(** [os.write((char* )&x, sizeof(x))] for an [int64_t] or [std::size_t]: the
    eight bytes of [x], least significant first. *)
Definition write_int64 (x : Z) : stream := Z_to_little_endian 8 8 x.

Arguments write_int64 : simpl never.

(** [is.read((char* )&x, sizeof(x))] for an [int64_t]. Reading past the end
    of the stream is left undefined. *)
Definition read_int64 (input : stream) : outcome (Z * stream) :=
  if decide (8 <= length input)%nat then
    Ret (to_int64 (little_endian_to_Z 8 (take 8 input)), drop 8 input)
  else Undefined.

Arguments read_int64 : simpl never.

(** ** Color streams of the index builder (build_index_main.cpp) *)

Module Color_Streams.

(** *** Unique_For_Each_Sequence_Color_Stream *)

Record Unique_For_Each_Sequence_Color_Stream : Type := {
  x : Z;
  reverse_complements : bool;
  increment_flag : bool
}.

Definition make (reverse_complements : bool) : Unique_For_Each_Sequence_Color_Stream :=
  {| x := 0; reverse_complements := reverse_complements; increment_flag := false |}.

(** [next()]: the returned array holds the bytes of [x]; it is modelled by [x]. *)
Definition next (s : Unique_For_Each_Sequence_Color_Stream)
  : Z * Unique_For_Each_Sequence_Color_Stream :=
  let ret := x s in
  let x' := if negb (reverse_complements s) || increment_flag s then x s + 1 else x s in
  (ret, {| x := x'; reverse_complements := reverse_complements s;
           increment_flag := negb (increment_flag s) |}).

(** The stream after [n] calls to [next()]. *)
Fixpoint after (n : nat) (s : Unique_For_Each_Sequence_Color_Stream)
  : Unique_For_Each_Sequence_Color_Stream :=
  match n with
  | O => s
  | S n' => after n' (snd (next s))
  end.

(** What call number [n] (counted from 0) returns. *)
Definition call (n : nat) (s : Unique_For_Each_Sequence_Color_Stream) : Z :=
  fst (next (after n s)).

(** *** Colorfile_Stream

    A color file is given by the integers parsed from its lines
    ([fast_string_to_int] of each line), in order; [filenames] holds one such
    list per file name. *)

Record Colorfile_Stream : Type := {
  cf_in : list Z;                    (* unread lines of the open file *)
  cf_filenames : list (list Z);
  cf_current_file_idx : Z;
  cf_x : Z;                          (* the color read last *)
  cf_reverse_complements : bool;
  cf_rc_flag : bool
}.

(** The constructor leaves [x] uninitialised; [next] writes it before it
    reads it, since [rc_flag] starts false. It is 0 here. *)
Definition cf_make (filenames : list (list Z)) (reverse_complements : bool)
  : outcome Colorfile_Stream :=
  match filenames with
  | [] => Throw (runtime_error "Error: empty color file list")
  | f :: _ =>
      Ret {| cf_in := f; cf_filenames := filenames; cf_current_file_idx := 0;
             cf_x := 0; cf_reverse_complements := reverse_complements;
             cf_rc_flag := false |}
  end.

(** The loop [while(!in->getline(line))]: [later] are the files after
    [current_file_idx]. Returns the line read, the rest of the open file and
    the new [current_file_idx]. *)
Fixpoint getline_loop (later : list (list Z)) (in_ : list Z) (current_file_idx : Z)
  : outcome (Z * list Z * Z) :=
  match in_ with
  | line :: in' => Ret (line, in', current_file_idx)
  | [] =>
      match later with
      | [] => Throw (runtime_error "Error: more colors than sequences.")
      | f :: later' => getline_loop later' f (current_file_idx + 1)
      end
  end.

Definition cf_next (s : Colorfile_Stream) : outcome (Z * Colorfile_Stream) :=
  if cf_reverse_complements s && cf_rc_flag s then
    Ret (cf_x s,
         {| cf_in := cf_in s; cf_filenames := cf_filenames s;
            cf_current_file_idx := cf_current_file_idx s; cf_x := cf_x s;
            cf_reverse_complements := cf_reverse_complements s;
            cf_rc_flag := negb (cf_rc_flag s) |})
  else
    '(line, in', idx') ← getline_loop (drop (Z.to_nat (cf_current_file_idx s + 1))
                                            (cf_filenames s))
                                      (cf_in s) (cf_current_file_idx s);
    Ret (line,
         {| cf_in := in'; cf_filenames := cf_filenames s;
            cf_current_file_idx := idx'; cf_x := line;
            cf_reverse_complements := cf_reverse_complements s;
            cf_rc_flag := negb (cf_rc_flag s) |}).

(** The values returned by [n] successive calls to [next()]. *)
Fixpoint cf_calls (n : nat) (s : Colorfile_Stream) : outcome (list Z) :=
  match n with
  | O => Ret []
  | S n' =>
      r ← cf_next s;
      rest ← cf_calls n' (snd r);
      Ret (fst r :: rest)
  end.

Definition cf_stream (filenames : list (list Z)) (reverse_complements : bool) (n : nat)
  : outcome (list Z) :=
  s ← cf_make filenames reverse_complements;
  cf_calls n s.

(** The colors that the stream has still to read. *)
Definition pending (s : Colorfile_Stream) : list Z :=
  cf_in s ++ concat (drop (Z.to_nat (cf_current_file_idx s + 1)) (cf_filenames s)).

(** Every element twice in a row. *)
Definition twice (l : list Z) : list Z := flat_map (fun c => [c; c]) l.

(** *** Unique_For_Each_File_Color_Stream

    [sbwt::SeqIO::count_sequences] of the input files is given: [counts] holds
    the number of sequences of each file. *)

Record Unique_For_Each_File_Color_Stream : Type := {
  seq_count_in_file : list Z;
  cur_file_idx : Z;
  cur_file_seq_idx : Z;
  uf_reverse_complements : bool
}.

Definition uf_make (counts : list Z) (reverse_complements : bool)
  : Unique_For_Each_File_Color_Stream :=
  {| seq_count_in_file := (fun n => if reverse_complements then n * 2 else n) <$> counts;
     cur_file_idx := 0;
     cur_file_seq_idx := 0;
     uf_reverse_complements := reverse_complements |}.

(** The loop [while(cur_file_seq_idx >= seq_count_in_file[cur_file_idx])];
    [counts] are the entries of [seq_count_in_file] from [cur_file_idx] on.
    Reading an entry past the end of the vector is undefined. *)
Fixpoint uf_advance (counts : list Z) (cur_file_idx cur_file_seq_idx : Z) : outcome (Z * Z) :=
  match counts with
  | [] => Undefined
  | n :: later =>
      if decide (cur_file_seq_idx >= n) then uf_advance later (cur_file_idx + 1) 0
      else Ret (cur_file_idx, cur_file_seq_idx)
  end.

Definition uf_next (s : Unique_For_Each_File_Color_Stream)
  : outcome (Z * Unique_For_Each_File_Color_Stream) :=
  '(idx, seq_idx) ← uf_advance (drop (Z.to_nat (cur_file_idx s)) (seq_count_in_file s))
                               (cur_file_idx s) (cur_file_seq_idx s);
  Ret (idx,
       {| seq_count_in_file := seq_count_in_file s;
          cur_file_idx := idx;
          cur_file_seq_idx := seq_idx + 1;
          uf_reverse_complements := uf_reverse_complements s |}).

Fixpoint uf_calls (n : nat) (s : Unique_For_Each_File_Color_Stream) : outcome (list Z) :=
  match n with
  | O => Ret []
  | S n' =>
      r ← uf_next s;
      rest ← uf_calls n' (snd r);
      Ret (fst r :: rest)
  end.

(** The color of every sequence when file [i] has color [first + i]:
    [counts !! i] times the color of file [i], file after file. *)
Fixpoint file_colors (first : Z) (counts : list Z) : list Z :=
  match counts with
  | [] => []
  | n :: later => replicate (Z.to_nat n) first ++ file_colors (first + 1) later
  end.

(** What the stream has still to return. *)
Definition uf_pending (s : Unique_For_Each_File_Color_Stream) : list Z :=
  match drop (Z.to_nat (cur_file_idx s)) (seq_count_in_file s) with
  | [] => []
  | n :: later =>
      replicate (Z.to_nat (n - cur_file_seq_idx s)) (cur_file_idx s)
      ++ file_colors (cur_file_idx s + 1) later
  end.

End Color_Streams.


(** ** The sdsl vectors the color sets are stored in *)

Module sdsl.

(** [sdsl::bit_vector] *)
Definition bit_vector : Type := list bool.

(** [sdsl::int_vector<>]: elements of [width] bits each. *)
Record int_vector : Type := {
  width : Z;
  elements : list Z
}.

(** [sdsl::int_vector<>()]: empty, 64 bits wide. *)
Definition int_vector_empty : int_vector := {| width := 64; elements := [] |}.

(** [sdsl::int_vector<>(size, default_value, width)] *)
Definition int_vector_make (size default_value width : Z) : int_vector :=
  {| width := width;
     elements := replicate (Z.to_nat size) (default_value `mod` 2 ^ width) |}.

Definition size (iv : int_vector) : Z := Z.of_nat (length (elements iv)).

(** [iv[i]] as an rvalue: a [uint64_t]. *)
Definition get (iv : int_vector) (i : Z) : outcome Z := defined (at_index (elements iv) i).

(** [iv[i]] assigned to an [int64_t]. *)
Definition get_int64 (iv : int_vector) (i : Z) : outcome Z := v ← get iv i; Ret (to_int64 v).

(** [iv[i] = v]: the low [width] bits of [v] are stored. *)
Definition set (iv : int_vector) (i v : Z) : outcome int_vector :=
  if decide (0 <= i < size iv) then
    Ret {| width := width iv;
           elements := <[Z.to_nat i := v `mod` 2 ^ width iv]> (elements iv) |}
  else Undefined.

(** The loop [for(i = 0; i < v.size(); i++) iv[i] = v[i]], from position [i] on. *)
Fixpoint assign (iv : int_vector) (i : Z) (v : list Z) : outcome int_vector :=
  match v with
  | [] => Ret iv
  | x :: v' => iv' ← set iv i x; assign iv' (i + 1) v'
  end.

(** [bv[i]] *)
Definition bit (bv : bit_vector) (i : Z) : outcome bool := defined (at_index bv i).

(** [bv[i] = b] *)
Definition set_bit (bv : bit_vector) (i : Z) (b : bool) : outcome bit_vector :=
  if decide (0 <= i < Z.of_nat (length bv)) then Ret (<[Z.to_nat i := b]> bv)
  else Undefined.

(** The number of set bits. *)
Definition popcount (bv : list bool) : Z := Z.of_nat (length (filter (fun b => b = true) bv)).

(** [sdsl::rank_support_v5<>]: the vector it supports (a pointer in the
    source, null before [init_support] or [load]). Its tables of block counts
    are a function of that vector and are not kept apart. *)
Record rank_support_v5 : Type := {
  m_v : option bit_vector
}.

Definition rank_support_default : rank_support_v5 := {| m_v := None |}.

(** [sdsl::util::init_support(rs, &v)] *)
Definition init_support (v : bit_vector) : rank_support_v5 := {| m_v := Some v |}.

(** [rs.rank(idx)]: the number of set bits in positions [0, idx). *)
Definition rank (rs : rank_support_v5) (idx : Z) : outcome Z :=
  match m_v rs with
  | Some v =>
      if decide (0 <= idx <= Z.of_nat (length v)) then Ret (popcount (take (Z.to_nat idx) v))
      else Undefined
  | None => Undefined
  end.

End sdsl.

(** [rank_support_v5::serialize(os)] and [rank_support_v5::load(is, &v)]:
    [load] reads the tables and points the support at [v]. What the coloring
    relies on: the tables written for a vector are read back as the support
    of that vector. *)
Class Rank_Support_Serializable : Type := {
  rs_serialize : sdsl.rank_support_v5 -> stream;
  rs_load : stream -> sdsl.bit_vector -> outcome (sdsl.rank_support_v5 * stream);
  rs_serializable : sdsl.bit_vector -> Prop;
  rs_load_serialize : forall v rest,
    rs_serializable v ->
    rs_load (rs_serialize (sdsl.init_support v) ++ rest) v = Ret (sdsl.init_support v, rest)
}.

(** [std::map<string, int64_t>], as the entries in the order of their first
    assignment; [map_set m key value] is [m[key] = value]. *)
Definition string_map : Type := list (string * Z).

Fixpoint map_set (m : string_map) (key : string) (value : Z) : string_map :=
  match m with
  | [] => [(key, value)]
  | (key', value') :: m' =>
      if String.eqb key' key then (key', value) :: m'
      else (key', value') :: map_set m' key value
  end.

(** The count that a [serialize(os)] member returns for the bytes [written]. *)
Definition bytes_written (written : stream) : Z := Z.of_nat (length written).

(** ** Vector helpers *)

(** [*std::max_element(v.begin(), v.end())]; the vector must not be empty. *)
Definition max_element (v : list Z) : outcome Z :=
  match v with
  | [] => Undefined
  | x :: v' => Ret (foldl Z.max x v')
  end.

(** ** Doubles

    A [double] is an IEEE 754 binary64 number, as the Standard Library
    specifies them: a [spec_float] of precision 53 and maximal exponent 1024.
    The operations round to the nearest number, ties to even. *)

Definition double : Type := spec_float.

(** An [int64_t] or a [std::size_t] converted to [double]. *)
Definition double_of_int (x : Z) : double := binary_normalize 53 1024 x 0 false.

(** [x * y] *)
Definition double_mul (x y : double) : double := SFmul 53 1024 x y.

(** [x > y]; false when one of the two is not a number. *)
Definition double_gt (x y : double) : bool := SFltb y x.

(** [log2] of the C library. Its values are those of the library the program
    runs with; nothing is assumed of their accuracy. Two values are fixed by
    the C standard for an IEC 60559 library (F.10.3.10): [log2(1) = +0] and
    [log2(+-0) = -infinity]. *)
Class Libm : Type := {
  log2 : double -> double;
  log2_one : log2 (double_of_int 1) = S754_zero false;
  log2_zero : forall s, log2 (S754_zero s) = S754_infinity true
}.

(** The test [log2(max_element) * set.size() > max_element] that picks the
    bitmap: [max_element], an [int64_t], and the size are converted to
    [double]; the product is rounded and compared with the converted
    [max_element]. *)
Definition dense `{Libm} (max_element size : Z) : bool :=
  double_gt (double_mul (log2 (double_of_int max_element)) (double_of_int size))
            (double_of_int max_element).

(** A [log2] to run the model on concrete sets with: the integer part of the
    logarithm. It is one member of the class, not the function of a C
    library. *)
Definition floor_log2 (x : double) : double :=
  match x with
  | S754_zero _ => S754_infinity true
  | S754_infinity false => S754_infinity false
  | S754_finite false m e => double_of_int (Z.log2 (Z.pos m) + e)
  | _ => S754_nan
  end.

Definition floor_libm : Libm :=
  {| log2 := floor_log2; log2_one := eq_refl; log2_zero := fun _ => eq_refl |}.

(** The rule as the specification words it: a bitmap when
    [ceil(log2(max+1)) * |V| >= max+1], an array when the product is smaller. *)
Definition stated_rule (max_element size : Z) : bool :=
  max_element + 1 <=? Z.log2_up (max_element + 1) * size.

(** ** The hybrid color set (SDSL_Color_Set.hh) *)

Module Hybrid.

Section With_Libm.
Context {libm : Libm}.

(** The [std::variant] of a pointer to a bit vector (index 0) and a pointer to
    an integer vector (index 1). *)
Inductive data : Type :=
| Bitmap (bv : sdsl.bit_vector)
| Array (iv : sdsl.int_vector).

(** [Color_Set_View] and [Color_Set] have the same three members; the view
    points into vectors it does not own, the set owns its vector. Both are
    this record. *)
Record colorset_t : Type := {
  data_ptr : data;
  start : Z;
  length : Z   (* bits of a bitmap, elements of an array *)
}.

Definition Color_Set_View : Type := colorset_t.
Definition Color_Set : Type := colorset_t.

Definition colorset_is_empty (cs : colorset_t) : bool := length cs =? 0.

Definition colorset_is_bitmap (cs : colorset_t) : bool :=
  match data_ptr cs with
  | Bitmap _ => true
  | Array _ => false
  end.

(** [std::get<0>] on the other alternative throws [std::bad_variant_access];
    no caller does that, and it is left undefined. *)
Definition colorset_access_bitmap (cs : colorset_t) (idx : Z) : outcome bool :=
  match data_ptr cs with
  | Bitmap bv => sdsl.bit bv (start cs + idx)
  | Array _ => Undefined
  end.

Definition colorset_access_array (cs : colorset_t) (idx : Z) : outcome Z :=
  match data_ptr cs with
  | Bitmap _ => Undefined
  | Array iv => sdsl.get_int64 iv (start cs + idx)
  end.

(** [for(int64_t i = 0; i < n; i++) body], threading an accumulator. *)
Definition for_loop {A : Type} (n : Z) (body : Z -> A -> outcome A) (init : A) : outcome A :=
  foldl (fun acc i => a ← acc; body i a) (Ret init) (seqZ 0 n).

Definition colorset_size (cs : colorset_t) : outcome Z :=
  if colorset_is_bitmap cs then
    for_loop (length cs)
      (fun i count => b ← colorset_access_bitmap cs i; Ret (count + Z.b2z b)) 0
  else Ret (length cs).

Definition colorset_size_in_bits (cs : colorset_t) : Z :=
  match data_ptr cs with
  | Bitmap _ => length cs
  | Array iv => length cs * sdsl.width iv
  end.

Definition colorset_get_colors_as_vector (cs : colorset_t) : outcome (list Z) :=
  if colorset_is_bitmap cs then
    for_loop (length cs)
      (fun i vec => b ← colorset_access_bitmap cs i; Ret (if b : bool then vec ++ [i] else vec)) []
  else
    for_loop (length cs)
      (fun i vec => c ← colorset_access_array cs i; Ret (vec ++ [c])) [].

(** The linear scan of [colorset_contains] from position [i] on: [fuel] bounds
    the positions left. *)
Fixpoint scan (cs : colorset_t) (color : Z) (i : Z) (fuel : nat) : outcome bool :=
  match fuel with
  | O => Ret false
  | S fuel' =>
      c ← colorset_access_array cs i;
      if decide (c = color) then Ret true else scan cs color (i + 1) fuel'
  end.

Definition colorset_contains (cs : colorset_t) (color : Z) : outcome bool :=
  if colorset_is_bitmap cs then
    if decide (color >= length cs) then Ret false
    else colorset_access_bitmap cs color
  else scan cs color 0 (Z.to_nat (length cs)).

(** The loop over [x : set] that sets bit [x] of the new bit vector. *)
Fixpoint set_bits (bv : sdsl.bit_vector) (set : list Z) : outcome sdsl.bit_vector :=
  match set with
  | [] => Ret bv
  | x :: set' => bv' ← sdsl.set_bit bv x true; set_bits bv' set'
  end.

(** [Color_Set(const Color_Set_View& view)]: a copy of the span of a view,
    bit by bit or value by value, into a vector of [view.length] entries that
    the set owns. [start] keeps its default, 0. The new integer vector has
    the width of the one the view points into. A negative [view.length],
    which the vector constructors take as a size, is left undefined. *)
Definition Color_Set_of_view (view : Color_Set_View) : outcome Color_Set :=
  if decide (length view < 0) then Undefined
  else
    match data_ptr view with
    | Bitmap from =>
        to ← for_loop (length view)
               (fun i to => b ← sdsl.bit from (start view + i); sdsl.set_bit to i b)
               (replicate (Z.to_nat (length view)) false);
        Ret {| data_ptr := Bitmap to; start := 0; length := length view |}
    | Array from =>
        let bit_width := sdsl.width from in
        to ← for_loop (length view)
               (fun i to => x ← sdsl.get from (start view + i); sdsl.set to i x)
               (sdsl.int_vector_make (length view) 0 bit_width);
        Ret {| data_ptr := Array to; start := 0; length := length view |}
    end.

(** [Color_Set(const vector<int64_t>& set)] *)
Definition Color_Set_of_vector (set : list Z) : outcome Color_Set :=
  max_element ← max_element set;
  if dense max_element (Z.of_nat (List.length set)) then
    ptr ← set_bits (replicate (Z.to_nat (max_element + 1)) false) set;
    Ret {| data_ptr := Bitmap ptr; start := 0; length := Z.of_nat (List.length ptr) |}
  else
    ptr ← sdsl.assign (sdsl.int_vector_make (Z.of_nat (List.length set)) 0 64) 0 set;
    Ret {| data_ptr := Array ptr; start := 0; length := sdsl.size ptr |}.

(** Modelled from the spec: the body of [bitmap_vs_bitmap_intersection]
    (declared in SDSL_Color_Set.hh, defined in a file that is not part of the
    sources): the bitwise AND of the two bitmap spans, of length the minimum
    of the two lengths. The result is stored into [A], which is not resized;
    the new length is returned. *)
Definition bitmap_vs_bitmap_intersection
    (A : sdsl.bit_vector) (A_size : Z) (B : sdsl.bit_vector) (B_start B_size : Z)
  : outcome (sdsl.bit_vector * Z) :=
  let n := Z.min A_size B_size in
  A' ← for_loop n
         (fun i A => a ← sdsl.bit A i; b ← sdsl.bit B (B_start + i); sdsl.set_bit A i (a && b))
         A;
  Ret (A', n).

(** Modelled from the spec: the body of [array_vs_bitmap_intersection]
    (declared only): iterate the array and retain each element [x] that is
    below the bitmap length and whose bit is set. The result is stored into
    [iv], which is not resized; the size of the intersection is returned. *)
Definition array_vs_bitmap_intersection
    (iv : sdsl.int_vector) (iv_size : Z) (bv : sdsl.bit_vector) (bv_start bv_size : Z)
  : outcome (sdsl.int_vector * Z) :=
  for_loop iv_size
    (fun i '(iv, new_len) =>
       x ← sdsl.get iv i;
       if decide (x < bv_size) then
         b ← sdsl.bit bv (bv_start + x);
         if b : bool then iv' ← sdsl.set iv new_len x; Ret (iv', new_len + 1)
         else Ret (iv, new_len)
       else Ret (iv, new_len))
    (iv, 0).

(** Modelled from the spec: the body of [array_vs_array_intersection]
    (declared only): the linear merge of two sorted sequences, [i] running
    over [A], [j] over the span of [B] and [k] over the result, which is
    stored into [A]. [fuel] bounds the steps of the merge. *)
Fixpoint merge_intersection (fuel : nat)
    (A : sdsl.int_vector) (A_len : Z) (B : sdsl.int_vector) (B_start B_len : Z) (i j k : Z)
  : outcome (sdsl.int_vector * Z) :=
  match fuel with
  | O => Ret (A, k)
  | S fuel' =>
      if decide (i < A_len /\ j < B_len) then
        a ← sdsl.get A i;
        b ← sdsl.get B (B_start + j);
        if decide (a < b) then merge_intersection fuel' A A_len B B_start B_len (i + 1) j k
        else if decide (b < a) then merge_intersection fuel' A A_len B B_start B_len i (j + 1) k
        else A' ← sdsl.set A k a;
             merge_intersection fuel' A' A_len B B_start B_len (i + 1) (j + 1) (k + 1)
      else Ret (A, k)
  end.

Definition array_vs_array_intersection
    (A : sdsl.int_vector) (A_len : Z) (B : sdsl.int_vector) (B_start B_len : Z)
  : outcome (sdsl.int_vector * Z) :=
  merge_intersection (Z.to_nat A_len + Z.to_nat B_len) A A_len B B_start B_len 0 0 0.

(** [Color_Set::intersection(const Color_Set_View& other)]: the intersection
    is stored back into this set. The four branches are those of the source,
    in its order. *)
Definition intersection (this : Color_Set) (other : Color_Set_View) : outcome Color_Set :=
  match data_ptr this, data_ptr other with
  | Bitmap this_bv, Bitmap other_bv =>
      '(bv, n) ← bitmap_vs_bitmap_intersection this_bv (length this)
                   other_bv (start other) (length other);
      Ret {| data_ptr := Bitmap bv; start := start this; length := n |}
  | Array this_iv, Bitmap other_bv =>
      '(iv, n) ← array_vs_bitmap_intersection this_iv (length this)
                   other_bv (start other) (length other);
      Ret {| data_ptr := Array iv; start := start this; length := n |}
  | Bitmap this_bv, Array other_iv =>
      (* The result will be sparse, so this turns the representation into an
         array: a mutable copy of the whole vector [other] points into. *)
      let iv_copy := other_iv in
      '(iv_copy', iv_copy_length) ← array_vs_bitmap_intersection iv_copy (length other)
                                      this_bv (start this) (length this);
      Ret {| data_ptr := Array iv_copy'; start := start this; length := iv_copy_length |}
  | Array this_iv, Array other_iv =>
      '(iv, n) ← array_vs_array_intersection this_iv (length this)
                   other_iv (start other) (length other);
      Ret {| data_ptr := Array iv; start := start this; length := n |}
  end.

End With_Libm.

End Hybrid.

(** ** The concatenated storage: [Color_Set_Storage<Color_Set, Color_Set_View>] *)

Module Color_Set_Storage.
Import Hybrid.

Section With_Libm.
Context {libm : Libm}.

Record t : Type := {
  bitmap_concat : sdsl.bit_vector;
  bitmap_starts : sdsl.int_vector;   (* bitmap_starts[i] = start of bitmap i *)
  arrays_concat : sdsl.int_vector;
  arrays_starts : sdsl.int_vector;   (* arrays_starts[i] = start of subarray i *)
  is_bitmap_marks : sdsl.bit_vector;
  is_bitmap_marks_rs : sdsl.rank_support_v5;
  (* used during construction only *)
  temp_bitmap_concat : list bool;
  temp_arrays_concat : list Z;
  temp_bitmap_starts : list Z;
  temp_arrays_starts : list Z;
  temp_is_bitmap_marks : list bool
}.

(** [Color_Set_Storage()] *)
Definition empty : t := {|
  bitmap_concat := [];
  bitmap_starts := sdsl.int_vector_empty;
  arrays_concat := sdsl.int_vector_empty;
  arrays_starts := sdsl.int_vector_empty;
  is_bitmap_marks := [];
  is_bitmap_marks_rs := sdsl.rank_support_default;
  temp_bitmap_concat := [];
  temp_arrays_concat := [];
  temp_bitmap_starts := [];
  temp_arrays_starts := [];
  temp_is_bitmap_marks := []
|}.

(** The members that are used during construction only. *)
Definition buffers (st : t) : list bool * list Z * list Z * list Z * list bool :=
  (temp_bitmap_concat st, temp_arrays_concat st, temp_bitmap_starts st,
   temp_arrays_starts st, temp_is_bitmap_marks st).

(** Number of bits required to represent [x] (at least 1, for zero). *)
Definition bits_needed (x : Z) : Z := Z.max (bit_width (to_uint64 x)) 1.

Definition to_sdsl_bit_vector (v : list bool) : sdsl.bit_vector := v.

Definition to_sdsl_int_vector (v : list Z) : outcome sdsl.int_vector :=
  if decide (List.length v = 0%nat) then Ret sdsl.int_vector_empty
  else
    max_element ← max_element v;
    sdsl.assign (sdsl.int_vector_make (Z.of_nat (List.length v)) 0 (bits_needed max_element)) 0 v.

Definition get_color_set_by_id (st : t) (id : Z) : outcome Color_Set_View :=
  mark ← sdsl.bit (is_bitmap_marks st) id;
  if mark : bool then
    bitmap_idx ← sdsl.rank (is_bitmap_marks_rs st) id;
    start ← sdsl.get_int64 (bitmap_starts st) bitmap_idx;
    end_ ← sdsl.get_int64 (bitmap_starts st) (bitmap_idx + 1);
    Ret {| data_ptr := Bitmap (bitmap_concat st); start := start; length := end_ - start |}
  else
    r ← sdsl.rank (is_bitmap_marks_rs st) id;
    let arrays_idx := id - r in
    start ← sdsl.get_int64 (arrays_starts st) arrays_idx;
    end_ ← sdsl.get_int64 (arrays_starts st) (arrays_idx + 1);
    Ret {| data_ptr := Array (arrays_concat st); start := start; length := end_ - start |}.

(** [add_set(set)]; the set must be sorted. *)
Definition add_set (st : t) (set : list Z) : outcome t :=
  max_element ← max_element set;
  if dense max_element (Z.of_nat (List.length set)) then
    (* Dense -> bitmap *)
    bitmap ← set_bits (replicate (Z.to_nat (max_element + 1)) false) set;
    Ret {| bitmap_concat := bitmap_concat st;
           bitmap_starts := bitmap_starts st;
           arrays_concat := arrays_concat st;
           arrays_starts := arrays_starts st;
           is_bitmap_marks := is_bitmap_marks st;
           is_bitmap_marks_rs := is_bitmap_marks_rs st;
           temp_bitmap_concat := temp_bitmap_concat st ++ bitmap;
           temp_arrays_concat := temp_arrays_concat st;
           temp_bitmap_starts :=
             temp_bitmap_starts st ++ [Z.of_nat (List.length (temp_bitmap_concat st))];
           temp_arrays_starts := temp_arrays_starts st;
           temp_is_bitmap_marks := temp_is_bitmap_marks st ++ [true] |}
  else
    (* Sparse -> array *)
    Ret {| bitmap_concat := bitmap_concat st;
           bitmap_starts := bitmap_starts st;
           arrays_concat := arrays_concat st;
           arrays_starts := arrays_starts st;
           is_bitmap_marks := is_bitmap_marks st;
           is_bitmap_marks_rs := is_bitmap_marks_rs st;
           temp_bitmap_concat := temp_bitmap_concat st;
           temp_arrays_concat := temp_arrays_concat st ++ set;
           temp_bitmap_starts := temp_bitmap_starts st;
           temp_arrays_starts :=
             temp_arrays_starts st ++ [Z.of_nat (List.length (temp_arrays_concat st))];
           temp_is_bitmap_marks := temp_is_bitmap_marks st ++ [false] |}.

(** [prepare_for_queries()] *)
Definition prepare_for_queries (st : t) : outcome t :=
  let temp_bitmap_starts' :=
    temp_bitmap_starts st ++ [Z.of_nat (List.length (temp_bitmap_concat st))] in
  let temp_arrays_starts' :=
    temp_arrays_starts st ++ [Z.of_nat (List.length (temp_arrays_concat st))] in
  arrays_concat' ← to_sdsl_int_vector (temp_arrays_concat st);
  bitmap_starts' ← to_sdsl_int_vector temp_bitmap_starts';
  arrays_starts' ← to_sdsl_int_vector temp_arrays_starts';
  let bitmap_concat' := to_sdsl_bit_vector (temp_bitmap_concat st) in
  let is_bitmap_marks' := to_sdsl_bit_vector (temp_is_bitmap_marks st) in
  Ret {| bitmap_concat := bitmap_concat';
         bitmap_starts := bitmap_starts';
         arrays_concat := arrays_concat';
         arrays_starts := arrays_starts';
         is_bitmap_marks := is_bitmap_marks';
         is_bitmap_marks_rs := sdsl.init_support is_bitmap_marks';
         temp_bitmap_concat := [];
         temp_arrays_concat := [];
         temp_bitmap_starts := [];
         temp_arrays_starts := [];
         temp_is_bitmap_marks := [] |}.

Definition number_of_sets_stored (st : t) : Z := Z.of_nat (List.length (is_bitmap_marks st)).

(** [add_set] for every vector of [sets], in order. *)
Fixpoint add_sets (st : t) (sets : list (list Z)) : outcome t :=
  match sets with
  | [] => Ret st
  | set :: sets' => st' ← add_set st set; add_sets st' sets'
  end.

(** A storage that is built from nothing: every set is added, then
    [prepare_for_queries] is called. *)
Definition build (sets : list (list Z)) : outcome t :=
  st ← add_sets empty sets; prepare_for_queries st.

(** The loop of [Color_Set_Storage(const vector<Color_Set>& sets)]:
    [add_set(cs.get_colors_as_vector())] for every set. *)
Fixpoint add_color_sets (st : t) (sets : list Color_Set) : outcome t :=
  match sets with
  | [] => Ret st
  | cs :: sets' =>
      colors ← colorset_get_colors_as_vector cs;
      st' ← add_set st colors;
      add_color_sets st' sets'
  end.

(** [Color_Set_Storage(const vector<Color_Set>& sets)] *)
Definition of_color_sets (sets : list Color_Set) : outcome t :=
  st ← add_color_sets empty sets; prepare_for_queries st.

(** [get_all_sets()] *)
Definition get_all_sets (st : t) : outcome (list Color_Set_View) :=
  for_loop (number_of_sets_stored st)
    (fun i all => view ← get_color_set_by_id st i; Ret (all ++ [view])) [].

Section Serialization.
Context `{Serializable sdsl.bit_vector} `{Serializable sdsl.int_vector}
        `{Rank_Support_Serializable}.

(** [serialize(os)]; the construction buffers are not written. *)
Definition serialize_storage (st : t) : stream :=
  serialize (bitmap_concat st)
  ++ serialize (bitmap_starts st)
  ++ serialize (arrays_concat st)
  ++ serialize (arrays_starts st)
  ++ serialize (is_bitmap_marks st)
  ++ rs_serialize (is_bitmap_marks_rs st).

(** [load(is)]: the members of [st] are overwritten, the construction buffers
    are left as they are. *)
Definition load_storage (st : t) (input : stream) : outcome (t * stream) :=
  '(bitmap_concat', input) ← load input;
  '(bitmap_starts', input) ← load input;
  '(arrays_concat', input) ← load input;
  '(arrays_starts', input) ← load input;
  '(is_bitmap_marks', input) ← load input;
  '(is_bitmap_marks_rs', input) ← rs_load input is_bitmap_marks';
  Ret ({| bitmap_concat := bitmap_concat';
          bitmap_starts := bitmap_starts';
          arrays_concat := arrays_concat';
          arrays_starts := arrays_starts';
          is_bitmap_marks := is_bitmap_marks';
          is_bitmap_marks_rs := is_bitmap_marks_rs';
          temp_bitmap_concat := temp_bitmap_concat st;
          temp_arrays_concat := temp_arrays_concat st;
          temp_bitmap_starts := temp_bitmap_starts st;
          temp_arrays_starts := temp_arrays_starts st;
          temp_is_bitmap_marks := temp_is_bitmap_marks st |},
       input).

(** The storages whose members the formats can hold, the rank support being
    the one of [is_bitmap_marks], as it is after [prepare_for_queries] and
    after [load]. *)
Definition storage_serializable (st : t) : Prop :=
  serializable (bitmap_concat st)
  /\ serializable (bitmap_starts st)
  /\ serializable (arrays_concat st)
  /\ serializable (arrays_starts st)
  /\ serializable (is_bitmap_marks st)
  /\ rs_serializable (is_bitmap_marks st)
  /\ is_bitmap_marks_rs st = sdsl.init_support (is_bitmap_marks st).

(** [space_breakdown()]: component -> number of bytes, each component being
    serialized to a null stream. The fraction of bitmaps that the function
    prints is left out. *)
Definition space_breakdown (st : t) : string_map :=
  let breakdown := [] in
  let breakdown :=
    map_set breakdown "bitmaps-concat" (bytes_written (serialize (bitmap_concat st))) in
  let breakdown :=
    map_set breakdown "bitmaps-starts" (bytes_written (serialize (bitmap_starts st))) in
  let breakdown :=
    map_set breakdown "arrays-concat" (bytes_written (serialize (arrays_concat st))) in
  let breakdown :=
    map_set breakdown "arrays-starts" (bytes_written (serialize (arrays_starts st))) in
  let breakdown :=
    map_set breakdown "is-bitmap-marks" (bytes_written (serialize (is_bitmap_marks st))) in
  map_set breakdown "is-bitmap-marks-rank-suppport"
    (bytes_written (rs_serialize (is_bitmap_marks_rs st))).

End Serialization.

End With_Libm.

End Color_Set_Storage.

(** ** The interface of a color set storage

    [Coloring<colorset_t, colorset_view_t>] holds a
    [Color_Set_Storage<colorset_t, colorset_view_t>]; the members of the
    storage that the coloring calls are those of this class. [colorset_t]
    names the template argument, which [Coloring::serialize] and
    [Coloring::load] compare with [Color_Set], [Roaring_Color_Set] and
    [Bit_Magic_Color_Set]. *)

Inductive colorset_type : Type :=
| Color_Set
| Roaring_Color_Set
| Bit_Magic_Color_Set
| Other_Color_Set.

#[global] Instance colorset_type_eq_dec : EqDecision colorset_type.
Proof. solve_decision. Defined.

Class Color_Set_Storage_Interface (S : Type) : Type := {
  colorset_t : colorset_type;
  storage_default : S;                                    (* the default constructor *)
  storage_serialize : S -> stream;
  storage_load : S -> stream -> outcome (S * stream);
  storage_number_of_sets_stored : S -> Z;
  (* get_color_set_by_id(id).get_colors_as_vector() *)
  storage_get_colors_as_vector : S -> Z -> outcome (list Z)
}.

Section Hybrid_Storage_Interface.
Context `{Serializable sdsl.bit_vector} `{Serializable sdsl.int_vector}
        `{Rank_Support_Serializable}.

#[global] Instance hybrid_storage : Color_Set_Storage_Interface Color_Set_Storage.t := {|
  colorset_t := Color_Set;
  storage_default := Color_Set_Storage.empty;
  storage_serialize := Color_Set_Storage.serialize_storage;
  storage_load := Color_Set_Storage.load_storage;
  storage_number_of_sets_stored := Color_Set_Storage.number_of_sets_stored;
  storage_get_colors_as_vector := fun st id =>
    view ← Color_Set_Storage.get_color_set_by_id st id;
    Hybrid.colorset_get_colors_as_vector view
|}.

End Hybrid_Storage_Interface.

(** ** The generic storage: [Color_Set_Storage<colorset_t, colorset_view_t>]
    (Coloring.hh), used for the color sets of the roaring and bit-magic
    libraries *)

(** What the generic storage asks of [colorset_t]. *)
Class Color_Set_Interface (C : Type) : Type := {
  colorset_name : colorset_type;
  colorset_default : C;                                   (* [colorset_t cs;] *)
  colorset_of_vector : list Z -> C;                       (* the constructor from a vector *)
  colorset_colors : C -> outcome (list Z);                (* [get_colors_as_vector()] *)
  colorset_serializable :: Serializable C                 (* [serialize(os)], [load(is)] *)
}.

Module Generic_Storage.
Section With_Color_Set.
Context {C : Type} `{Color_Set_Interface C}.

Record t : Type := { sets : list C }.

Definition empty : t := {| sets := [] |}.

(** [get_color_set_by_id(id)], read as its colors. *)
Definition get_color_set_by_id (st : t) (id : Z) : outcome C := defined (at_index (sets st) id).

Definition add_set (st : t) (set : list Z) : t := {| sets := sets st ++ [colorset_of_vector set] |}.

(** [Color_Set_Storage(const vector<colorset_t>& sets)] *)
Definition of_sets (sets : list C) : t := {| sets := sets |}.

(** [add_set] for every vector of a list, in order. *)
Definition add_sets (st : t) (vectors : list (list Z)) : t := foldl add_set st vectors.

(** [get_all_sets()] *)
Definition get_all_sets (st : t) : list C := sets st.

Definition serialize_storage (st : t) : stream :=
  write_int64 (Z.of_nat (length (sets st))) ++ concat (serialize <$> sets st).

(** The loop of [load]: [n] sets are read, one after the other. *)
Fixpoint load_sets (n : nat) (input : stream) : outcome (list C * stream) :=
  match n with
  | O => Ret ([], input)
  | S n' =>
      '(cs, input) ← load input;
      '(rest, input) ← load_sets n' input;
      Ret (cs :: rest, input)
  end.

(** [load(is)]: [n_sets] is a [std::size_t]. *)
Definition load_storage (st : t) (input : stream) : outcome (t * stream) :=
  '(n, input) ← read_int64 input;
  let n_sets := to_uint64 n in
  '(sets', input) ← load_sets (Z.to_nat n_sets) input;
  Ret ({| sets := sets' |}, input).

(** [space_breakdown()]: the one component [sets], the bytes of the sets. *)
Definition space_breakdown (st : t) : string_map :=
  let total_set_byte_size :=
    foldl (fun total cs => total + bytes_written (serialize cs)) 0 (sets st) in
  map_set [] "sets" total_set_byte_size.

Definition number_of_sets_stored (st : t) : Z := Z.of_nat (length (sets st)).

#[global] Instance generic_storage : Color_Set_Storage_Interface t := {|
  colorset_t := colorset_name;
  storage_default := empty;
  storage_serialize := serialize_storage;
  storage_load := load_storage;
  storage_number_of_sets_stored := number_of_sets_stored;
  storage_get_colors_as_vector := fun st id =>
    cs ← get_color_set_by_id st id; colorset_colors cs
|}.

End With_Color_Set.
Arguments t C : clear implicits.
End Generic_Storage.

(** ** The node to color set map: [Sparse_Uint_Array] *)

Module Sparse_Uint_Array.

(** Modelled from the spec: the class [Sparse_Uint_Array] (its header is not
    part of the sources): a bit per node that is set when the node has an
    entry, rank support on these bits, and a packed array of the color set
    ids of the nodes that have one. *)
Record t : Type := {
  present : sdsl.bit_vector;
  present_rank : sdsl.rank_support_v5;
  values : sdsl.int_vector
}.

Definition empty : t :=
  {| present := []; present_rank := sdsl.rank_support_default;
     values := sdsl.int_vector_empty |}.

(** Modelled from the spec: [has_index(node)] is [present[node]]. *)
Definition has_index (a : t) (node : Z) : outcome bool := sdsl.bit (present a) node.

(** Modelled from the spec: [get(node)] is [values[rank1(present, node)]];
    an access to a node without an entry is a domain failure. *)
Definition get (a : t) (node : Z) : outcome Z :=
  has ← has_index a node;
  if has : bool then
    r ← sdsl.rank (present_rank a) node;
    sdsl.get_int64 (values a) r
  else Throw (runtime_error "Sparse_Uint_Array: no value at this index").

(** Modelled from the spec: the number of nodes. *)
Definition size (a : t) : Z := Z.of_nat (length (present a)).

Section Serialization.
Context `{Serializable sdsl.bit_vector} `{Serializable sdsl.int_vector}
        `{Rank_Support_Serializable}.

(** Modelled from the spec: the blob of the map in the archive is [present],
    its rank support and [values], in this order. *)
Definition serialize_array (a : t) : stream :=
  serialize (present a) ++ rs_serialize (present_rank a) ++ serialize (values a).

Definition load_array (input : stream) : outcome (t * stream) :=
  '(present', input) ← load input;
  '(present_rank', input) ← rs_load input present';
  '(values', input) ← load input;
  Ret ({| present := present'; present_rank := present_rank'; values := values' |}, input).

Definition array_serializable (a : t) : Prop :=
  serializable (present a)
  /\ rs_serializable (present a)
  /\ present_rank a = sdsl.init_support (present a)
  /\ serializable (values a).

End Serialization.

End Sparse_Uint_Array.

(** ** The k-mer index: [plain_matrix_sbwt_t]

    Of the index, a library of its own, the coloring reads the four bit
    vectors of the subset rank structure, its rank, and the C array. *)

Module SBWT.

Record subset_rank_structure : Type := {
  A_bits : sdsl.bit_vector;
  C_bits : sdsl.bit_vector;
  G_bits : sdsl.bit_vector;
  T_bits : sdsl.bit_vector
}.

Inductive nucleotide : Type := A | C | G | T.

Definition bits_of (s : subset_rank_structure) (c : nucleotide) : sdsl.bit_vector :=
  match c with
  | A => A_bits s
  | C => C_bits s
  | G => G_bits s
  | T => T_bits s
  end.

(** [subset_struct.rank(pos, c)]: the number of nodes before [pos] whose
    [c]-bit is set. *)
Definition rank (s : subset_rank_structure) (pos : Z) (c : nucleotide) : outcome Z :=
  let bits := bits_of s c in
  if decide (0 <= pos <= Z.of_nat (length bits)) then
    Ret (sdsl.popcount (take (Z.to_nat pos) bits))
  else Undefined.

Record plain_matrix_sbwt_t : Type := {
  get_subset_rank_structure : subset_rank_structure;
  get_C_array : list Z
}.

End SBWT.

(** ** The coloring (Coloring.hh) *)

Module Coloring.
Section With_Storage.
Context {storage_t : Type} `{Color_Set_Storage_Interface storage_t}.
Context `{Serializable sdsl.bit_vector} `{Serializable sdsl.int_vector}
        `{Rank_Support_Serializable} `{Serializable string}.

Record t : Type := {
  sets : storage_t;
  node_id_to_color_set_id : Sparse_Uint_Array.t;
  index_ptr : option SBWT.plain_matrix_sbwt_t;    (* no index before [load] *)
  largest_color_id : Z;
  total_color_set_length : Z
}.

(** [Coloring()] *)
Definition default : t :=
  {| sets := storage_default; node_id_to_color_set_id := Sparse_Uint_Array.empty;
     index_ptr := None; largest_color_id := 0; total_color_set_length := 0 |}.

(** The chain of [std::is_same] tests of [serialize]. *)
Definition type_id_of (c : colorset_type) : outcome string :=
  match c with
  | Color_Set => Ret "sdsl-hybrid-v4"%string
  | Roaring_Color_Set => Ret "roaring-v0"%string
  | Bit_Magic_Color_Set => Ret "bitmagic-v0"%string
  | Other_Color_Set => Throw (runtime_error "Unsupported color set template")
  end.

(** [serialize(os)] *)
Definition serialize_coloring (c : t) : outcome stream :=
  type_id ← type_id_of colorset_t;
  Ret (serialize type_id
       ++ storage_serialize (sets c)
       ++ Sparse_Uint_Array.serialize_array (node_id_to_color_set_id c)
       ++ write_int64 (largest_color_id c)
       ++ write_int64 (total_color_set_length c)).

(** The type ids that [load] knows. *)
Definition known_type_id (type_id : string) : Prop :=
  type_id = "sdsl-hybrid-v4"%string \/ type_id = "roaring-v0"%string
  \/ type_id = "bitmagic-v0"%string.

(** The check in [load] that the type id is the one of this class. *)
Definition check_type_id (type_id : string) : outcome unit :=
  if String.eqb type_id "sdsl-hybrid-v4" then
    if decide (colorset_t = Color_Set) then Ret tt
    else Throw WrongTemplateParameterException
  else if String.eqb type_id "roaring-v0" then
    if decide (colorset_t = Roaring_Color_Set) then Ret tt
    else Throw WrongTemplateParameterException
  else if String.eqb type_id "bitmagic-v0" then
    if decide (colorset_t = Bit_Magic_Color_Set) then Ret tt
    else Throw WrongTemplateParameterException
  else Throw (runtime_error ("Unknown color set type:" ++ type_id)).

(** [load(is, index)] *)
Definition load_coloring_from (c : t) (input : stream) (index : SBWT.plain_matrix_sbwt_t)
  : outcome (t * stream) :=
  '(type_id, input) ← load input;
  _ ← check_type_id type_id;
  '(sets', input) ← storage_load (sets c) input;
  '(node_id_to_color_set_id', input) ← Sparse_Uint_Array.load_array input;
  '(largest_color_id', input) ← read_int64 input;
  '(total_color_set_length', input) ← read_int64 input;
  Ret ({| sets := sets';
          node_id_to_color_set_id := node_id_to_color_set_id';
          index_ptr := Some index;
          largest_color_id := largest_color_id';
          total_color_set_length := total_color_set_length' |},
       input).

Definition is_core_kmer (c : t) (node : Z) : outcome bool :=
  Sparse_Uint_Array.has_index (node_id_to_color_set_id c) node.

(** One round of the loop of [get_color_set_id] at a node that is not a core
    k-mer: the node the edge leads to. *)
Definition follow_edge (index : SBWT.plain_matrix_sbwt_t) (node : Z) : outcome Z :=
  let C_array := SBWT.get_C_array index in
  let subset_struct := SBWT.get_subset_rank_structure index in
  a ← sdsl.bit (SBWT.A_bits subset_struct) node;
  if a : bool then
    c0 ← defined (at_index C_array 0); r ← SBWT.rank subset_struct node SBWT.A; Ret (c0 + r)
  else
    c ← sdsl.bit (SBWT.C_bits subset_struct) node;
    if c : bool then
      c1 ← defined (at_index C_array 1); r ← SBWT.rank subset_struct node SBWT.C; Ret (c1 + r)
    else
      g ← sdsl.bit (SBWT.G_bits subset_struct) node;
      if g : bool then
        c2 ← defined (at_index C_array 2); r ← SBWT.rank subset_struct node SBWT.G; Ret (c2 + r)
      else
        t ← sdsl.bit (SBWT.T_bits subset_struct) node;
        if t : bool then
          c3 ← defined (at_index C_array 3); r ← SBWT.rank subset_struct node SBWT.T; Ret (c3 + r)
        else Throw (runtime_error "BUG: dead end in get_color_set_id").


(** [get_color_set_id(node)]. The loop runs until a core k-mer is reached;
    [fuel] bounds its rounds, and [None] says that the loop is still running
    after [fuel] rounds. *)
Fixpoint get_color_set_id_loop (fuel : nat) (c : t) (index : SBWT.plain_matrix_sbwt_t)
    (node : Z) : option (outcome Z) :=
  match is_core_kmer c node with
  | Ret true => Some (Sparse_Uint_Array.get (node_id_to_color_set_id c) node)
  | Ret false =>
      match fuel with
      | O => None
      | S fuel' =>
          match follow_edge index node with
          | Ret node' => get_color_set_id_loop fuel' c index node'
          | Throw e => Some (Throw e)
          | Undefined => Some Undefined
          end
      end
  | Throw e => Some (Throw e)
  | Undefined => Some Undefined
  end.

Definition get_color_set_id (fuel : nat) (c : t) (node : Z) : option (outcome Z) :=
  match index_ptr c with
  | Some index => get_color_set_id_loop fuel c index node
  | None => Some Undefined
  end.

(** [get_color_set_as_vector_by_color_set_id(color_set_id)] *)
Definition get_color_set_as_vector_by_color_set_id (c : t) (color_set_id : Z)
  : outcome (list Z) :=
  if decide (color_set_id = -1) then
    Throw (runtime_error "BUG: Tried to access a color set with id -1")
  else storage_get_colors_as_vector (sets c) color_set_id.

(** [get_color_set_of_node_as_vector(node)] *)
Definition get_color_set_of_node_as_vector (fuel : nat) (c : t) (node : Z)
  : option (outcome (list Z)) :=
  match get_color_set_id fuel c node with
  | Some r => Some (color_set_id ← r; get_color_set_as_vector_by_color_set_id c color_set_id)
  | None => None
  end.

Definition dead_end : exn := runtime_error "BUG: dead end in get_color_set_id".

(** The walk of [get_color_set_id]: [walk c index u v] when the loop that
    starts at [u] arrives at [v], every node before [v] being a node without
    an entry whose edge is followed. *)
Inductive walk (c : t) (index : SBWT.plain_matrix_sbwt_t) : Z -> Z -> Prop :=
| walk_here u : walk c index u u
| walk_edge u u' v :
    is_core_kmer c u = Ret false ->
    follow_edge index u = Ret u' ->
    walk c index u' v ->
    walk c index u v.

(** None of the four indicator bits of [node] is set. *)
Definition no_out_edges (index : SBWT.plain_matrix_sbwt_t) (node : Z) : Prop :=
  forall X, sdsl.bit (SBWT.bits_of (SBWT.get_subset_rank_structure index) X) node = Ret false.

(** The position of a character in the C array. *)
Definition C_array_index (X : SBWT.nucleotide) : Z :=
  match X with
  | SBWT.A => 0
  | SBWT.C => 1
  | SBWT.G => 2
  | SBWT.T => 3
  end.

(** The forward-edge formula of the index: [C_array[X] + rank(node, X)]. *)
Definition successor (index : SBWT.plain_matrix_sbwt_t) (node : Z) (X : SBWT.nucleotide)
  : outcome Z :=
  c ← defined (at_index (SBWT.get_C_array index) (C_array_index X));
  r ← SBWT.rank (SBWT.get_subset_rank_structure index) node X;
  Ret (c + r).

Definition largest_color (c : t) : Z := largest_color_id c.

Definition number_of_distinct_color_sets (c : t) : Z :=
  storage_number_of_sets_stored (sets c).

Definition sum_of_all_distinct_color_set_lengths (c : t) : Z := total_color_set_length c.

End With_Storage.
Arguments t storage_t : clear implicits.
End Coloring.

Section Hybrid_Coloring.
Context `{Serializable sdsl.bit_vector} `{Serializable sdsl.int_vector}
        `{Rank_Support_Serializable} `{Serializable string}.

(** The colorings with the hybrid color sets that the formats can hold. *)
Definition coloring_serializable (c : Coloring.t Color_Set_Storage.t) : Prop :=
  serializable "sdsl-hybrid-v4"%string
  /\ Color_Set_Storage.storage_serializable (Coloring.sets c)
  /\ Sparse_Uint_Array.array_serializable (Coloring.node_id_to_color_set_id c)
  /\ - 2 ^ 63 <= Coloring.largest_color_id c < 2 ^ 63
  /\ - 2 ^ 63 <= Coloring.total_color_set_length c < 2 ^ 63.

End Hybrid_Coloring.

(** ** [load_coloring] (coloring.cpp) *)

Module Load_Coloring.
Section With_Color_Sets.
Context {roaring bit_magic : Type}
        `{Color_Set_Interface roaring} `{Color_Set_Interface bit_magic}.
Context `{Serializable sdsl.bit_vector} `{Serializable sdsl.int_vector}
        `{Rank_Support_Serializable} `{Serializable string}.

(** The [std::variant] of the three colorings. *)
Inductive coloring_variant : Type :=
| Coloring_Color_Set (c : Coloring.t Color_Set_Storage.t)
| Coloring_Roaring_Color_Set (c : Coloring.t (Generic_Storage.t roaring))
| Coloring_Bit_Magic_Color_Set (c : Coloring.t (Generic_Storage.t bit_magic)).

(** One [try] block: the file is opened and loaded into a fresh coloring of
    one type. [None] stands for the [catch] of that coloring's
    [WrongTemplateParameterException], after which the next block runs; every
    other exception leaves [load_coloring]. *)
Definition try_load {storage_t : Type} `{Color_Set_Storage_Interface storage_t}
    (wrap : Coloring.t storage_t -> coloring_variant)
    (file : stream) (SBWT : SBWT.plain_matrix_sbwt_t) : option (outcome coloring_variant) :=
  match Coloring.load_coloring_from Coloring.default file SBWT with
  | Ret (coloring, _) => Some (Ret (wrap coloring))
  | Throw WrongTemplateParameterException => None
  | Throw e => Some (Throw e)
  | Undefined => Some Undefined
  end.

(** [load_coloring(filename, SBWT, coloring)]; [file] holds the bytes of the
    file [filename]. *)
Definition load_coloring (file : stream) (SBWT : SBWT.plain_matrix_sbwt_t)
  : outcome coloring_variant :=
  match try_load Coloring_Color_Set file SBWT with
  | Some r => r
  | None =>
      match try_load Coloring_Roaring_Color_Set file SBWT with
      | Some r => r
      | None =>
          match try_load Coloring_Bit_Magic_Color_Set file SBWT with
          | Some r => r
          | None => Throw (runtime_error "Error: could not load color structure.")
          end
      end
  end.

End With_Color_Sets.
Arguments coloring_variant : clear implicits.
End Load_Coloring.

(** ** The formats of the archive

    The byte formats of the members of a coloring, as the specification lists
    them for the archive. They give instances of the classes above. *)

Module Archive_Format.

(** Modelled from the spec: integers of the archive are fixed-width and
    little-endian; this is a [u64]. *)
Definition write_u64 (x : Z) : stream := Z_to_little_endian 8 8 x.

Definition read_u64 (input : stream) : outcome (Z * stream) :=
  if decide (8 <= length input)%nat then
    Ret (little_endian_to_Z 8 (take 8 input), drop 8 input)
  else Undefined.

(** The bits of [x], least significant first, [w] of them. *)
Definition bits_of_Z (w : Z) (x : Z) : list bool :=
  (fun d => bool_decide (d = 1)) <$> Z_to_little_endian w 1 x.

Definition Z_of_bits (bits : list bool) : Z := little_endian_to_Z 1 (Z.b2z <$> bits).

(** The number of bytes that hold [nbits] bits. *)
Definition bytes_for (nbits : nat) : nat := ((nbits + 7) / 8)%nat.

(** Modelled from the spec: packed bits, padded to a byte. *)
Definition pack_bits (bits : list bool) : stream :=
  let k := bytes_for (length bits) in
  Z_of_bits <$> reshape (replicate k 8%nat)
                        (bits ++ replicate (8 * k - length bits) false).

Definition unpack_bits (nbits : nat) (bytes : stream) : list bool :=
  take nbits (mjoin (bits_of_Z 8 <$> bytes)).

(** The packed bits that follow a bit count. *)
Definition read_bits (nbits : nat) (input : stream) : outcome (list bool * stream) :=
  let k := bytes_for nbits in
  if decide (k <= length input)%nat then Ret (unpack_bits nbits (take k input), drop k input)
  else Undefined.

(** Modelled from the spec: a bit vector is its bit length as a [u64],
    followed by the packed bits. *)
Definition serialize_bit_vector (bv : sdsl.bit_vector) : stream :=
  write_u64 (Z.of_nat (length bv)) ++ pack_bits bv.

Definition load_bit_vector (input : stream) : outcome (sdsl.bit_vector * stream) :=
  '(n, input) ← read_u64 input;
  read_bits (Z.to_nat n) input.

Definition bit_vector_serializable (bv : sdsl.bit_vector) : Prop :=
  Z.of_nat (length bv) < 2 ^ 64.

(** Modelled from the spec: an integer vector is its element width as a
    [u8], the element count as a [u64], and the packed values. *)
Definition serialize_int_vector (iv : sdsl.int_vector) : stream :=
  [sdsl.width iv]
  ++ write_u64 (sdsl.size iv)
  ++ pack_bits (mjoin (bits_of_Z (sdsl.width iv) <$> sdsl.elements iv)).

Definition load_int_vector (input : stream) : outcome (sdsl.int_vector * stream) :=
  match input with
  | [] => Undefined
  | w :: input =>
      '(count, input) ← read_u64 input;
      '(bits, input) ← read_bits (Z.to_nat (count * w)) input;
      Ret ({| sdsl.width := w;
              sdsl.elements :=
                Z_of_bits <$> reshape (replicate (Z.to_nat count) (Z.to_nat w)) bits |},
           input)
  end.

Definition int_vector_serializable (iv : sdsl.int_vector) : Prop :=
  0 <= sdsl.width iv <= 64
  /\ sdsl.size iv < 2 ^ 64
  /\ Forall (fun v => 0 <= v < 2 ^ sdsl.width iv) (sdsl.elements iv).

(** Modelled from the spec: a string is its length, followed by its bytes. *)
Definition serialize_string (s : string) : stream :=
  write_u64 (Z.of_nat (String.length s))
  ++ ((fun a => Z.of_N (N_of_ascii a)) <$> list_ascii_of_string s).

Definition load_string (input : stream) : outcome (string * stream) :=
  '(n, input) ← read_u64 input;
  if decide (Z.to_nat n <= length input)%nat then
    Ret (string_of_list_ascii ((fun b => ascii_of_N (Z.to_N b)) <$> take (Z.to_nat n) input),
         drop (Z.to_nat n) input)
  else Undefined.

Definition string_serializable (s : string) : Prop := Z.of_nat (String.length s) < 2 ^ 64.

(** The tables of a rank support, of which the spec only says that they are
    serialized: here, for every block of 2048 bits and for the end of the
    vector, the number of set bits before it, as an integer vector of width
    64. *)
Definition rank_table (v : sdsl.bit_vector) : sdsl.int_vector :=
  {| sdsl.width := 64;
     sdsl.elements :=
       (fun i => sdsl.popcount (take (2048 * i) v) `mod` 2 ^ 64)
         <$> seq 0 (S (length v / 2048)) |}.

Definition serialize_rank_support (rs : sdsl.rank_support_v5) : stream :=
  match sdsl.m_v rs with
  | Some v => serialize_int_vector (rank_table v)
  | None => serialize_int_vector sdsl.int_vector_empty
  end.

Definition load_rank_support (input : stream) (v : sdsl.bit_vector)
  : outcome (sdsl.rank_support_v5 * stream) :=
  '(_, input) ← load_int_vector input;
  Ret (sdsl.init_support v, input).

Definition rank_support_serializable (v : sdsl.bit_vector) : Prop :=
  Z.of_nat (S (length v / 2048)) < 2 ^ 64.

End Archive_Format.

(** ** The layout of a built storage, as lists *)

Module Layout.

Section With_Libm.
Context {libm : Libm}.

Definition largest (set : list Z) : Z :=
  match set with
  | [] => 0
  | x :: v => foldl Z.max x v
  end.

Definition is_dense (set : list Z) : bool := dense (largest set) (Z.of_nat (length set)).

Definition mark_bits (bv : list bool) (set : list Z) : list bool :=
  foldl (fun bv x => <[Z.to_nat x := true]> bv) bv set.

Definition bitmap_of (set : list Z) : list bool :=
  mark_bits (replicate (Z.to_nat (largest set + 1)) false) set.

Definition bitmaps (sets : list (list Z)) : list (list bool) :=
  bitmap_of <$> filter (fun set => is_dense set = true) sets.

Definition arrays (sets : list (list Z)) : list (list Z) :=
  filter (fun set => is_dense set = false) sets.

Fixpoint offsets {A : Type} (base : Z) (chunks : list (list A)) : list Z :=
  match chunks with
  | [] => []
  | c :: chunks' => base :: offsets (base + Z.of_nat (length c)) chunks'
  end.

Definition starts {A : Type} (chunks : list (list A)) : list Z :=
  offsets 0 chunks ++ [Z.of_nat (length (concat chunks))].

(** The sets [add_set] is meant for: not empty ([max_element] of an empty
    vector dereferences [end()]), with colors that are [int64_t] values and
    not negative. *)
Definition valid_colors (set : list Z) : Prop :=
  set <> [] /\ Forall (fun c => 0 <= c < 2 ^ 63) set.

(** The two concatenations have lengths that are [int64_t] values. *)
Definition fits (sets : list (list Z)) : Prop :=
  Z.of_nat (length (concat (bitmaps sets))) < 2 ^ 63
  /\ Z.of_nat (length (concat (arrays sets))) < 2 ^ 63.

(** The view of chunk [j] of a concatenation. *)
Definition chunk_view {A} (data : Hybrid.data) (chunks : list (list A)) (j : nat)
  : Hybrid.Color_Set_View :=
  {| Hybrid.data_ptr := data;
     Hybrid.start := Z.of_nat (length (concat (take j chunks)));
     Hybrid.length :=
       Z.of_nat (length (concat (take (S j) chunks)))
       - Z.of_nat (length (concat (take j chunks))) |}.


Definition strictly_increasing (l : list Z) : Prop :=
  forall (i j : nat) a b, (i < j)%nat -> l !! i = Some a -> l !! j = Some b -> a < b.


Definition data_size (d : Hybrid.data) : Z :=
  match d with
  | Hybrid.Bitmap bv => Z.of_nat (length bv)
  | Hybrid.Array iv => sdsl.size iv
  end.


(** The span of a set lies inside the vector it points to. *)
Definition in_bounds (cs : Hybrid.colorset_t) : Prop :=
  0 <= Hybrid.start cs /\ 0 <= Hybrid.length cs
  /\ Hybrid.start cs + Hybrid.length cs <= data_size (Hybrid.data_ptr cs).


(** Two sparse sets and a dense one. *)
Definition example_sets : list (list Z) := [[4; 1534; 4003; 8903]; [0; 1; 2; 3]; [7]].

(** The storage built from them. *)
Definition example_storage : Color_Set_Storage.t :=
  match Color_Set_Storage.build example_sets with
  | Ret st => st
  | _ => Color_Set_Storage.empty
  end.

(** The view of the second of two bitmaps: bits 3 to 5 of the concatenation. *)
Definition example_view : Hybrid.Color_Set_View :=
  {| Hybrid.data_ptr := Hybrid.Bitmap [true; true; true; true; false; true];
     Hybrid.start := 3; Hybrid.length := 3 |}.

End With_Libm.

End Layout.

(** ** Examples *)

Module Examples.

Section With_Libm.
Context {libm : Libm}.

(** A color set kept as a plain bitmap. It stands for the color sets of the
    roaring and bit-magic libraries, which are not part of the sources. *)
Record roaring_set : Type := { roaring_bits : sdsl.bit_vector }.
Record bit_magic_set : Type := { bit_magic_bits : sdsl.bit_vector }.

(** The positions of the set bits. *)
Definition colors_of_bits (bv : sdsl.bit_vector) : list Z :=
  (fun p => Z.of_nat p.1) <$> filter (fun p => p.2 = true) (imap pair bv).

(** An index of four nodes: node 0 has an A-edge to node 1, node 1 a C-edge
    to node 2, nodes 2 and 3 have no out-edges. *)
Definition example_index : SBWT.plain_matrix_sbwt_t :=
  {| SBWT.get_subset_rank_structure :=
       {| SBWT.A_bits := [true; false; false; false];
          SBWT.C_bits := [false; true; false; false];
          SBWT.G_bits := [false; false; false; false];
          SBWT.T_bits := [false; false; false; false] |};
     SBWT.get_C_array := [1; 2; 3; 4] |}.

(** Node 2 is the only node with an entry: color set 1. *)
Definition example_map : Sparse_Uint_Array.t :=
  {| Sparse_Uint_Array.present := [false; false; true; false];
     Sparse_Uint_Array.present_rank := sdsl.init_support [false; false; true; false];
     Sparse_Uint_Array.values := {| sdsl.width := 1; sdsl.elements := [1] |} |}.

Definition example_coloring : Coloring.t Color_Set_Storage.t :=
  {| Coloring.sets := Layout.example_storage;
     Coloring.node_id_to_color_set_id := example_map;
     Coloring.index_ptr := Some example_index;
     Coloring.largest_color_id := 8903;
     Coloring.total_color_set_length := 9 |}.

(** The dense vectors of the tests (test_color_set.hh): the multiples of
    [gap] below [total_length]. *)
Definition get_dense_example (gap total_length : Z) : list Z :=
  (fun i => gap * Z.of_nat i) <$> seq 0 (Z.to_nat ((total_length + gap - 1) / gap)).

(** What a set built from a vector answers: whether it is a bitmap, its size
    and its colors. *)
Definition describe (v : list Z) : outcome (bool * Z * list Z) :=
  cs ← Hybrid.Color_Set_of_vector v;
  size ← Hybrid.colorset_size cs;
  colors ← Hybrid.colorset_get_colors_as_vector cs;
  Ret (Hybrid.colorset_is_bitmap cs, size, colors).

Definition contains_of_vector (v : list Z) (c : Z) : outcome bool :=
  cs ← Hybrid.Color_Set_of_vector v; Hybrid.colorset_contains cs c.

(** Two sets built from vectors, the first intersected with the second. *)
Definition intersection_of_vectors (a b : list Z) : outcome (list Z) :=
  A ← Hybrid.Color_Set_of_vector a;
  B ← Hybrid.Color_Set_of_vector b;
  A' ← Hybrid.intersection A B;
  Hybrid.colorset_get_colors_as_vector A'.

End With_Libm.

End Examples.

(** ** The span of a color set, as lists *)

Module Views.
Import Layout Examples.

(** The bits a bitmap set spans: [length] bits of its vector from [start] on. *)
Definition bits_of_view (cs : Hybrid.colorset_t) : list bool :=
  match Hybrid.data_ptr cs with
  | Hybrid.Bitmap bv =>
      take (Z.to_nat (Hybrid.length cs)) (drop (Z.to_nat (Hybrid.start cs)) bv)
  | Hybrid.Array _ => []
  end.

(** The elements an array set spans, as the [int64_t] values they are read as. *)
Definition values_of_view (cs : Hybrid.colorset_t) : list Z :=
  match Hybrid.data_ptr cs with
  | Hybrid.Bitmap _ => []
  | Hybrid.Array iv =>
      to_int64 <$> take (Z.to_nat (Hybrid.length cs))
                        (drop (Z.to_nat (Hybrid.start cs)) (sdsl.elements iv))
  end.

(** The colors of a set: the positions of the set bits of a bitmap, the
    values of an array in their order. *)
Definition colors_of (cs : Hybrid.colorset_t) : list Z :=
  if Hybrid.colorset_is_bitmap cs then colors_of_bits (bits_of_view cs)
  else values_of_view cs.

(** Every element of an [sdsl::int_vector<>] has [width] bits. *)
Definition int_vector_wf (iv : sdsl.int_vector) : Prop :=
  Forall (fun x => 0 <= x < 2 ^ sdsl.width iv) (sdsl.elements iv).

Definition data_wf (d : Hybrid.data) : Prop :=
  match d with
  | Hybrid.Bitmap _ => True
  | Hybrid.Array iv => int_vector_wf iv
  end.

End Views.

(** ** The colorings over the generic storage that the formats can hold *)

Section Generic_Serializable.
Context {C : Type} `{Color_Set_Interface C}.
Context `{Serializable sdsl.bit_vector} `{Serializable sdsl.int_vector}
        `{Rank_Support_Serializable} `{Serializable string}.

(** The number of sets is written as a [std::size_t] and every set with its
    own [serialize]. *)
Definition generic_storage_serializable (st : Generic_Storage.t C) : Prop :=
  Forall serializable (Generic_Storage.sets st)
  /\ Z.of_nat (length (Generic_Storage.sets st)) < 2 ^ 63.

(** [type_id] is the type id that [serialize] writes for the color sets. *)
Definition generic_coloring_serializable (c : Coloring.t (Generic_Storage.t C))
    (type_id : string) : Prop :=
  Coloring.type_id_of (colorset_name (C := C)) = Ret type_id
  /\ serializable type_id
  /\ generic_storage_serializable (Coloring.sets c)
  /\ Sparse_Uint_Array.array_serializable (Coloring.node_id_to_color_set_id c)
  /\ - 2 ^ 63 <= Coloring.largest_color_id c < 2 ^ 63
  /\ - 2 ^ 63 <= Coloring.total_color_set_length c < 2 ^ 63.

End Generic_Serializable.

(** ** The index builder (build_index_main.cpp) *)

Module Build_Index.

(** [str.substr(pos)]: the characters of [str] from position [pos] to the end. *)
Definition substr (str : string) (pos : nat) : string :=
  substring pos (String.length str - pos) str.

Definition has_suffix_dot_txt (str : string) : bool :=
  (4 <=? String.length str)%nat && String.eqb (substr str (String.length str - 4)) ".txt".

(** [struct Build_Config], without [input_format], which is a type of the
    sbwt library that none of the functions below reads. *)
Record Build_Config : Type := {
  k : Z;
  n_threads : Z;
  seqfile_CLI_variable : string;
  colorfile_CLI_variable : string;
  seqfiles : list string;
  colorfiles : list string;
  index_dbg_file : string;
  index_color_file : string;
  temp_dir : string;
  coloring_structure_type : string;
  from_index : string;
  load_dbg : bool;
  memory_megas : Z;
  no_colors : bool;
  del_non_ACGT : bool;
  colorset_sampling_distance : Z;
  verbose : bool;
  silent : bool;
  reverse_complements : bool;
  manual_colors : bool;
  file_colors : bool;
  sequence_colors : bool
}.

(** [for(const string& S : files) check(S);] *)
Fixpoint for_each (check : string -> outcome unit) (files : list string) : outcome unit :=
  match files with
  | [] => Ret tt
  | file :: files' => _ ← check file; for_each check files'
  end.

Section Check_Valid.

(** The macro [MAX_KMER_LENGTH], [std::to_string], and the checks of the sbwt
    library ([sbwt::check_true], [sbwt::check_readable],
    [sbwt::check_writable], [check_dir_exists]), which are not part of the
    sources, are parameters. *)
Variable MAX_KMER_LENGTH : Z.
Variable to_string : Z -> string.
Variable check_true : bool -> string -> outcome unit.
Variables check_readable check_writable check_dir_exists : string -> outcome unit.

(** [Build_Config::check_valid()]; the warning that it logs when [k] is given
    with [--load-dbg] is left out. *)
Definition check_valid (C : Build_Config) : outcome unit :=
  _ ← (if negb (String.eqb (from_index C) "") then
         (* From existing index *)
         _ ← check_true (negb (manual_colors C))
               "Must not give both --from-index and manual colors";
         _ ← check_true (length (seqfiles C) =? 0)%nat
               "Must not give both --from-index and input sequences";
         _ ← check_true (Bool.eqb (no_colors C) false)
               "Must not give both --from-index and --load-dbg";
         check_true (k C =? 0)
           "Must not give both --from-index and -k because k is defined in the index"
       else
         (* From fasta *)
         _ ← check_true (0 <? length (seqfiles C))%nat "Input file not set";
         _ ← for_each check_readable (seqfiles C);
         if negb (load_dbg C) then
           _ ← check_true (negb (k C =? 0)) "Parameter k not set";
           check_true (k C <=? MAX_KMER_LENGTH)
             ("Maximum allowed k is " ++ to_string MAX_KMER_LENGTH
              ++ ". To increase the limit, recompile by first running cmake with the option `-DMAX_KMER_LENGTH=n`, where n is a number up to 255, and then running `make` again.")
         else Ret tt);
  _ ← check_writable (index_dbg_file C);
  _ ← check_writable (index_color_file C);
  _ ← (if (0 <? length (colorfiles C))%nat then
         _ ← check_true (negb (no_colors C))
               "Must not give both --no-colors and --manual-colors";
         _ ← check_true (negb (file_colors C))
               "Must not give both --no-colors and --file-colors";
         _ ← check_true (negb (sequence_colors C))
               "Must not give both --no-colors and --sequence-colors";
         for_each check_readable (colorfiles C)
       else Ret tt);
  _ ← (if negb (String.eqb (coloring_structure_type C) "sdsl-hybrid")
          && negb (String.eqb (coloring_structure_type C) "roaring")
       then Throw (runtime_error ("Unknown coloring structure type: "
                                  ++ coloring_structure_type C))
       else Ret tt);
  _ ← check_true (negb (String.eqb (temp_dir C) "")) "Temp directory not set";
  _ ← check_dir_exists (temp_dir C);
  _ ← check_true (0 <? memory_megas C) "Memory budget must be positive";
  check_true (1 <=? colorset_sampling_distance C)
    "Colorset sampling distance must be positive".

(** The configurations that [check_valid] lets through, the checks of files
    and directories apart. *)
Definition valid_config (C : Build_Config) : Prop :=
  (if negb (String.eqb (from_index C) "") then
     manual_colors C = false /\ seqfiles C = [] /\ no_colors C = false /\ k C = 0
   else
     seqfiles C <> []
     /\ (load_dbg C = false -> k C <> 0 /\ k C <= MAX_KMER_LENGTH))
  /\ (colorfiles C <> [] ->
      no_colors C = false /\ file_colors C = false /\ sequence_colors C = false)
  /\ (coloring_structure_type C = "sdsl-hybrid"%string
      \/ coloring_structure_type C = "roaring"%string)
  /\ temp_dir C <> ""%string
  /\ 0 < memory_megas C
  /\ 1 <= colorset_sampling_distance C.

(** The files and directories that [check_valid] checks all pass. *)
Definition files_ok (C : Build_Config) : Prop :=
  (String.eqb (from_index C) "" = true ->
   Forall (fun file => check_readable file = Ret tt) (seqfiles C))
  /\ check_writable (index_dbg_file C) = Ret tt
  /\ check_writable (index_color_file C) = Ret tt
  /\ Forall (fun file => check_readable file = Ret tt) (colorfiles C)
  /\ check_dir_exists (temp_dir C) = Ret tt.

End Check_Valid.

(** The values of the command line options of [build_index_main], as
    [cxxopts] parses them. *)
Record Options : Type := {
  opt_k : Z;
  opt_input_file : string;
  opt_manual_colors : string;
  opt_file_colors : bool;
  opt_sequence_colors : bool;
  opt_no_colors : bool;
  opt_index_prefix : string;
  opt_reverse_complements : bool;
  opt_temp_dir : string;
  opt_mem_megas : Z;
  opt_n_threads : Z;
  opt_randomize_non_ACGT : bool;
  opt_colorset_pointer_tradeoff : Z;
  opt_load_dbg : bool;
  opt_coloring_structure_type : string;
  opt_from_index : string;
  opt_verbose : bool;
  opt_silent : bool
}.

Section Configure.

(** [sbwt::readlines(filename)]: the lines of a file. *)
Variable readlines : string -> list string.

(** The part of [build_index_main] that fills the [Build_Config] from the
    options. *)
Definition build_config (opts : Options) : Build_Config :=
  let colorfile_CLI_variable := opt_manual_colors opts in
  let seqfile_CLI_variable := opt_input_file opts in
  let file_colors := opt_file_colors opts in
  let sequence_colors :=
    if String.eqb colorfile_CLI_variable "" && negb file_colors
       && negb (opt_sequence_colors opts)
    then true   (* Default behavior if no color options are set *)
    else opt_sequence_colors opts in
  let manual_colors := negb file_colors && negb sequence_colors in
  let seqfiles :=
    if has_suffix_dot_txt seqfile_CLI_variable then readlines seqfile_CLI_variable
    else if negb (String.eqb seqfile_CLI_variable "") then [seqfile_CLI_variable]
    else [] in
  let colorfiles :=
    if manual_colors then
      if has_suffix_dot_txt seqfile_CLI_variable then readlines colorfile_CLI_variable
      else [colorfile_CLI_variable]
    else [] in
  {| k := opt_k opts;
     n_threads := opt_n_threads opts;
     seqfile_CLI_variable := seqfile_CLI_variable;
     colorfile_CLI_variable := colorfile_CLI_variable;
     seqfiles := seqfiles;
     colorfiles := colorfiles;
     index_dbg_file := opt_index_prefix opts ++ ".tdbg";
     index_color_file := opt_index_prefix opts ++ ".tcolors";
     temp_dir := opt_temp_dir opts;
     coloring_structure_type := opt_coloring_structure_type opts;
     from_index := opt_from_index opts;
     load_dbg := opt_load_dbg opts;
     memory_megas := opt_mem_megas opts;
     no_colors := opt_no_colors opts;
     del_non_ACGT := negb (opt_randomize_non_ACGT opts);
     colorset_sampling_distance := opt_colorset_pointer_tradeoff opts;
     verbose := opt_verbose opts;
     silent := opt_silent opts;
     reverse_complements := opt_reverse_complements opts;
     manual_colors := manual_colors;
     file_colors := file_colors;
     sequence_colors := sequence_colors |}.

End Configure.

Section Non_ACGT.

(** [fix_alphabet(filename)]: the name of a copy of the file in which the
    characters outside of ACGT are replaced. *)
Variable fix_alphabet : string -> string.

(** The step of [build_index_main] that deals with non-ACGT characters:
    unless they are deleted, every sequence file is replaced by its copy. *)
Definition replace_non_ACGT (C : Build_Config) : Build_Config :=
  if del_non_ACGT C then C
  else
    {| k := k C;
       n_threads := n_threads C;
       seqfile_CLI_variable := seqfile_CLI_variable C;
       colorfile_CLI_variable := colorfile_CLI_variable C;
       seqfiles := fix_alphabet <$> seqfiles C;
       colorfiles := colorfiles C;
       index_dbg_file := index_dbg_file C;
       index_color_file := index_color_file C;
       temp_dir := temp_dir C;
       coloring_structure_type := coloring_structure_type C;
       from_index := from_index C;
       load_dbg := load_dbg C;
       memory_megas := memory_megas C;
       no_colors := no_colors C;
       del_non_ACGT := del_non_ACGT C;
       colorset_sampling_distance := colorset_sampling_distance C;
       verbose := verbose C;
       silent := silent C;
       reverse_complements := reverse_complements C;
       manual_colors := manual_colors C;
       file_colors := file_colors C;
       sequence_colors := sequence_colors C |}.

End Non_ACGT.

(** The color stream that [build_index_main] makes, by its class and the
    arguments of its constructor; none with [--no-colors]. *)
Inductive color_stream : Type :=
| Unique_For_Each_File_Color_Stream (seqfiles : list string) (reverse_complements : bool)
| Unique_For_Each_Sequence_Color_Stream (reverse_complements : bool)
| Colorfile_Stream (colorfiles : list string) (reverse_complements : bool).

Definition make_color_stream (C : Build_Config) : option color_stream :=
  if negb (no_colors C) then
    if file_colors C then
      Some (Unique_For_Each_File_Color_Stream (seqfiles C) (reverse_complements C))
    else if (length (colorfiles C) =? 0)%nat then
      (* Color each sequence separately *)
      Some (Unique_For_Each_Sequence_Color_Stream (reverse_complements C))
    else
      (* User-defined colors *)
      Some (Colorfile_Stream (colorfiles C) (reverse_complements C))
  else None.

(** [generate_default_colorfile(reader, reverse_complements)]. [reads] are
    the lengths that [reader.get_next_read_to_buffer()] returns, the reader
    returning 0 when it has no read left; the file written is given by the
    integers of its lines. [seq_id] counts the reads so far. *)
Fixpoint generate_default_colorfile (reads : list Z) (reverse_complements : bool)
    (seq_id : Z) : list Z :=
  match reads with
  | [] => []
  | len :: reads' =>
      if decide (len = 0) then []
      else
        (seq_id :: if reverse_complements then [seq_id] else [])
        ++ generate_default_colorfile reads' reverse_complements (seq_id + 1)
  end.

Section Build_From_Index.
Context {old_storage : Type} `{Color_Set_Storage_Interface old_storage}.
Context {new_colorset new_storage : Type}.

(** The constructor of the new color set type from a vector, and the
    constructor of its storage from a vector of color sets. *)
Variable new_colorset_of_vector : list Z -> outcome new_colorset.
Variable new_storage_of_sets : list new_colorset -> outcome new_storage.

(** The loop of [build_from_index] over the color set ids of the old
    coloring: the re-encoded sets, the largest color and the total length. *)
Definition build_from_index_loop (old_coloring : Coloring.t old_storage)
  : outcome (list new_colorset * Z * Z) :=
  Hybrid.for_loop (Coloring.number_of_distinct_color_sets old_coloring)
    (fun i '(new_colorsets, largest_color, total_length) =>
       set ← Coloring.get_color_set_as_vector_by_color_set_id old_coloring i;
       let largest_color := foldl Z.max largest_color set in
       let total_length := total_length + Z.of_nat (length set) in
       cs ← new_colorset_of_vector set;   (* Re-encodes as the new color set type *)
       Ret (new_colorsets ++ [cs], largest_color, total_length))
    ([], 0, 0).

(** [build_from_index(dbg, old_coloring, C)] up to the new storage, the
    largest color and the total length, which the new coloring is made of
    together with the node map of the old one. *)
Definition build_from_index (old_coloring : Coloring.t old_storage)
  : outcome (new_storage * Z * Z) :=
  '(new_colorsets, largest_color, total_length) ← build_from_index_loop old_coloring;
  new_storage ← new_storage_of_sets new_colorsets;
  Ret (new_storage, largest_color, total_length).

End Build_From_Index.

(** A configuration for an index of one FASTA file with a color file. *)
Definition example_config : Build_Config :=
  {| k := 31; n_threads := 1;
     seqfile_CLI_variable := "references.fna"; colorfile_CLI_variable := "colors.txt";
     seqfiles := ["references.fna"%string]; colorfiles := ["colors.txt"%string];
     index_dbg_file := "my_index.tdbg"; index_color_file := "my_index.tcolors";
     temp_dir := "temp"; coloring_structure_type := "sdsl-hybrid"; from_index := "";
     load_dbg := false; memory_megas := 10000; no_colors := false; del_non_ACGT := true;
     colorset_sampling_distance := 1; verbose := false; silent := false;
     reverse_complements := false;
     manual_colors := true; file_colors := false; sequence_colors := false |}.

(** A [check_true] that throws the message, and a file system on which every
    check passes. *)
Definition example_check_true (condition : bool) (error_message : string) : outcome unit :=
  if condition then Ret tt else Throw (runtime_error error_message).

Definition example_check_file (file : string) : outcome unit := Ret tt.

End Build_Index.

(** ** The query program (pseudoalign.cpp) *)

Module Pseudoalign.

(** [char get_rc(char c)] *)
Definition get_rc (c : ascii) : ascii :=
  if Ascii.eqb c "A" then "T"%char
  else if Ascii.eqb c "T" then "A"%char
  else if Ascii.eqb c "C" then "G"%char
  else if Ascii.eqb c "G" then "C"%char
  else c.

(** The loop [for(LL i = S.size()-1; i >= 0; i--) rc += get_rc(S[i])]: [n]
    is [i + 1]. *)
Fixpoint get_rc_loop (str : list ascii) (n : nat) (rc : list ascii) : list ascii :=
  match n with
  | O => rc
  | S i => get_rc_loop str i (rc ++ [get_rc (nth i str Ascii.zero)])
  end.

(** [string get_rc(string S)], a string being the list of its characters. *)
Definition get_rc_string (str : list ascii) : list ascii :=
  get_rc_loop str (length str) [].

End Pseudoalign.

(** * Properties *)

(** ** Color streams *)

Section Color_Stream_Facts.
Import Color_Streams.

Lemma after_add (n m : nat) s : after (n + m) s = after m (after n s).
Proof. revert s; induction n as [|n IH]; intros s; simpl; [done | apply IH]. Qed.

Lemma after_pair x0 (n : nat) :
  after (2 * n) {| x := x0; reverse_complements := true; increment_flag := false |}
  = {| x := x0 + Z.of_nat n; reverse_complements := true; increment_flag := false |}.
Proof.
  revert x0; induction n as [|n IH]; intros x0.
  - simpl. f_equal. lia.
  - replace (2 * S n)%nat with (2 + 2 * n)%nat by lia.
    rewrite after_add. simpl after at 2. unfold next; simpl.
    rewrite IH. f_equal. lia.
Qed.

Lemma after_single (n : nat) s :
  reverse_complements s = false ->
  reverse_complements (after n s) = false /\ x (after n s) = x s + Z.of_nat n.
Proof.
  revert s; induction n as [|n IH]; intros s Hrc.
  - simpl. split; [done | lia].
  - cbn [after]. destruct (IH (snd (next s))) as [H1 H2].
    + unfold next; simpl. done.
    + split; [done |]. rewrite H2. unfold next; simpl. rewrite Hrc; simpl. lia.
Qed.

Lemma getline_loop_spec later : forall in_ idx c rest,
  in_ ++ concat later = c :: rest ->
  exists in' (k : nat),
    getline_loop later in_ idx = Ret (c, in', idx + Z.of_nat k)
    /\ in' ++ concat (drop k later) = rest.
Proof.
  induction later as [|f later IH]; intros in_ idx c rest Heq.
  - destruct in_ as [|l in']; simpl in Heq; [done |].
    injection Heq as -> <-. exists in', 0%nat. simpl. split; [f_equal; f_equal; lia | done].
  - destruct in_ as [|l in']; simpl in Heq.
    + destruct (IH f (idx + 1) c rest Heq) as (in' & k & Hk & Hrest).
      exists in', (S k). simpl. rewrite Hk. split; [f_equal; f_equal; lia | done].
    + injection Heq as -> <-. exists in', 0%nat. simpl.
      split; [f_equal; f_equal; lia | done].
Qed.

Lemma getline_loop_end later : forall in_ idx,
  in_ ++ concat later = [] ->
  getline_loop later in_ idx = Throw (runtime_error "Error: more colors than sequences.").
Proof.
  induction later as [|f later IH]; intros in_ idx Heq;
    destruct in_ as [|l in']; simpl in Heq; try done.
  simpl. apply IH. done.
Qed.

(** Reading a line: the color is the head of the pending ones. *)
Lemma cf_next_read s c rest :
  cf_reverse_complements s && cf_rc_flag s = false ->
  0 <= cf_current_file_idx s ->
  pending s = c :: rest ->
  exists s', cf_next s = Ret (c, s')
    /\ pending s' = rest /\ 0 <= cf_current_file_idx s'
    /\ cf_x s' = c
    /\ cf_reverse_complements s' = cf_reverse_complements s
    /\ cf_rc_flag s' = negb (cf_rc_flag s).
Proof.
  intros Hflag Hidx Hpend. unfold cf_next. rewrite Hflag.
  destruct (getline_loop_spec _ _ (cf_current_file_idx s) _ _ Hpend) as (in' & k & Hk & Hrest).
  rewrite Hk. simpl. eexists; split; [reflexivity |].
  unfold pending; simpl. repeat split; try done; [| lia].
  rewrite <- Hrest. f_equal. f_equal. rewrite drop_drop. f_equal. lia.
Qed.

Lemma cf_calls_rc rest : forall s,
  cf_reverse_complements s = true -> cf_rc_flag s = false ->
  0 <= cf_current_file_idx s -> pending s = rest ->
  cf_calls (2 * length rest) s = Ret (twice rest).
Proof.
  induction rest as [|c rest IH]; intros s Hrc Hflag Hidx Hpend; [done |].
  replace (2 * length (c :: rest))%nat with (S (S (2 * length rest))) by (simpl; lia).
  destruct (cf_next_read s c rest) as (s' & Hn & Hp & Hi & Hx & Hrc' & Hfl');
    [by rewrite Hrc, Hflag | done | done |].
  cbn [cf_calls]. rewrite Hn. simpl.
  rewrite Hrc, Hflag in *. simpl in Hfl'.
  unfold cf_next at 1. rewrite Hrc', Hfl'. simpl.
  rewrite IH; [by rewrite Hx | done..].
Qed.

Lemma cf_calls_plain rest : forall s,
  cf_reverse_complements s = false ->
  0 <= cf_current_file_idx s -> pending s = rest ->
  cf_calls (length rest) s = Ret rest.
Proof.
  induction rest as [|c rest IH]; intros s Hrc Hidx Hpend; [done |].
  destruct (cf_next_read s c rest) as (s' & Hn & Hp & Hi & Hx & Hrc' & Hfl');
    [by rewrite Hrc | done | done |].
  cbn [length cf_calls]. rewrite Hn. simpl.
  rewrite IH; [done | congruence | done | done].
Qed.

Lemma uf_advance_spec counts : forall idx seq_idx c rest,
  0 <= seq_idx ->
  match counts with
  | [] => []
  | n :: later => replicate (Z.to_nat (n - seq_idx)) idx ++ file_colors (idx + 1) later
  end = c :: rest ->
  exists (k : nat) seq_idx' n later,
    uf_advance counts idx seq_idx = Ret (idx + Z.of_nat k, seq_idx')
    /\ c = idx + Z.of_nat k /\ 0 <= seq_idx'
    /\ drop k counts = n :: later
    /\ replicate (Z.to_nat (n - (seq_idx' + 1))) (idx + Z.of_nat k)
       ++ file_colors (idx + Z.of_nat k + 1) later = rest.
Proof.
  induction counts as [|n later IH]; intros idx seq_idx c rest Hseq Hpend; [done |].
  simpl. destruct (decide (seq_idx >= n)) as [Hge | Hlt].
  - replace (Z.to_nat (n - seq_idx)) with 0%nat in Hpend by lia. simpl in Hpend.
    destruct (IH (idx + 1) 0 c rest) as (k & seq_idx' & n' & later' & Ha & Hc & Hs & Hd & Hr).
    + lia.
    + destruct later as [|n' later']; [done |]. by rewrite Z.sub_0_r.
    + exists (S k), seq_idx', n', later'. rewrite Ha. simpl.
      replace (idx + Z.of_nat (S k)) with (idx + 1 + Z.of_nat k) by lia. done.
  - exists 0%nat, seq_idx, n, later. rewrite Z.add_0_r.
    replace (Z.to_nat (n - seq_idx)) with (S (Z.to_nat (n - (seq_idx + 1)))) in Hpend by lia.
    simpl in Hpend. injection Hpend as <- <-. done.
Qed.

Lemma uf_next_spec s c rest :
  0 <= cur_file_idx s -> 0 <= cur_file_seq_idx s ->
  uf_pending s = c :: rest ->
  exists s', uf_next s = Ret (c, s')
    /\ 0 <= cur_file_idx s' /\ 0 <= cur_file_seq_idx s' /\ uf_pending s' = rest.
Proof.
  intros Hidx Hseq Hpend. unfold uf_next, uf_pending in *.
  destruct (uf_advance_spec _ _ _ _ _ Hseq Hpend)
    as (k & seq_idx' & n & later & Ha & Hc & Hs & Hd & Hr).
  rewrite Ha. simpl. eexists. split; [by rewrite Hc |]. simpl.
  split; [lia |]. split; [lia |].
  rewrite drop_drop in Hd.
  replace (Z.to_nat (cur_file_idx s + Z.of_nat k)) with (Z.to_nat (cur_file_idx s) + k)%nat
    by lia.
  by rewrite Hd.
Qed.

Lemma uf_calls_pending rest : forall s,
  0 <= cur_file_idx s -> 0 <= cur_file_seq_idx s ->
  uf_pending s = rest -> uf_calls (length rest) s = Ret rest.
Proof.
  induction rest as [|c rest IH]; intros s Hidx Hseq Hpend; [done |].
  destruct (uf_next_spec s c rest Hidx Hseq Hpend) as (s' & Hn & Hi & Hs & Hp).
  cbn [length uf_calls]. rewrite Hn. simpl. by rewrite IH.
Qed.

Lemma uf_make_pending counts rc :
  uf_pending (uf_make counts rc)
  = file_colors 0 ((fun n => if rc then n * 2 else n) <$> counts).
Proof.
  unfold uf_pending, uf_make. simpl.
  destruct counts as [|n later]; [done |]. simpl. by rewrite Z.sub_0_r.
Qed.

Lemma twice_app l k : twice (l ++ k) = twice l ++ twice k.
Proof. unfold twice. by rewrite flat_map_app. Qed.

Lemma twice_replicate (n : nat) c : twice (replicate n c) = replicate (2 * n) c.
Proof.
  induction n as [|n IH]; [done |].
  replace (2 * S n)%nat with (S (S (2 * n))) by lia.
  change (twice (replicate (S n) c)) with (c :: c :: twice (replicate n c)).
  by rewrite IH.
Qed.

Lemma file_colors_twice counts : forall first,
  file_colors first ((fun n => n * 2) <$> counts) = twice (file_colors first counts).
Proof.
  induction counts as [|n later IH]; intros first; [done |]. simpl.
  rewrite twice_app, twice_replicate, IH. f_equal. f_equal. lia.
Qed.

Lemma uf_stream_plain counts :
  uf_calls (length (file_colors 0 counts)) (uf_make counts false)
  = Ret (file_colors 0 counts).
Proof.
  pose proof (uf_make_pending counts false) as Hp. rewrite list_fmap_id in Hp.
  rewrite <- Hp. by apply uf_calls_pending.
Qed.

Lemma uf_stream_rc counts :
  uf_calls (length (twice (file_colors 0 counts))) (uf_make counts true)
  = Ret (twice (file_colors 0 counts)).
Proof.
  pose proof (uf_make_pending counts true) as Hp.
  rewrite file_colors_twice in Hp.
  rewrite <- Hp. by apply uf_calls_pending.
Qed.

(** Claim C9. With reverse complements enabled, calls [2n] and [2n+1] of
    [Unique_For_Each_Sequence_Color_Stream::next] both return [n],
    [Colorfile_Stream] returns every color of the color files twice in a row,
    and [Unique_For_Each_File_Color_Stream] returns the color of every
    sequence twice in a row; with reverse complements disabled, call [n] of
    the first returns [n] and the other two return every color once. *)
Theorem color_streams_reverse_complements :
  (forall n : nat,
     call (2 * n) (make true) = Z.of_nat n /\ call (2 * n + 1) (make true) = Z.of_nat n)
  /\ (forall n : nat, call n (make false) = Z.of_nat n)
  /\ (forall f fs,
        cf_stream (f :: fs) true (2 * length (concat (f :: fs)))
        = Ret (twice (concat (f :: fs))))
  /\ (forall f fs,
        cf_stream (f :: fs) false (length (concat (f :: fs))) = Ret (concat (f :: fs)))
  /\ (forall counts,
        uf_calls (length (twice (file_colors 0 counts))) (uf_make counts true)
        = Ret (twice (file_colors 0 counts)))
  /\ (forall counts,
        uf_calls (length (file_colors 0 counts)) (uf_make counts false)
        = Ret (file_colors 0 counts)).
Proof.
  split; [| split; [| split; [| split; [| split]]]].
  - intros n. unfold call, make. rewrite after_add, !after_pair. simpl. lia.
  - intros n. unfold call.
    destruct (after_single n (make false)) as [H1 H2]; [done |].
    unfold next; simpl. rewrite H2. simpl. lia.
  - intros f fs. unfold cf_stream; simpl.
    by apply cf_calls_rc.
  - intros f fs. unfold cf_stream; simpl.
    by apply cf_calls_plain.
  - apply uf_stream_rc.
  - apply uf_stream_plain.
Qed.

End Color_Stream_Facts.

(** ** The concatenated storage *)

Section Storage_Facts.
Import Layout.
Context {libm : Libm}.

Lemma at_index_nat {A} (v : list A) (i : nat) : at_index v (Z.of_nat i) = v !! i.
Proof. unfold at_index. rewrite decide_True by lia. by rewrite Nat2Z.id. Qed.

Lemma at_index_Some {A} (v : list A) (i : Z) a :
  at_index v i = Some a <-> 0 <= i /\ v !! Z.to_nat i = Some a.
Proof.
  unfold at_index. destruct (decide (0 <= i)); split; try done.
  - by intros [_ ?].
  - by intros [? _].
Qed.

Lemma foldl_max_le x v : x <= foldl Z.max x v.
Proof. revert x; induction v as [|y v IH]; intros x; simpl; [lia |]. etrans; [| apply IH]. lia. Qed.

Lemma foldl_max_mono x y v : x <= y -> foldl Z.max x v <= foldl Z.max y v.
Proof. revert x y; induction v as [|z v IH]; intros x y H; simpl; [done |]. apply IH. lia. Qed.

Lemma largest_ge set c : c ∈ set -> c <= largest set.
Proof.
  destruct set as [|x v]; [by intros ?%elem_of_nil |]. simpl.
  revert x. induction v as [|y v IH]; intros x Hin.
  - apply list_elem_of_singleton in Hin. simpl. lia.
  - simpl. apply elem_of_cons in Hin as [-> | Hin].
    + etrans; [| apply foldl_max_le]. lia.
    + apply elem_of_cons in Hin as [-> | Hin].
      * etrans; [| apply foldl_max_le]. lia.
      * etrans; [apply (IH y); by right |]. apply foldl_max_mono. lia.
Qed.

Lemma largest_in set : set <> [] -> largest set ∈ set.
Proof.
  destruct set as [|x v]; [done |]. intros _. simpl.
  revert x. induction v as [|y v IH]; intros x; simpl; [by left |].
  destruct (Z.max_spec x y) as [[_ ->] | [_ ->]].
  - right. apply IH.
  - specialize (IH x). apply elem_of_cons in IH as [-> | IH]; [by left | by do 2 right].
Qed.

Lemma max_element_largest set : set <> [] -> max_element set = Ret (largest set).
Proof. by destruct set. Qed.


(** *** Writing vectors *)

Lemma mark_bits_length set : forall bv, length (mark_bits bv set) = length bv.
Proof.
  induction set as [|x set IH]; intros bv; [done |].
  unfold mark_bits in *; simpl. by rewrite IH, length_insert.
Qed.

Lemma mark_bits_lookup set : forall bv (i : nat),
  (i < length bv)%nat ->
  mark_bits bv set !! i
  = Some (bool_decide (i ∈ Z.to_nat <$> set) || default false (bv !! i)).
Proof.
  induction set as [|x set IH]; intros bv i Hi.
  - simpl. by destruct (lookup_lt_is_Some_2 bv i Hi) as [b ->].
  - unfold mark_bits in *. simpl. rewrite IH by by rewrite length_insert.
    f_equal. destruct (decide (i = Z.to_nat x)) as [-> | Hne].
    + rewrite list_lookup_insert_eq by done. simpl.
      rewrite (bool_decide_true (_ ∈ _ :: _)) by by left. by rewrite orb_true_r.
    + rewrite list_lookup_insert_ne by done.
      f_equal. apply bool_decide_ext. rewrite elem_of_cons.
      split; [by right | by intros [? | ?]].
Qed.

Lemma set_bits_spec set : forall bv,
  Forall (fun x => 0 <= x < Z.of_nat (length bv)) set ->
  Hybrid.set_bits bv set = Ret (mark_bits bv set).
Proof.
  induction set as [|x set IH]; intros bv Hall; [done |].
  apply Forall_cons in Hall as [Hx Hall]. simpl.
  unfold sdsl.set_bit. rewrite decide_True by done. simpl.
  apply IH. eapply Forall_impl; [done |]. intros y; simpl. by rewrite length_insert.
Qed.

Lemma bitmap_of_length set :
  0 <= largest set -> Z.of_nat (length (bitmap_of set)) = largest set + 1.
Proof. intros H. unfold bitmap_of. rewrite mark_bits_length, length_replicate. lia. Qed.

Lemma bitmap_of_lookup set c :
  Forall (fun c => 0 <= c) set -> 0 <= c <= largest set ->
  bitmap_of set !! Z.to_nat c = Some (bool_decide (c ∈ set)).
Proof.
  intros Hall Hc. unfold bitmap_of.
  rewrite mark_bits_lookup by (rewrite length_replicate; lia).
  rewrite lookup_replicate_2 by lia. simpl. rewrite orb_false_r. f_equal.
  apply bool_decide_ext. rewrite list_elem_of_fmap. split.
  - intros (y & Heq & Hy). rewrite Forall_forall in Hall. specialize (Hall y Hy).
    assert (c = y) as -> by lia. done.
  - intros Hin. by exists c.
Qed.

Lemma set_bits_bitmap_of set :
  valid_colors set ->
  Hybrid.set_bits (replicate (Z.to_nat (largest set + 1)) false) set = Ret (bitmap_of set).
Proof.
  intros [Hne Hall]. apply set_bits_spec. rewrite length_replicate.
  rewrite Forall_forall in Hall |- *. intros x Hx.
  pose proof (largest_ge set x Hx). specialize (Hall x Hx). lia.
Qed.

Lemma assign_spec v : forall iv (i : nat) pre mid post,
  sdsl.elements iv = pre ++ mid ++ post ->
  length pre = i -> length mid = length v ->
  sdsl.assign iv (Z.of_nat i) v
  = Ret {| sdsl.width := sdsl.width iv;
           sdsl.elements := pre ++ ((fun x => x `mod` 2 ^ sdsl.width iv) <$> v) ++ post |}.
Proof.
  induction v as [|x v IH]; intros iv i pre mid post Hel Hpre Hmid.
  - destruct mid; [| done]. simpl in *. destruct iv; simpl in *. by subst.
  - destruct mid as [|m mid]; [done |]. simpl.
    unfold sdsl.set, sdsl.size. rewrite Hel, !length_app. simpl.
    rewrite decide_True by lia. simpl.
    replace (Z.of_nat i + 1) with (Z.of_nat (S i)) by lia.
    rewrite (IH _ (S i) (pre ++ [x `mod` 2 ^ sdsl.width iv]) mid post); simpl.
    + by rewrite <- app_assoc.
    + rewrite Nat2Z.id, <- Hpre.
      rewrite insert_app_r_alt by lia. rewrite Nat.sub_diag. simpl.
      by rewrite <- app_assoc.
    + rewrite length_app. simpl. lia.
    + simpl in Hmid. lia.
Qed.


Lemma bit_width_bound x : 0 <= x -> x < 2 ^ bit_width x.
Proof.
  intros Hx. unfold bit_width. destruct (decide (x = 0)) as [-> | Hne]; [done |].
  pose proof (Z.log2_spec x ltac:(lia)) as [_ H].
  by replace (Z.log2 x + 1) with (Z.succ (Z.log2 x)) by lia.
Qed.

Lemma bit_width_nonneg x : 0 <= bit_width x.
Proof.
  unfold bit_width. destruct (decide (x = 0)); [done |].
  pose proof (Z.log2_nonneg x). lia.
Qed.

Lemma bits_needed_bound x m :
  0 <= x <= m -> m < 2 ^ 64 -> x < 2 ^ Color_Set_Storage.bits_needed m.
Proof.
  intros Hx Hm. unfold Color_Set_Storage.bits_needed, to_uint64.
  rewrite Z.mod_small by lia.
  pose proof (bit_width_bound m ltac:(lia)). pose proof (bit_width_nonneg m).
  assert (2 ^ bit_width m <= 2 ^ (bit_width m `max` 1)); [| lia].
  apply Z.pow_le_mono_r; lia.
Qed.

Lemma to_sdsl_int_vector_spec v :
  Forall (fun x => 0 <= x < 2 ^ 64) v ->
  exists w, Color_Set_Storage.to_sdsl_int_vector v
            = Ret {| sdsl.width := w; sdsl.elements := v |}.
Proof.
  intros Hall. unfold Color_Set_Storage.to_sdsl_int_vector.
  destruct (decide (length v = 0%nat)) as [Hlen | Hlen].
  - exists 64. destruct v; [done | done].
  - assert (v <> []) as Hne by by intros ->.
    rewrite max_element_largest by done. simpl.
    exists (Color_Set_Storage.bits_needed (largest v)).
    rewrite (assign_spec v _ 0 []
               (replicate (length v) (0 `mod` 2 ^ Color_Set_Storage.bits_needed (largest v))) []);
      simpl; [| by rewrite Nat2Z.id, app_nil_r | done | by rewrite length_replicate].
    f_equal. f_equal. rewrite app_nil_r.
    rewrite <- (list_fmap_id v) at 2. apply Forall_fmap_ext_1.
    rewrite Forall_forall in Hall |- *. intros x Hx. simpl.
    apply Z.mod_small. split; [apply Hall, Hx |].
    apply bits_needed_bound.
    + split; [apply Hall, Hx | by apply largest_ge].
    + apply Hall, largest_in, Hne.
Qed.

(** *** The layout of the buffers *)

Lemma offsets_app {A} (c1 c2 : list (list A)) base :
  offsets base (c1 ++ c2)
  = offsets base c1 ++ offsets (base + Z.of_nat (length (concat c1))) c2.
Proof.
  revert base; induction c1 as [|c c1 IH]; intros base; simpl.
  - f_equal. lia.
  - rewrite IH, length_app. do 3 f_equal. lia.
Qed.

Lemma offsets_length {A} (chunks : list (list A)) base :
  length (offsets base chunks) = length chunks.
Proof. revert base; induction chunks; intros; simpl; [done | by f_equal]. Qed.

Lemma starts_lookup {A} (chunks : list (list A)) (j : nat) :
  (j <= length chunks)%nat ->
  starts chunks !! j = Some (Z.of_nat (length (concat (take j chunks)))).
Proof.
  intros Hj. unfold starts.
  rewrite <- (take_drop j chunks) at 1 2. rewrite offsets_app.
  assert (length (offsets 0 (take j chunks)) = j) as Hlen
    by (rewrite offsets_length, length_take; lia).
  rewrite <- app_assoc, lookup_app_r by lia. rewrite Hlen, Nat.sub_diag.
  destruct (drop j chunks) as [|c rest] eqn:Hd; simpl.
  - by rewrite app_nil_r.
  - done.
Qed.

Lemma starts_length {A} (chunks : list (list A)) :
  length (starts chunks) = S (length chunks).
Proof. unfold starts. rewrite length_app, offsets_length. simpl. lia. Qed.

Lemma concat_take_S {A} (chunks : list (list A)) (j : nat) c :
  chunks !! j = Some c -> concat (take (S j) chunks) = concat (take j chunks) ++ c.
Proof.
  intros H. rewrite (take_S_r _ _ _ H), concat_app. simpl. by rewrite app_nil_r.
Qed.

(** Element [k] of chunk [j] sits at offset [starts !! j + k] of the concatenation. *)
Lemma concat_lookup_chunk {A} (chunks : list (list A)) (j k : nat) c :
  chunks !! j = Some c -> (k < length c)%nat ->
  concat chunks !! (length (concat (take j chunks)) + k)%nat = c !! k.
Proof.
  intros Hj Hk.
  assert (concat chunks = concat (take j chunks) ++ c ++ concat (drop (S j) chunks)) as ->.
  { rewrite <- (take_drop_middle _ _ _ Hj) at 1. by rewrite concat_app. }
  rewrite lookup_app_r by lia.
  replace (length (concat (take j chunks)) + k - length (concat (take j chunks)))%nat
    with k by lia.
  simpl. by rewrite lookup_app_l.
Qed.


Lemma bitmaps_cons set sets :
  bitmaps (set :: sets) = if is_dense set then bitmap_of set :: bitmaps sets else bitmaps sets.
Proof.
  unfold bitmaps. rewrite filter_cons.
  destruct (is_dense set); [by rewrite decide_True | by rewrite decide_False].
Qed.

Lemma arrays_cons set sets :
  arrays (set :: sets) = if is_dense set then arrays sets else set :: arrays sets.
Proof.
  unfold arrays. rewrite filter_cons.
  destruct (is_dense set); [by rewrite decide_False | by rewrite decide_True].
Qed.

Lemma add_sets_spec sets : forall st,
  Forall valid_colors sets ->
  exists st', Color_Set_Storage.add_sets st sets = Ret st'
    /\ Color_Set_Storage.temp_is_bitmap_marks st'
       = Color_Set_Storage.temp_is_bitmap_marks st ++ (is_dense <$> sets)
    /\ Color_Set_Storage.temp_bitmap_concat st'
       = Color_Set_Storage.temp_bitmap_concat st ++ concat (bitmaps sets)
    /\ Color_Set_Storage.temp_bitmap_starts st'
       = Color_Set_Storage.temp_bitmap_starts st
         ++ offsets (Z.of_nat (length (Color_Set_Storage.temp_bitmap_concat st))) (bitmaps sets)
    /\ Color_Set_Storage.temp_arrays_concat st'
       = Color_Set_Storage.temp_arrays_concat st ++ concat (arrays sets)
    /\ Color_Set_Storage.temp_arrays_starts st'
       = Color_Set_Storage.temp_arrays_starts st
         ++ offsets (Z.of_nat (length (Color_Set_Storage.temp_arrays_concat st))) (arrays sets).
Proof.
  induction sets as [|set sets IH]; intros st Hall.
  - exists st. simpl. by rewrite !app_nil_r.
  - apply Forall_cons in Hall as [Hset Hall]. simpl.
    unfold Color_Set_Storage.add_set.
    rewrite max_element_largest by apply Hset. simpl.
    rewrite bitmaps_cons, arrays_cons. fold (is_dense set).
    destruct (is_dense set) eqn:Hd.
    + rewrite set_bits_bitmap_of by done. simpl.
      match goal with
      | |- context [Color_Set_Storage.add_sets ?s sets] =>
          destruct (IH s Hall) as (st' & -> & Hm & Hbc & Hbs & Hac & Has)
      end. simpl in *.
      exists st'. rewrite Hm, Hbc, Hbs, Hac, Has, length_app, Nat2Z.inj_add.
      by rewrite <- !app_assoc.
    + simpl.
      match goal with
      | |- context [Color_Set_Storage.add_sets ?s sets] =>
          destruct (IH s Hall) as (st' & -> & Hm & Hbc & Hbs & Hac & Has)
      end. simpl in *.
      exists st'. rewrite Hm, Hbc, Hbs, Hac, Has, length_app, Nat2Z.inj_add.
      by rewrite <- !app_assoc.
Qed.

Lemma starts_bound {A} (chunks : list (list A)) :
  Forall (fun x => 0 <= x <= Z.of_nat (length (concat chunks))) (starts chunks).
Proof.
  apply Forall_lookup. intros j x Hx.
  assert (j <= length chunks)%nat as Hj.
  { apply lookup_lt_Some in Hx. rewrite starts_length in Hx. lia. }
  rewrite starts_lookup in Hx by done. injection Hx as <-.
  assert (length (concat chunks)
          = (length (concat (take j chunks)) + length (concat (drop j chunks)))%nat) as ->
    by by rewrite <- length_app, <- concat_app, take_drop.
  lia.
Qed.

Lemma arrays_colors sets :
  Forall valid_colors sets -> Forall (fun c => 0 <= c < 2 ^ 63) (concat (arrays sets)).
Proof.
  intros Hall. apply Forall_forall. intros c Hc.
  apply list_elem_of_In, in_concat in Hc as (set & Hset%list_elem_of_In & Hc%list_elem_of_In).
  apply list_elem_of_filter in Hset as [_ Hset].
  rewrite Forall_forall in Hall. destruct (Hall set Hset) as [_ Hcs].
  rewrite Forall_forall in Hcs. by apply Hcs.
Qed.

(** What a storage built from [sets] holds. *)
Lemma build_spec sets :
  Forall valid_colors sets -> fits sets ->
  exists st wb wc wa,
    Color_Set_Storage.build sets = Ret st
    /\ Color_Set_Storage.bitmap_concat st = concat (bitmaps sets)
    /\ Color_Set_Storage.bitmap_starts st
       = {| sdsl.width := wb; sdsl.elements := starts (bitmaps sets) |}
    /\ Color_Set_Storage.arrays_concat st
       = {| sdsl.width := wc; sdsl.elements := concat (arrays sets) |}
    /\ Color_Set_Storage.arrays_starts st
       = {| sdsl.width := wa; sdsl.elements := starts (arrays sets) |}
    /\ Color_Set_Storage.is_bitmap_marks st = is_dense <$> sets
    /\ Color_Set_Storage.is_bitmap_marks_rs st = sdsl.init_support (is_dense <$> sets).
Proof.
  intros Hall [Hfb Hfa]. unfold Color_Set_Storage.build.
  destruct (add_sets_spec sets Color_Set_Storage.empty Hall)
    as (st' & -> & Hm & Hbc & Hbs & Hac & Has).
  simpl in *. unfold Color_Set_Storage.prepare_for_queries. cbv zeta.
  rewrite Hm, Hbc, Hbs, Hac, Has. change (Z.of_nat 0) with 0.
  fold (starts (bitmaps sets)). fold (starts (arrays sets)).
  destruct (to_sdsl_int_vector_spec (concat (arrays sets))) as [wc ->].
  { eapply Forall_impl; [by apply arrays_colors |]. simpl. lia. }
  destruct (to_sdsl_int_vector_spec (starts (bitmaps sets))) as [wb ->].
  { eapply Forall_impl; [by apply starts_bound |]. simpl. lia. }
  destruct (to_sdsl_int_vector_spec (starts (arrays sets))) as [wa ->].
  { eapply Forall_impl; [by apply starts_bound |]. simpl. lia. }
  simpl. by eexists _, wb, wc, wa.
Qed.


(** *** Ranks *)

Lemma popcount_fmap {A} (P : A -> bool) (l : list A) :
  sdsl.popcount (P <$> l) = Z.of_nat (length (filter (fun x => P x = true) l)).
Proof.
  unfold sdsl.popcount. f_equal. induction l as [|x l IH]; [done |].
  rewrite fmap_cons, !filter_cons. destruct (P x).
  - rewrite !decide_True by done. simpl. by f_equal.
  - by rewrite !decide_False by done.
Qed.

Lemma filter_complement_length {A} (P : A -> bool) (l : list A) :
  (length (filter (fun x => P x = true) l) + length (filter (fun x => P x = false) l))%nat
  = length l.
Proof.
  induction l as [|x l IH]; [done |]. rewrite !filter_cons. destruct (P x).
  - rewrite decide_True, decide_False by done. simpl. lia.
  - rewrite decide_False, decide_True by done. simpl. lia.
Qed.

Lemma filter_lookup_rank {A} (P : A -> Prop) `{forall x, Decision (P x)} (l : list A) i x :
  l !! i = Some x -> P x -> filter P l !! length (filter P (take i l)) = Some x.
Proof.
  intros Hi HP.
  assert (filter P l = filter P (take i l) ++ x :: filter P (drop (S i) l)) as ->.
  { rewrite <- (take_drop_middle _ _ _ Hi) at 1.
    by rewrite filter_app, filter_cons, decide_True by done. }
  rewrite lookup_app_r by lia. by rewrite Nat.sub_diag.
Qed.

Lemma rank_init_support (marks : list bool) (id : nat) :
  (id <= length marks)%nat ->
  sdsl.rank (sdsl.init_support marks) (Z.of_nat id)
  = Ret (sdsl.popcount (take id marks)).
Proof.
  intros H. unfold sdsl.rank, sdsl.init_support. simpl.
  rewrite decide_True by lia. by rewrite Nat2Z.id.
Qed.

(** *** Views into a built storage *)

Lemma get_starts {A} w (chunks : list (list A)) (j : nat) :
  (j <= length chunks)%nat ->
  sdsl.get {| sdsl.width := w; sdsl.elements := starts chunks |} (Z.of_nat j)
  = Ret (Z.of_nat (length (concat (take j chunks)))).
Proof.
  intros Hj. unfold sdsl.get. simpl. by rewrite at_index_nat, starts_lookup.
Qed.

Lemma concat_take_le {A} (chunks : list (list A)) (i j : nat) :
  (i <= j)%nat -> (length (concat (take i chunks)) <= length (concat (take j chunks)))%nat.
Proof.
  intros Hij. replace j with (i + (j - i))%nat by lia.
  rewrite <- take_take_drop, concat_app, length_app. lia.
Qed.

Lemma to_int64_small v : 0 <= v < 2 ^ 63 -> to_int64 v = v.
Proof. intros H. unfold to_int64. by rewrite decide_True by lia. Qed.

Lemma get_int64_starts {A} w (chunks : list (list A)) (j : nat) :
  (j <= length chunks)%nat ->
  Z.of_nat (length (concat chunks)) < 2 ^ 63 ->
  sdsl.get_int64 {| sdsl.width := w; sdsl.elements := starts chunks |} (Z.of_nat j)
  = Ret (Z.of_nat (length (concat (take j chunks)))).
Proof.
  intros Hj Hfit. unfold sdsl.get_int64. rewrite get_starts by done. simpl.
  rewrite to_int64_small; [done |].
  pose proof (concat_take_le chunks j (length chunks) Hj) as Hle.
  rewrite firstn_all in Hle. lia.
Qed.

Lemma get_color_set_by_id_built sets st (id : nat) set :
  Forall valid_colors sets -> fits sets ->
  Color_Set_Storage.build sets = Ret st ->
  sets !! id = Some set ->
  let r := length (filter (fun set => is_dense set = true) (take id sets)) in
  sdsl.popcount (take id (Color_Set_Storage.is_bitmap_marks st)) = Z.of_nat r
  /\ sdsl.bit (Color_Set_Storage.is_bitmap_marks st) (Z.of_nat id) = Ret (is_dense set)
  /\ if is_dense set then
       bitmaps sets !! r = Some (bitmap_of set)
       /\ Color_Set_Storage.get_color_set_by_id st (Z.of_nat id)
          = Ret (chunk_view (Hybrid.Bitmap (Color_Set_Storage.bitmap_concat st)) (bitmaps sets) r)
     else
       arrays sets !! (id - r)%nat = Some set
       /\ Color_Set_Storage.get_color_set_by_id st (Z.of_nat id)
          = Ret (chunk_view (Hybrid.Array (Color_Set_Storage.arrays_concat st))
                            (arrays sets) (id - r)).
Proof.
  intros Hall Hfits Hbuild Hid r.
  destruct (build_spec sets Hall Hfits)
    as (st0 & wb & wc & wa & Hb & Hbc & Hbs & Hac & Has & Hm & Hrs).
  rewrite Hbuild in Hb. injection Hb as <-.
  assert (id < length sets)%nat as Hlt by by eapply lookup_lt_Some.
  assert (sdsl.popcount (take id (Color_Set_Storage.is_bitmap_marks st)) = Z.of_nat r) as Hpop.
  { rewrite Hm, <- fmap_take. apply popcount_fmap. }
  assert (sdsl.bit (Color_Set_Storage.is_bitmap_marks st) (Z.of_nat id) = Ret (is_dense set))
    as Hbit.
  { unfold sdsl.bit. rewrite at_index_nat, Hm, list_lookup_fmap, Hid. done. }
  split; [done |]. split; [done |].
  assert (sdsl.rank (Color_Set_Storage.is_bitmap_marks_rs st) (Z.of_nat id) = Ret (Z.of_nat r))
    as Hrank.
  { rewrite Hrs, rank_init_support by (rewrite length_fmap; lia).
    rewrite <- Hm. by rewrite Hpop. }
  pose proof (filter_complement_length is_dense (take id sets)) as Hcompl.
  rewrite length_take in Hcompl. fold r in Hcompl.
  unfold Color_Set_Storage.get_color_set_by_id. rewrite Hbit. simpl.
  destruct (is_dense set) eqn:Hd.
  - assert (bitmaps sets !! r = Some (bitmap_of set)) as Hchunk.
    { unfold bitmaps, r. rewrite list_lookup_fmap.
      by rewrite (filter_lookup_rank _ _ _ _ Hid Hd). }
    split; [done |]. rewrite Hrank. simpl. rewrite Hbs.
    pose proof (lookup_lt_Some _ _ _ Hchunk) as Hr.
    rewrite get_int64_starts by (lia || apply Hfits). simpl.
    replace (Z.of_nat r + 1) with (Z.of_nat (S r)) by lia.
    rewrite get_int64_starts by (lia || apply Hfits). done.
  - assert (arrays sets !! (id - r)%nat = Some set) as Hchunk.
    { unfold arrays.
      replace (id - r)%nat
        with (length (filter (fun set => is_dense set = false) (take id sets))) by lia.
      by apply filter_lookup_rank. }
    split; [done |]. rewrite Hrank. simpl. rewrite Has.
    pose proof (lookup_lt_Some _ _ _ Hchunk) as Hr.
    replace (Z.of_nat id - Z.of_nat r) with (Z.of_nat (id - r)) by lia.
    rewrite get_int64_starts by (lia || apply Hfits). simpl.
    replace (Z.of_nat (id - r) + 1) with (Z.of_nat (S (id - r))) by lia.
    rewrite get_int64_starts by (lia || apply Hfits). done.
Qed.


Lemma chunk_view_length {A} data (chunks : list (list A)) (j : nat) c :
  chunks !! j = Some c -> Hybrid.length (chunk_view data chunks j) = Z.of_nat (length c).
Proof.
  intros H. unfold chunk_view; simpl. rewrite (concat_take_S _ _ _ H), length_app. lia.
Qed.

Lemma contains_bitmap_chunk (chunks : list (list bool)) (j : nat) chunk c :
  chunks !! j = Some chunk -> 0 <= c ->
  Hybrid.colorset_contains (chunk_view (Hybrid.Bitmap (concat chunks)) chunks j) c
  = Ret (default false (chunk !! Z.to_nat c)).
Proof.
  intros Hj Hc. unfold Hybrid.colorset_contains. simpl Hybrid.colorset_is_bitmap. cbv iota.
  rewrite (chunk_view_length _ _ _ _ Hj).
  destruct (decide (c >= Z.of_nat (length chunk))) as [Hge | Hlt].
  - rewrite lookup_ge_None_2 by lia. done.
  - unfold Hybrid.colorset_access_bitmap, sdsl.bit. simpl.
    replace (Z.of_nat (length (concat (take j chunks))) + c)
      with (Z.of_nat (length (concat (take j chunks)) + Z.to_nat c)) by lia.
    rewrite at_index_nat, (concat_lookup_chunk _ _ _ _ Hj) by lia.
    destruct (lookup_lt_is_Some_2 chunk (Z.to_nat c)) as [b ->]; [lia | done].
Qed.

Lemma scan_chunk w (chunks : list (list Z)) (j : nat) chunk color :
  chunks !! j = Some chunk -> Forall (fun c => 0 <= c < 2 ^ 63) chunk ->
  forall (fuel i : nat), (i + fuel = length chunk)%nat ->
  Hybrid.scan (chunk_view (Hybrid.Array {| sdsl.width := w; sdsl.elements := concat chunks |})
                          chunks j) color (Z.of_nat i) fuel
  = Ret (bool_decide (color ∈ drop i chunk)).
Proof.
  intros Hj Hall. induction fuel as [|fuel IH]; intros i Hi.
  - simpl. rewrite drop_ge by lia. rewrite bool_decide_false; [done |]. by intros ?%elem_of_nil.
  - simpl. unfold Hybrid.colorset_access_array, sdsl.get_int64, sdsl.get. simpl.
    replace (Z.of_nat (length (concat (take j chunks))) + Z.of_nat i)
      with (Z.of_nat (length (concat (take j chunks)) + i)) by lia.
    rewrite at_index_nat, (concat_lookup_chunk _ _ _ _ Hj) by lia.
    destruct (lookup_lt_is_Some_2 chunk i) as [x Hx]; [lia |]. rewrite Hx. simpl.
    rewrite to_int64_small by (rewrite Forall_lookup in Hall; by eapply Hall).
    rewrite (drop_S _ _ _ Hx).
    destruct (decide (x = color)) as [-> | Hne].
    + rewrite bool_decide_true; [done | by left].
    + replace (Z.of_nat i + 1) with (Z.of_nat (S i)) by lia. rewrite IH by lia.
      f_equal. apply bool_decide_ext. rewrite elem_of_cons.
      split; [by right | by intros [? | ?]].
Qed.

Lemma contains_array_chunk w (chunks : list (list Z)) (j : nat) chunk color :
  chunks !! j = Some chunk -> Forall (fun c => 0 <= c < 2 ^ 63) chunk ->
  Hybrid.colorset_contains
    (chunk_view (Hybrid.Array {| sdsl.width := w; sdsl.elements := concat chunks |}) chunks j)
    color
  = Ret (bool_decide (color ∈ chunk)).
Proof.
  intros Hj Hall. unfold Hybrid.colorset_contains. simpl Hybrid.colorset_is_bitmap. cbv iota.
  rewrite (chunk_view_length _ _ _ _ Hj), Nat2Z.id.
  change 0 with (Z.of_nat 0).
  by rewrite (scan_chunk w chunks j chunk color Hj Hall (length chunk) 0%nat).
Qed.


Lemma largest_nonneg set : valid_colors set -> 0 <= largest set.
Proof.
  intros [Hne Hall]. rewrite Forall_forall in Hall.
  by apply (Hall (largest set)), largest_in.
Qed.

Lemma bitmap_of_lookup_default set c :
  valid_colors set -> 0 <= c ->
  default false (bitmap_of set !! Z.to_nat c) = bool_decide (c ∈ set).
Proof.
  intros Hv Hc. pose proof (largest_nonneg set Hv) as Hl.
  destruct (decide (c <= largest set)) as [Hle | Hgt].
  - rewrite bitmap_of_lookup; [done | | lia].
    destruct Hv as [_ Hall]. eapply Forall_impl; [done |]. simpl. lia.
  - rewrite lookup_ge_None_2.
    + simpl. rewrite bool_decide_false; [done |]. intros Hin%largest_ge. lia.
    + pose proof (bitmap_of_length set Hl). lia.
Qed.

(** Claim C1 (storage round-trip). For color vectors [sets] passed to
    [add_set] in order and followed by [prepare_for_queries], the view
    [get_color_set_by_id(i)] contains a color [c] exactly when [c] is an
    element of vector [i]. The vectors are not empty, their colors are
    non-negative [int64_t] values, and the two concatenations are shorter than
    [2^63]. *)
Theorem storage_round_trip sets :
  Forall valid_colors sets -> fits sets ->
  exists st, Color_Set_Storage.build sets = Ret st
    /\ forall (i : nat) set c, sets !! i = Some set -> 0 <= c ->
         exists view b,
           Color_Set_Storage.get_color_set_by_id st (Z.of_nat i) = Ret view
           /\ Hybrid.colorset_contains view c = Ret b
           /\ (b = true <-> c ∈ set).
Proof.
  intros Hall Hfits.
  destruct (build_spec sets Hall Hfits)
    as (st & wb & wc & wa & Hb & Hbc & Hbs & Hac & Has & Hm & Hrs).
  exists st. split; [done |]. intros i set c Hi Hc.
  assert (valid_colors set) as Hv.
  { rewrite Forall_lookup in Hall. by eapply Hall. }
  destruct (get_color_set_by_id_built sets st i set Hall Hfits Hb Hi) as (_ & _ & Hget).
  destruct (is_dense set).
  - destruct Hget as [Hchunk ->]. eexists _, _. split; [done |].
    rewrite Hbc, (contains_bitmap_chunk _ _ _ _ Hchunk Hc).
    split; [done |]. rewrite bitmap_of_lookup_default by done. apply bool_decide_eq_true.
  - destruct Hget as [Hchunk ->]. eexists _, _. split; [done |].
    rewrite Hac, (contains_array_chunk _ _ _ _ _ Hchunk) by apply Hv.
    split; [done |]. apply bool_decide_eq_true.
Qed.

(** Claim C7 (lookup). In a prepared storage, for a stored set [id] with
    [rank1] set bits before position [id] of [is_bitmap_marks]: if bit [id] is
    set, [get_color_set_by_id(id)] is the view of [bitmap_concat] that starts
    at [bitmap_starts[rank1]] and ends before [bitmap_starts[rank1 + 1]];
    otherwise it is the view of [arrays_concat] between
    [arrays_starts[id - rank1]] and [arrays_starts[id - rank1 + 1]]. *)
Theorem get_color_set_by_id_span sets st id :
  Forall valid_colors sets -> fits sets ->
  Color_Set_Storage.build sets = Ret st ->
  0 <= id < Color_Set_Storage.number_of_sets_stored st ->
  let rank1 := sdsl.popcount (take (Z.to_nat id) (Color_Set_Storage.is_bitmap_marks st)) in
  exists mark,
    sdsl.bit (Color_Set_Storage.is_bitmap_marks st) id = Ret mark
    /\ if mark : bool then
         exists s e,
           sdsl.get (Color_Set_Storage.bitmap_starts st) rank1 = Ret s
           /\ sdsl.get (Color_Set_Storage.bitmap_starts st) (rank1 + 1) = Ret e
           /\ Color_Set_Storage.get_color_set_by_id st id
              = Ret {| Hybrid.data_ptr := Hybrid.Bitmap (Color_Set_Storage.bitmap_concat st);
                       Hybrid.start := s; Hybrid.length := e - s |}
       else
         exists s e,
           sdsl.get (Color_Set_Storage.arrays_starts st) (id - rank1) = Ret s
           /\ sdsl.get (Color_Set_Storage.arrays_starts st) (id - rank1 + 1) = Ret e
           /\ Color_Set_Storage.get_color_set_by_id st id
              = Ret {| Hybrid.data_ptr := Hybrid.Array (Color_Set_Storage.arrays_concat st);
                       Hybrid.start := s; Hybrid.length := e - s |}.
Proof.
  intros Hall Hfits Hb Hid rank1.
  destruct (build_spec sets Hall Hfits)
    as (st0 & wb & wc & wa & Hb0 & Hbc & Hbs & Hac & Has & Hm & Hrs).
  rewrite Hb in Hb0. injection Hb0 as <-.
  unfold Color_Set_Storage.number_of_sets_stored in Hid.
  rewrite Hm, length_fmap in Hid.
  destruct (lookup_lt_is_Some_2 sets (Z.to_nat id)) as [set Hset]; [lia |].
  destruct (get_color_set_by_id_built sets st _ set Hall Hfits Hb Hset) as (Hpop & Hbit & Hget).
  rewrite Z2Nat.id in Hbit, Hget by lia.
  fold rank1 in Hpop. exists (is_dense set). split; [done |].
  assert (Z.to_nat id - length (filter (fun set => is_dense set = true) (take (Z.to_nat id) sets))
          = Z.to_nat (id - rank1))%nat as Hsub by lia.
  pose proof (filter_complement_length is_dense (take (Z.to_nat id) sets)) as Hcompl.
  rewrite length_take in Hcompl.
  destruct (is_dense set); destruct Hget as [Hchunk ->];
    pose proof (lookup_lt_Some _ _ _ Hchunk) as Hlt; eexists _, _.
  - rewrite Hbs, Hpop.
    replace (Z.of_nat (length (filter (fun set => is_dense set = true)
                                 (take (Z.to_nat id) sets))) + 1)
      with (Z.of_nat (S (length (filter (fun set => is_dense set = true)
                                   (take (Z.to_nat id) sets))))) by lia.
    rewrite !get_starts by lia. done.
  - rewrite Has.
    replace (id - rank1) with (Z.of_nat (Z.to_nat (id - rank1))) by lia.
    replace (Z.of_nat (Z.to_nat (id - rank1)) + 1)
      with (Z.of_nat (S (Z.to_nat (id - rank1)))) by lia.
    rewrite <- Hsub.
    rewrite !get_starts by lia. done.
Qed.

Lemma starts_strictly_increasing {A} (chunks : list (list A)) :
  Forall (fun c => c <> []) chunks -> strictly_increasing (starts chunks).
Proof.
  intros Hne i j a b Hij Ha Hb.
  assert (j <= length chunks)%nat as Hj.
  { apply lookup_lt_Some in Hb. rewrite starts_length in Hb. lia. }
  rewrite starts_lookup in Ha, Hb by lia. injection Ha as <-. injection Hb as <-.
  destruct (lookup_lt_is_Some_2 chunks i) as [c Hc]; [lia |].
  pose proof (concat_take_le chunks (S i) j ltac:(lia)) as Hle.
  rewrite (concat_take_S _ _ _ Hc), length_app in Hle.
  rewrite Forall_lookup in Hne. specialize (Hne _ _ Hc).
  destruct c; [done |]. simpl in Hle. lia.
Qed.

(** Claim C8 (start arrays). After [add_set] for each vector and
    [prepare_for_queries], [bitmap_starts] and [arrays_starts] are strictly
    increasing and their last entry is the length of the concatenation. *)
Theorem starts_strictly_monotone sets :
  Forall valid_colors sets -> fits sets ->
  exists st, Color_Set_Storage.build sets = Ret st
    /\ strictly_increasing (sdsl.elements (Color_Set_Storage.bitmap_starts st))
    /\ last (sdsl.elements (Color_Set_Storage.bitmap_starts st))
       = Some (Z.of_nat (length (Color_Set_Storage.bitmap_concat st)))
    /\ strictly_increasing (sdsl.elements (Color_Set_Storage.arrays_starts st))
    /\ last (sdsl.elements (Color_Set_Storage.arrays_starts st))
       = Some (sdsl.size (Color_Set_Storage.arrays_concat st)).
Proof.
  intros Hall Hfits.
  destruct (build_spec sets Hall Hfits)
    as (st & wb & wc & wa & Hb & Hbc & Hbs & Hac & Has & Hm & Hrs).
  exists st. split; [done |]. rewrite Hbs, Has, Hbc, Hac. unfold sdsl.size. simpl.
  repeat split.
  - apply starts_strictly_increasing. unfold bitmaps.
    apply Forall_fmap, Forall_forall. intros set [_ Hin]%list_elem_of_filter. simpl.
    rewrite Forall_forall in Hall.
    pose proof (bitmap_of_length set (largest_nonneg set (Hall set Hin))) as Hlen.
    intros Heq. rewrite Heq in Hlen. simpl in Hlen.
    pose proof (largest_nonneg set (Hall set Hin)). lia.
  - unfold starts. apply last_snoc.
  - apply starts_strictly_increasing. unfold arrays.
    apply Forall_forall. intros set [_ Hin]%list_elem_of_filter.
    rewrite Forall_forall in Hall. apply (Hall set Hin).
  - unfold starts. apply last_snoc.
Qed.


Lemma scan_total cs iv color :
  Hybrid.data_ptr cs = Hybrid.Array iv -> 0 <= Hybrid.start cs ->
  forall (fuel : nat) i,
    0 <= i -> Hybrid.start cs + i + Z.of_nat fuel <= sdsl.size iv ->
    exists b, Hybrid.scan cs color i fuel = Ret b.
Proof.
  intros Hd Hs. induction fuel as [|fuel IH]; intros i Hi Hle; [by exists false |].
  simpl. unfold Hybrid.colorset_access_array, sdsl.get_int64, sdsl.get. rewrite Hd.
  unfold sdsl.size in Hle.
  destruct (lookup_lt_is_Some_2 (sdsl.elements iv) (Z.to_nat (Hybrid.start cs + i)))
    as [x Hx]; [lia |].
  unfold at_index. rewrite decide_True by lia. rewrite Hx. simpl.
  destruct (decide (to_int64 x = color)); [by exists true |].
  apply IH; unfold sdsl.size; lia.
Qed.

(** Claim C10. On a bitmap, [contains(c)] for a color [c] at or past the
    bitmap length returns false without reading the bit vector; and for a set
    of either representation whose span lies inside its vector, [contains(c)]
    returns for every non-negative color [c]. *)
Theorem contains_guarded cs c :
  (Hybrid.colorset_is_bitmap cs = true -> c >= Hybrid.length cs ->
   Hybrid.colorset_contains cs c = Ret false)
  /\ (in_bounds cs -> 0 <= c -> exists b, Hybrid.colorset_contains cs c = Ret b).
Proof.
  split.
  - intros Hb Hc. unfold Hybrid.colorset_contains. rewrite Hb. by rewrite decide_True.
  - intros (Hs & Hl & Hsl) Hc. unfold Hybrid.colorset_contains, Hybrid.colorset_is_bitmap.
    destruct (Hybrid.data_ptr cs) as [bv | iv] eqn:Hd.
    + destruct (decide (c >= Hybrid.length cs)); [by exists false |].
      unfold Hybrid.colorset_access_bitmap, sdsl.bit. rewrite Hd. simpl in Hsl.
      destruct (lookup_lt_is_Some_2 bv (Z.to_nat (Hybrid.start cs + c))) as [b Hb]; [lia |].
      unfold at_index. rewrite decide_True by lia. rewrite Hb. by exists b.
    + apply (scan_total cs iv c Hd Hs); simpl in Hsl; lia.
Qed.

(** *** The choice of the representation *)

(** A number that is not negative is converted to a double that is not
    negative. *)
Lemma double_of_int_sign x :
  0 <= x ->
  match double_of_int x with
  | S754_zero s | S754_infinity s | S754_finite s _ _ => s = false
  | S754_nan => True
  end.
Proof.
  intros Hx. unfold double_of_int, binary_normalize.
  destruct x as [|p|p]; [done | | lia].
  unfold binary_round. destruct (shl_align _ _ _) as [mz ez].
  unfold binary_round_aux.
  destruct (shr_fexp _ _ _ _ _) as [mrs' e'].
  destruct (shr_fexp _ _ _ _ _) as [mrs'' e''].
  destruct (shr_m mrs'') as [|q|q]; [done | | done].
  by destruct (e'' <=? 1024 - 53).
Qed.

(** [log2(0)] is minus infinity and [log2(1)] is zero: the product is not
    larger than [max_element]. *)
Lemma dense_small m n : 0 <= m <= 1 -> 0 <= n -> dense m n = false.
Proof.
  intros Hm Hn. pose proof (double_of_int_sign n Hn) as Hsign.
  unfold dense, double_gt, double_mul.
  assert (m = 0 \/ m = 1) as [-> | ->] by lia.
  - change (double_of_int 0) with (S754_zero false). rewrite log2_zero.
    destruct (double_of_int n) as [s | s | | s mn en]; simpl in *; by subst.
  - rewrite log2_one.
    destruct (double_of_int n) as [s | s | | s mn en]; simpl in *; by subst.
Qed.

(** The doubles decide, not the real numbers. For [max_element = 549571682]
    and a set of 18928730 colors the product of the size and the logarithm
    is larger than [max_element] over the real numbers, by less than 1e-8;
    with a C library whose [log2(549571682)] is the double nearest to the
    logarithm, the product of the doubles is [max_element] itself and the
    test is false. *)
Example dense_rounds :
  log2 (double_of_int 549571682) = S754_finite false 8172269158669707 (-48) ->
  double_mul (log2 (double_of_int 549571682)) (double_of_int 18928730)
  = double_of_int 549571682
  /\ dense 549571682 18928730 = false.
Proof.
  intros Hlog2. unfold dense. rewrite Hlog2. split; vm_compute; reflexivity.
Qed.

Lemma Color_Set_of_vector_spec set :
  valid_colors set ->
  exists cs, Hybrid.Color_Set_of_vector set = Ret cs
    /\ Hybrid.colorset_is_bitmap cs = is_dense set.
Proof.
  intros Hv. unfold Hybrid.Color_Set_of_vector.
  rewrite max_element_largest by apply Hv. simpl. fold (is_dense set).
  destruct (is_dense set).
  - rewrite set_bits_bitmap_of by done. simpl. by eexists.
  - rewrite (assign_spec set _ 0 [] (replicate (length set) (0 `mod` 2 ^ 64)) []);
      simpl; [by eexists | by rewrite Nat2Z.id, app_nil_r | done | by rewrite length_replicate].
Qed.

Lemma add_set_mark st set :
  valid_colors set ->
  exists st', Color_Set_Storage.add_set st set = Ret st'
    /\ Color_Set_Storage.temp_is_bitmap_marks st'
       = Color_Set_Storage.temp_is_bitmap_marks st ++ [is_dense set].
Proof.
  intros Hv. destruct (add_sets_spec [set] st) as (st' & Hadd & Hm & _).
  { by constructor. }
  simpl in Hadd. destruct (Color_Set_Storage.add_set st set) as [st'' | |]; [| done | done].
  simpl in Hadd. injection Hadd as ->. by exists st'.
Qed.

(** Claim C2, as the code has it. For a non-empty vector [V] of colors with
    largest element [m], the [Color_Set] built from [V] is a bitmap, and
    [add_set] marks [V] as a bitmap, exactly when the test
    [log2(m) * |V| > m] is true in the arithmetic of doubles: [m] and [|V|]
    converted to [double], the [log2] of the C library, the product rounded.
    It is an array otherwise, in particular whenever [m <= 1]. *)
Theorem representation_choice V :
  valid_colors V ->
  let m := largest V in
  let n := Z.of_nat (length V) in
  (exists cs, Hybrid.Color_Set_of_vector V = Ret cs
     /\ Hybrid.colorset_is_bitmap cs = dense m n)
  /\ (forall st, exists st',
        Color_Set_Storage.add_set st V = Ret st'
        /\ Color_Set_Storage.temp_is_bitmap_marks st'
           = Color_Set_Storage.temp_is_bitmap_marks st ++ [dense m n])
  /\ dense m n
     = double_gt (double_mul (log2 (double_of_int m)) (double_of_int n)) (double_of_int m)
  /\ (m <= 1 -> dense m n = false).
Proof.
  intros Hv m n. split; [| split; [| split]].
  - by apply Color_Set_of_vector_spec.
  - intros st. by apply add_set_mark.
  - reflexivity.
  - intros Hm. apply dense_small; [| lia].
    pose proof (largest_nonneg V Hv). lia.
Qed.

End Storage_Facts.

Section Storage_Witnesses.
Import Layout.
#[local] Existing Instance floor_libm.

Lemma storage_round_trip_witness :
  exists st, Color_Set_Storage.build example_sets = Ret st
    /\ forall (i : nat) set c, example_sets !! i = Some set -> 0 <= c ->
         exists view b,
           Color_Set_Storage.get_color_set_by_id st (Z.of_nat i) = Ret view
           /\ Hybrid.colorset_contains view c = Ret b
           /\ (b = true <-> c ∈ set).
Proof.
  apply (storage_round_trip example_sets).
  - repeat constructor; try done; lia.
  - split; vm_compute; reflexivity.
Defined.

Lemma get_color_set_by_id_span_witness :
  let rank1 := sdsl.popcount (take (Z.to_nat 1) (Color_Set_Storage.is_bitmap_marks example_storage)) in
  exists mark,
    sdsl.bit (Color_Set_Storage.is_bitmap_marks example_storage) 1 = Ret mark
    /\ if mark : bool then
         exists s e,
           sdsl.get (Color_Set_Storage.bitmap_starts example_storage) rank1 = Ret s
           /\ sdsl.get (Color_Set_Storage.bitmap_starts example_storage) (rank1 + 1) = Ret e
           /\ Color_Set_Storage.get_color_set_by_id example_storage 1
              = Ret {| Hybrid.data_ptr :=
                         Hybrid.Bitmap (Color_Set_Storage.bitmap_concat example_storage);
                       Hybrid.start := s; Hybrid.length := e - s |}
       else
         exists s e,
           sdsl.get (Color_Set_Storage.arrays_starts example_storage) (1 - rank1) = Ret s
           /\ sdsl.get (Color_Set_Storage.arrays_starts example_storage) (1 - rank1 + 1) = Ret e
           /\ Color_Set_Storage.get_color_set_by_id example_storage 1
              = Ret {| Hybrid.data_ptr :=
                         Hybrid.Array (Color_Set_Storage.arrays_concat example_storage);
                       Hybrid.start := s; Hybrid.length := e - s |}.
Proof.
  apply (get_color_set_by_id_span example_sets example_storage 1).
  - repeat constructor; try done; lia.
  - split; vm_compute; reflexivity.
  - vm_compute; reflexivity.
  - split; vm_compute; [discriminate | reflexivity].
Defined.

Lemma starts_strictly_monotone_witness :
  exists st, Color_Set_Storage.build example_sets = Ret st
    /\ strictly_increasing (sdsl.elements (Color_Set_Storage.bitmap_starts st))
    /\ last (sdsl.elements (Color_Set_Storage.bitmap_starts st))
       = Some (Z.of_nat (length (Color_Set_Storage.bitmap_concat st)))
    /\ strictly_increasing (sdsl.elements (Color_Set_Storage.arrays_starts st))
    /\ last (sdsl.elements (Color_Set_Storage.arrays_starts st))
       = Some (sdsl.size (Color_Set_Storage.arrays_concat st)).
Proof.
  apply (starts_strictly_monotone example_sets).
  - repeat constructor; try done; lia.
  - split; vm_compute; reflexivity.
Defined.

Lemma contains_guarded_witness :
  Hybrid.colorset_contains example_view 3 = Ret false
  /\ exists b, Hybrid.colorset_contains example_view 2 = Ret b.
Proof.
  split.
  - apply (proj1 (contains_guarded example_view 3)); [reflexivity | vm_compute; discriminate].
  - apply (proj2 (contains_guarded example_view 2)).
    + repeat split; vm_compute; discriminate.
    + vm_compute; discriminate.
Defined.

Lemma representation_choice_witness :
  (exists cs, Hybrid.Color_Set_of_vector [0; 1; 2; 3] = Ret cs
     /\ Hybrid.colorset_is_bitmap cs = dense 3 4)
  /\ (forall st, exists st',
        Color_Set_Storage.add_set st [0; 1; 2; 3] = Ret st'
        /\ Color_Set_Storage.temp_is_bitmap_marks st'
           = Color_Set_Storage.temp_is_bitmap_marks st ++ [dense 3 4])
  /\ dense 3 4
     = double_gt (double_mul (log2 (double_of_int 3)) (double_of_int 4)) (double_of_int 3)
  /\ (3 <= 1 -> dense 3 4 = false).
Proof.
  apply (representation_choice [0; 1; 2; 3]).
  split; [done | repeat constructor; lia].
Defined.

(** Claim C2 as stated fails: for [V = [0; 1]] the largest element is 1 and
    [ceil(log2(1+1)) * 2 = 2 >= 1+1], but [log2(1) * 2 = 0] is not larger
    than 1: the set is built as an array, by the constructor and by
    [add_set], with every C library. *)
Lemma representation_choice_counterexample :
  stated_rule (largest [0; 1]) (Z.of_nat (length [0; 1])) = true
  /\ (forall libm : Libm,
        (exists cs, Hybrid.Color_Set_of_vector [0; 1] = Ret cs
           /\ Hybrid.colorset_is_bitmap cs = false)
        /\ (exists st, Color_Set_Storage.add_set Color_Set_Storage.empty [0; 1] = Ret st
              /\ Color_Set_Storage.temp_is_bitmap_marks st = [false])).
Proof.
  split; [reflexivity |]. intros libm.
  assert (valid_colors [0; 1]) as Hv by (split; [done | repeat constructor; lia]).
  assert (is_dense [0; 1] = false) as Hd by (apply dense_small; simpl; lia).
  split.
  - destruct (Color_Set_of_vector_spec [0; 1] Hv) as (cs & Hcs & Hb).
    exists cs. by rewrite <- Hd.
  - destruct (add_set_mark Color_Set_Storage.empty [0; 1] Hv) as (st & Hst & Hm).
    exists st. by rewrite Hm, Hd.
Qed.
End Storage_Witnesses.

(** ** Intersection *)

Section Intersection_Facts.
Context {libm : Libm}.

(** The bitmap-with-array branch of [intersection] does not read
    [other.start]: two array views of the same vector with the same length
    give the same result. This holds whatever
    [array_vs_bitmap_intersection] does with its arguments. *)
Lemma intersection_bitmap_array_start this bv other1 other2 :
  Hybrid.data_ptr this = Hybrid.Bitmap bv ->
  Hybrid.colorset_is_bitmap other1 = false ->
  Hybrid.data_ptr other1 = Hybrid.data_ptr other2 ->
  Hybrid.length other1 = Hybrid.length other2 ->
  Hybrid.intersection this other1 = Hybrid.intersection this other2.
Proof.
  intros Hthis Harray Hdata Hlen.
  unfold Hybrid.colorset_is_bitmap in Harray. unfold Hybrid.intersection.
  rewrite Hthis, <- Hdata, <- Hlen.
  destruct (Hybrid.data_ptr other1); [discriminate | reflexivity].
Qed.

(** The constructor and [add_set], once the test is decided. *)
Lemma Color_Set_of_vector_test set m :
  max_element set = Ret m ->
  Hybrid.Color_Set_of_vector set
  = if dense m (Z.of_nat (length set)) then
      ptr ← Hybrid.set_bits (replicate (Z.to_nat (m + 1)) false) set;
      Ret {| Hybrid.data_ptr := Hybrid.Bitmap ptr; Hybrid.start := 0;
             Hybrid.length := Z.of_nat (length ptr) |}
    else
      ptr ← sdsl.assign (sdsl.int_vector_make (Z.of_nat (length set)) 0 64) 0 set;
      Ret {| Hybrid.data_ptr := Hybrid.Array ptr; Hybrid.start := 0;
             Hybrid.length := sdsl.size ptr |}.
Proof. intros Hm. unfold Hybrid.Color_Set_of_vector. by rewrite Hm. Qed.

Lemma build_sparse (sets : list (list Z)) :
  Forall (fun set => exists m, max_element set = Ret m
                      /\ dense m (Z.of_nat (length set)) = false) sets ->
  forall st,
    Color_Set_Storage.add_sets st sets
    = Ret {| Color_Set_Storage.bitmap_concat := Color_Set_Storage.bitmap_concat st;
             Color_Set_Storage.bitmap_starts := Color_Set_Storage.bitmap_starts st;
             Color_Set_Storage.arrays_concat := Color_Set_Storage.arrays_concat st;
             Color_Set_Storage.arrays_starts := Color_Set_Storage.arrays_starts st;
             Color_Set_Storage.is_bitmap_marks := Color_Set_Storage.is_bitmap_marks st;
             Color_Set_Storage.is_bitmap_marks_rs := Color_Set_Storage.is_bitmap_marks_rs st;
             Color_Set_Storage.temp_bitmap_concat := Color_Set_Storage.temp_bitmap_concat st;
             Color_Set_Storage.temp_arrays_concat :=
               Color_Set_Storage.temp_arrays_concat st ++ concat sets;
             Color_Set_Storage.temp_bitmap_starts := Color_Set_Storage.temp_bitmap_starts st;
             Color_Set_Storage.temp_arrays_starts :=
               Color_Set_Storage.temp_arrays_starts st
               ++ ((fun j => Z.of_nat (length (Color_Set_Storage.temp_arrays_concat st)
                                       + length (concat (take j sets))))
                     <$> seq 0 (length sets));
             Color_Set_Storage.temp_is_bitmap_marks :=
               Color_Set_Storage.temp_is_bitmap_marks st ++ replicate (length sets) false |}.
Proof.
  induction 1 as [|set sets (m & Hm & Hd) _ IH]; intros st.
  - simpl. rewrite !app_nil_r. by destruct st.
  - cbn [Color_Set_Storage.add_sets]. unfold Color_Set_Storage.add_set at 1.
    rewrite Hm. cbn [mbind outcome_bind]. rewrite Hd. cbn [mbind outcome_bind].
    rewrite IH. cbn [Color_Set_Storage.bitmap_concat Color_Set_Storage.bitmap_starts
      Color_Set_Storage.arrays_concat Color_Set_Storage.arrays_starts
      Color_Set_Storage.is_bitmap_marks Color_Set_Storage.is_bitmap_marks_rs
      Color_Set_Storage.temp_bitmap_concat Color_Set_Storage.temp_arrays_concat
      Color_Set_Storage.temp_bitmap_starts Color_Set_Storage.temp_arrays_starts
      Color_Set_Storage.temp_is_bitmap_marks].
    f_equal. f_equal.
    + by rewrite <- app_assoc.
    + rewrite <- app_assoc. f_equal. cbn [length seq fmap list_fmap take concat app].
      rewrite Nat.add_0_r. f_equal.
      rewrite <- seq_shift, <- list_fmap_compose. apply list_fmap_ext.
      intros _ j _. cbn [compose take concat]. rewrite !length_app. f_equal. lia.
    + rewrite <- app_assoc. done.
Qed.

(** Claim C3 fails on the code, with a C library for which the vector
    [0, 1, 2, 3] passes the test of the bitmap and the vectors [100] and [2]
    do not (as with any in which [log2(3)] is above 3/4, [log2(100)] is at
    most 100 and [log2(2)] at most 2). [A] is the bitmap set {0, 1, 2, 3}
    and [B] is the view of the second set of a storage that holds the arrays
    {100} and {2}, so [B] is {2} and starts at position 1 of the
    concatenation. The bitmap-with-array branch of [intersection] copies the
    whole concatenation and reads its first [B.length] elements, whatever
    [B.start] is: it intersects [A] with {100} and leaves [A] empty, where
    the intersection of the two sets is {2}. *)
Theorem intersection_ignores_view_start :
  dense 3 4 = true -> dense 100 1 = false -> dense 2 1 = false ->
  exists A st B A',
    Hybrid.Color_Set_of_vector [0; 1; 2; 3] = Ret A
    /\ Color_Set_Storage.build [[100]; [2]] = Ret st
    /\ Color_Set_Storage.get_color_set_by_id st 1 = Ret B
    /\ Hybrid.colorset_is_bitmap A = true
    /\ Hybrid.colorset_is_bitmap B = false
    /\ Hybrid.start B = 1
    /\ Hybrid.colorset_get_colors_as_vector A = Ret [0; 1; 2; 3]
    /\ Hybrid.colorset_get_colors_as_vector B = Ret [2]
    /\ Hybrid.intersection A B = Ret A'
    /\ Hybrid.colorset_get_colors_as_vector A' = Ret [].
Proof.
  intros Hbitmap Harray1 Harray2.
  pose proof (Color_Set_of_vector_test [0; 1; 2; 3] 3 eq_refl) as HA.
  rewrite (Hbitmap : dense 3 (Z.of_nat (length [0; 1; 2; 3])) = true) in HA.
  assert (Forall (fun set => exists m, max_element set = Ret m
                    /\ dense m (Z.of_nat (length set)) = false) [[100]; [2]]) as Hsparse.
  { repeat constructor; eexists; (split; [reflexivity | assumption]). }
  unfold Color_Set_Storage.build.
  rewrite HA, (build_sparse _ Hsparse).
  do 4 eexists. repeat split; reflexivity.
Qed.

End Intersection_Facts.

Section Intersection_Witnesses.
#[local] Existing Instance floor_libm.

Lemma intersection_ignores_view_start_witness :
  exists A st B A',
    Hybrid.Color_Set_of_vector [0; 1; 2; 3] = Ret A
    /\ Color_Set_Storage.build [[100]; [2]] = Ret st
    /\ Color_Set_Storage.get_color_set_by_id st 1 = Ret B
    /\ Hybrid.colorset_is_bitmap A = true
    /\ Hybrid.colorset_is_bitmap B = false
    /\ Hybrid.start B = 1
    /\ Hybrid.colorset_get_colors_as_vector A = Ret [0; 1; 2; 3]
    /\ Hybrid.colorset_get_colors_as_vector B = Ret [2]
    /\ Hybrid.intersection A B = Ret A'
    /\ Hybrid.colorset_get_colors_as_vector A' = Ret [].
Proof. apply intersection_ignores_view_start; vm_compute; reflexivity. Defined.

End Intersection_Witnesses.

(** ** The formats of the archive *)

Section Archive_Format_Facts.
Import Archive_Format.

Lemma read_write_u64 x rest :
  0 <= x < 2 ^ 64 -> read_u64 (write_u64 x ++ rest) = Ret (x, rest).
Proof.
  intros Hx. unfold read_u64, write_u64.
  pose proof (length_Z_to_little_endian 8 8 x ltac:(lia)) as Hlen.
  assert (length (Z_to_little_endian 8 8 x) = 8%nat) as Hlen' by lia.
  rewrite decide_True by (rewrite length_app; lia).
  rewrite take_app_length', drop_app_length' by done.
  rewrite little_endian_to_Z_to_little_endian by lia.
  by rewrite Z.mod_small by lia.
Qed.

Lemma read_write_int64 x rest :
  - 2 ^ 63 <= x < 2 ^ 63 -> read_int64 (write_int64 x ++ rest) = Ret (x, rest).
Proof.
  intros Hx. unfold read_int64, write_int64.
  pose proof (length_Z_to_little_endian 8 8 x ltac:(lia)) as Hlen.
  assert (length (Z_to_little_endian 8 8 x) = 8%nat) as Hlen' by lia.
  rewrite decide_True by (rewrite length_app; lia).
  rewrite take_app_length', drop_app_length' by done.
  rewrite little_endian_to_Z_to_little_endian by lia.
  f_equal. f_equal. unfold to_int64. change (8 * 8) with 64.
  destruct (decide (0 <= x)).
  - rewrite Z.mod_small by lia. by rewrite decide_True by lia.
  - replace (x `mod` 2 ^ 64) with (x + 2 ^ 64).
    + rewrite decide_False by lia. lia.
    + apply Z.mod_unique_pos with (q := -1); lia.
Qed.

Lemma bits_of_Z_of_bits (bits : list bool) :
  bits_of_Z (Z.of_nat (length bits)) (Z_of_bits bits) = bits.
Proof.
  unfold bits_of_Z, Z_of_bits.
  rewrite Z_to_little_endian_to_Z.
  - rewrite <- list_fmap_compose. rewrite <- (list_fmap_id bits) at 2.
    apply list_fmap_ext. intros _ b _. simpl. by destruct b.
  - by rewrite length_fmap.
  - lia.
  - apply Forall_fmap, Forall_true. intros []; simpl; lia.
Qed.

Lemma Z_of_bits_of_Z w x : 0 <= w -> 0 <= x < 2 ^ w -> Z_of_bits (bits_of_Z w x) = x.
Proof.
  intros Hw Hx. unfold bits_of_Z, Z_of_bits.
  rewrite <- list_fmap_compose.
  rewrite (Forall_fmap_ext_1 _ Datatypes.id).
  - rewrite list_fmap_id, little_endian_to_Z_to_little_endian by lia.
    rewrite Z.mul_1_r. by apply Z.mod_small.
  - eapply Forall_impl; [apply (Z_to_little_endian_bound w 1 x); lia |].
    intros d Hd. simpl in *. assert (d = 0 \/ d = 1) as [-> | ->] by lia; done.
Qed.

Lemma length_bits_of_Z w x : 0 <= w -> length (bits_of_Z w x) = Z.to_nat w.
Proof.
  intros Hw. unfold bits_of_Z. rewrite length_fmap.
  pose proof (length_Z_to_little_endian w 1 x Hw). lia.
Qed.

(** Cutting a list into [k] chunks of [n] elements, mapping each chunk through
    an encoding and its decoding, and joining gives the list back. *)
Lemma reshape_chunks_length {A} (l : list A) (k n : nat) :
  length l = (k * n)%nat ->
  Forall (fun c => length c = n) (reshape (replicate k n) l).
Proof.
  revert l. induction k as [|k IH]; intros l Hl; simpl; [done |].
  constructor.
  - rewrite length_take. lia.
  - apply IH. rewrite length_drop. lia.
Qed.

Lemma join_decode_chunks {A B} (enc : list A -> B) (dec : B -> list A) (l : list A) (k n : nat) :
  length l = (k * n)%nat ->
  (forall c, length c = n -> dec (enc c) = c) ->
  mjoin (dec <$> (enc <$> reshape (replicate k n) l)) = l.
Proof.
  intros Hl Hdec. rewrite <- list_fmap_compose.
  rewrite (Forall_fmap_ext_1 _ Datatypes.id).
  - rewrite list_fmap_id. apply join_reshape. rewrite sum_list_replicate. lia.
  - eapply Forall_impl; [by apply reshape_chunks_length |]. intros c Hc. simpl. by apply Hdec.
Qed.

Lemma reshape_join_chunks {A} (chunks : list (list A)) (n : nat) :
  Forall (fun c => length c = n) chunks ->
  reshape (replicate (length chunks) n) (mjoin chunks) = chunks.
Proof.
  induction chunks as [|c chunks IH]; intros Hall; [done |].
  apply Forall_cons in Hall as [Hc Hall]. simpl.
  rewrite take_app_length', drop_app_length' by done. by rewrite IH.
Qed.

Lemma bytes_for_bound n : (n <= 8 * bytes_for n < n + 8)%nat.
Proof.
  unfold bytes_for.
  pose proof (Nat.div_mod_eq (n + 7) 8). pose proof (Nat.mod_upper_bound (n + 7) 8). lia.
Qed.

Lemma length_pack_bits bits : length (pack_bits bits) = bytes_for (length bits).
Proof. unfold pack_bits. by rewrite length_fmap, length_reshape, length_replicate. Qed.

Lemma unpack_pack_bits bits : unpack_bits (length bits) (pack_bits bits) = bits.
Proof.
  unfold unpack_bits, pack_bits. pose proof (bytes_for_bound (length bits)) as Hk.
  rewrite join_decode_chunks.
  - by rewrite take_app_length.
  - rewrite length_app, length_replicate. lia.
  - intros c Hc. rewrite <- (bits_of_Z_of_bits c) at 2. by rewrite Hc.
Qed.

Lemma read_pack_bits bits rest :
  read_bits (length bits) (pack_bits bits ++ rest) = Ret (bits, rest).
Proof.
  unfold read_bits. pose proof (length_pack_bits bits) as Hlen.
  rewrite decide_True by (rewrite length_app; lia).
  rewrite take_app_length', drop_app_length' by done.
  by rewrite unpack_pack_bits.
Qed.

Lemma load_serialize_bit_vector bv rest :
  bit_vector_serializable bv ->
  load_bit_vector (serialize_bit_vector bv ++ rest) = Ret (bv, rest).
Proof.
  intros Hbv. unfold load_bit_vector, serialize_bit_vector, bit_vector_serializable in *.
  rewrite <- app_assoc, read_write_u64 by lia. simpl.
  rewrite Nat2Z.id. apply read_pack_bits.
Qed.

Lemma length_join_fixed {A} (chunks : list (list A)) (n : nat) :
  Forall (fun c => length c = n) chunks -> length (mjoin chunks) = (length chunks * n)%nat.
Proof.
  induction 1 as [|c chunks Hc _ IH]; [done |]. simpl. rewrite length_app. lia.
Qed.

Lemma load_serialize_int_vector iv rest :
  int_vector_serializable iv ->
  load_int_vector (serialize_int_vector iv ++ rest) = Ret (iv, rest).
Proof.
  intros (Hw & Hsize & Hall). unfold load_int_vector, serialize_int_vector.
  cbn [app]. rewrite <- app_assoc. unfold sdsl.size in *.
  rewrite read_write_u64 by lia. cbn [mbind outcome_bind].
  set (chunks := bits_of_Z (sdsl.width iv) <$> sdsl.elements iv).
  assert (Forall (fun c => length c = Z.to_nat (sdsl.width iv)) chunks) as Hchunks.
  { apply Forall_fmap, Forall_true. intros x. simpl. apply length_bits_of_Z. lia. }
  assert (Z.to_nat (Z.of_nat (length (sdsl.elements iv)) * sdsl.width iv)
          = length (mjoin chunks)) as ->.
  { rewrite (length_join_fixed _ _ Hchunks). unfold chunks. rewrite length_fmap. lia. }
  rewrite read_pack_bits. simpl. f_equal. f_equal.
  destruct iv as [w elements]. simpl in *. f_equal.
  rewrite Nat2Z.id.
  replace (length elements) with (length chunks) by (unfold chunks; by rewrite length_fmap).
  rewrite (reshape_join_chunks _ _ Hchunks). unfold chunks.
  rewrite <- list_fmap_compose. rewrite <- (list_fmap_id elements) at 2.
  apply Forall_fmap_ext_1. eapply Forall_impl; [done |].
  intros x Hx. simpl in *. apply Z_of_bits_of_Z; lia.
Qed.

Lemma load_serialize_string s rest :
  string_serializable s -> load_string (serialize_string s ++ rest) = Ret (s, rest).
Proof.
  intros Hs. unfold load_string, serialize_string, string_serializable in *.
  rewrite <- app_assoc, read_write_u64 by lia. simpl.
  assert (length ((fun a => Z.of_N (N_of_ascii a)) <$> list_ascii_of_string s)
          = String.length s) as Hlen.
  { rewrite length_fmap. clear Hs. induction s; simpl; [done | by f_equal]. }
  rewrite Nat2Z.id. rewrite decide_True by (rewrite length_app; lia).
  rewrite <- Hlen at 1 2. rewrite take_app_length, drop_app_length.
  f_equal. f_equal. rewrite <- list_fmap_compose.
  rewrite (Forall_fmap_ext_1 _ Datatypes.id).
  - by rewrite list_fmap_id, string_of_list_ascii_of_string.
  - apply Forall_true. intros a. simpl. by rewrite N2Z.id, ascii_N_embedding.
Qed.

Lemma load_serialize_rank_support v rest :
  rank_support_serializable v ->
  load_rank_support (serialize_rank_support (sdsl.init_support v) ++ rest) v
  = Ret (sdsl.init_support v, rest).
Proof.
  intros Hv. unfold load_rank_support, serialize_rank_support.
  change (sdsl.m_v (sdsl.init_support v)) with (Some v). cbv iota.
  rewrite load_serialize_int_vector; [done |].
  unfold int_vector_serializable, rank_table, sdsl.size, rank_support_serializable in *.
  cbn [sdsl.width sdsl.elements].
  split; [lia |]. split.
  - rewrite length_fmap, length_seq. lia.
  - apply Forall_fmap, Forall_true. intros i. simpl. apply Z.mod_pos_bound. lia.
Qed.

End Archive_Format_Facts.

(** ** The color set of a node *)

Section Get_Color_Set_Id_Facts.
Context {storage_t : Type} `{Color_Set_Storage_Interface storage_t}.
Implicit Types (c : Coloring.t storage_t) (index : SBWT.plain_matrix_sbwt_t).

Lemma loop_core fuel c index node :
  Coloring.is_core_kmer c node = Ret true ->
  Coloring.get_color_set_id_loop fuel c index node
  = Some (Sparse_Uint_Array.get (Coloring.node_id_to_color_set_id c) node).
Proof. intros Hc. destruct fuel; simpl; by rewrite Hc. Qed.

Lemma loop_step fuel c index node node' :
  Coloring.is_core_kmer c node = Ret false ->
  Coloring.follow_edge index node = Ret node' ->
  Coloring.get_color_set_id_loop (S fuel) c index node
  = Coloring.get_color_set_id_loop fuel c index node'.
Proof. intros Hc He. simpl. by rewrite Hc, He. Qed.

(** More fuel does not change a result. *)
Lemma loop_more_fuel fuel c index : forall node r,
  Coloring.get_color_set_id_loop fuel c index node = Some r ->
  Coloring.get_color_set_id_loop (S fuel) c index node = Some r.
Proof.
  induction fuel as [|fuel IH]; intros node r Hr.
  - simpl in *. destruct (Coloring.is_core_kmer c node) as [[|] | |]; done.
  - cbn [Coloring.get_color_set_id_loop] in Hr |- *.
    destruct (Coloring.is_core_kmer c node) as [[|] | |]; try done.
    destruct (Coloring.follow_edge index node) as [node' | |]; try done.
    by apply IH.
Qed.

Lemma successor_no_throw index node X e : Coloring.successor index node X <> Throw e.
Proof.
  unfold Coloring.successor, SBWT.rank.
  destruct (at_index _ _); simpl; [| done]. by destruct (decide _).
Qed.

(** [follow_edge] probes the indicator bits in the order A, C, G, T and
    applies the forward-edge formula to the first that is set. *)
Lemma follow_edge_unfold index node :
  Coloring.follow_edge index node
  = (let bit X := sdsl.bit (SBWT.bits_of (SBWT.get_subset_rank_structure index) X) node in
     a ← bit SBWT.A;
     if a : bool then Coloring.successor index node SBWT.A
     else c ← bit SBWT.C;
          if c : bool then Coloring.successor index node SBWT.C
          else g ← bit SBWT.G;
               if g : bool then Coloring.successor index node SBWT.G
               else t ← bit SBWT.T;
                    if t : bool then Coloring.successor index node SBWT.T
                    else Throw Coloring.dead_end).
Proof. reflexivity. Qed.

Lemma bit_no_throw bv i e : sdsl.bit bv i <> Throw e.
Proof. unfold sdsl.bit. by destruct (at_index bv i). Qed.

Lemma follow_edge_throw index node e :
  Coloring.follow_edge index node = Throw e ->
  e = Coloring.dead_end /\ Coloring.no_out_edges index node.
Proof.
  rewrite follow_edge_unfold. cbv beta zeta. unfold Coloring.no_out_edges.
  destruct (sdsl.bit (SBWT.bits_of _ SBWT.A) node) as [[|] | |] eqn:Ha; simpl;
    [by intros ?%successor_no_throw | | by apply bit_no_throw in Ha | done].
  destruct (sdsl.bit (SBWT.C_bits _) node) as [[|] | |] eqn:Hc; simpl;
    [by intros ?%successor_no_throw | | by apply bit_no_throw in Hc | done].
  destruct (sdsl.bit (SBWT.G_bits _) node) as [[|] | |] eqn:Hg; simpl;
    [by intros ?%successor_no_throw | | by apply bit_no_throw in Hg | done].
  destruct (sdsl.bit (SBWT.T_bits _) node) as [[|] | |] eqn:Ht; simpl;
    [by intros ?%successor_no_throw | | by apply bit_no_throw in Ht | done].
  intros [= <-]. split; [done |]. by intros [].
Qed.

Lemma follow_edge_dead_end index node :
  Coloring.no_out_edges index node -> Coloring.follow_edge index node = Throw Coloring.dead_end.
Proof.
  intros Hno. rewrite follow_edge_unfold. cbv beta zeta.
  by rewrite (Hno SBWT.A), (Hno SBWT.C), (Hno SBWT.G), (Hno SBWT.T).
Qed.

Lemma follow_edge_only index node X :
  sdsl.bit (SBWT.bits_of (SBWT.get_subset_rank_structure index) X) node = Ret true ->
  (forall Y, Y <> X ->
     sdsl.bit (SBWT.bits_of (SBWT.get_subset_rank_structure index) Y) node = Ret false) ->
  Coloring.follow_edge index node = Coloring.successor index node X.
Proof.
  intros HX Hothers. rewrite follow_edge_unfold. cbv beta zeta.
  assert (forall Y b,
            sdsl.bit (SBWT.bits_of (SBWT.get_subset_rank_structure index) Y) node = Ret b ->
            (y ← sdsl.bit (SBWT.bits_of (SBWT.get_subset_rank_structure index) Y) node;
             if y : bool then Coloring.successor index node Y
             else Coloring.successor index node X)
            = if b then Coloring.successor index node Y else Coloring.successor index node X)
    as _ by (by intros Y b ->).
  destruct X.
  - by rewrite HX.
  - rewrite (Hothers SBWT.A) by done. cbn [mbind outcome_bind]. by rewrite HX.
  - rewrite (Hothers SBWT.A) by done. cbn [mbind outcome_bind].
    rewrite (Hothers SBWT.C) by done. cbn [mbind outcome_bind]. by rewrite HX.
  - rewrite (Hothers SBWT.A) by done. cbn [mbind outcome_bind].
    rewrite (Hothers SBWT.C) by done. cbn [mbind outcome_bind].
    rewrite (Hothers SBWT.G) by done. cbn [mbind outcome_bind]. by rewrite HX.
Qed.

Lemma is_core_kmer_no_throw c node e : Coloring.is_core_kmer c node <> Throw e.
Proof.
  unfold Coloring.is_core_kmer, Sparse_Uint_Array.has_index, sdsl.bit.
  by destruct (at_index _ _).
Qed.

Lemma rank_no_throw rs i e : sdsl.rank rs i <> Throw e.
Proof. unfold sdsl.rank. destruct (sdsl.m_v rs); [| done]. by destruct (decide _). Qed.

Lemma get_no_throw iv i e : sdsl.get iv i <> Throw e.
Proof. unfold sdsl.get. by destruct (at_index _ i). Qed.

Lemma get_core c node e :
  Coloring.is_core_kmer c node = Ret true ->
  Sparse_Uint_Array.get (Coloring.node_id_to_color_set_id c) node = Throw e -> False.
Proof.
  unfold Coloring.is_core_kmer, Sparse_Uint_Array.get. intros -> Hg. simpl in Hg.
  destruct (sdsl.rank _ _) as [r | |] eqn:Hr; simpl in Hg;
    [| by apply rank_no_throw in Hr | done].
  unfold sdsl.get_int64 in Hg.
  destruct (sdsl.get _ _) eqn:Hv; [done | by apply get_no_throw in Hv | done].
Qed.

Lemma loop_result_walk fuel c index : forall node r,
  Coloring.get_color_set_id_loop fuel c index node = Some r ->
  r <> Undefined ->
  exists v, Coloring.walk c index node v
    /\ ((Coloring.is_core_kmer c v = Ret true
         /\ r = Sparse_Uint_Array.get (Coloring.node_id_to_color_set_id c) v)
        \/ (Coloring.is_core_kmer c v = Ret false
            /\ exists e, Coloring.follow_edge index v = Throw e /\ r = Throw e)).
Proof.
  induction fuel as [|fuel IH]; intros node r Hr Hdef.
  - simpl in Hr. destruct (Coloring.is_core_kmer c node) as [[|] | |] eqn:Hc; try done.
    + injection Hr as <-. exists node. split; [constructor | by left].
    + by apply is_core_kmer_no_throw in Hc.
    + by injection Hr as <-.
  - cbn [Coloring.get_color_set_id_loop] in Hr.
    destruct (Coloring.is_core_kmer c node) as [[|] | |] eqn:Hc.
    + injection Hr as <-. exists node. split; [constructor | by left].
    + destruct (Coloring.follow_edge index node) as [node' | e |] eqn:He.
      * destruct (IH node' r Hr Hdef) as (v & Hw & Hv).
        exists v. split; [by econstructor | done].
      * injection Hr as <-. exists node. split; [constructor |]. right. eauto.
      * by injection Hr as <-.
    + by apply is_core_kmer_no_throw in Hc.
    + by injection Hr as <-.
Qed.

Lemma walk_core_result c index u v :
  Coloring.walk c index u v ->
  Coloring.is_core_kmer c v = Ret true ->
  exists fuel, Coloring.get_color_set_id_loop fuel c index u
               = Some (Sparse_Uint_Array.get (Coloring.node_id_to_color_set_id c) v).
Proof.
  induction 1 as [u | u u' v Hc He Hw IH]; intros Hv.
  - exists 0%nat. by apply loop_core.
  - destruct (IH Hv) as [fuel Hfuel]. exists (S fuel). by rewrite (loop_step _ _ _ _ u').
Qed.

Lemma walk_dead_end_result c index u v :
  Coloring.walk c index u v ->
  Coloring.is_core_kmer c v = Ret false ->
  Coloring.no_out_edges index v ->
  exists fuel, Coloring.get_color_set_id_loop fuel c index u = Some (Throw Coloring.dead_end).
Proof.
  induction 1 as [u | u u' v Hc He Hw IH]; intros Hv Hno.
  - exists 1%nat. simpl. by rewrite Hv, (follow_edge_dead_end _ _ Hno).
  - destruct (IH Hv Hno) as [fuel Hfuel]. exists (S fuel). by rewrite (loop_step _ _ _ _ u').
Qed.

(** Claim C6. For a coloring with an index: at a node that has an entry in
    the node to color set map, [get_color_set_id] returns the stored id of
    the node itself. In general it returns an id exactly when the walk along
    out-edges arrives at a node with an entry, and the id is the one stored
    there; it throws exactly when the walk arrives at a node without an entry
    and without out-edges, and what it throws is the dead-end error. The edge
    followed at a node with a single indicator bit [X] set is
    [C_array[X] + rank(node, X)]. *)
Theorem get_color_set_id_walk c index node :
  Coloring.index_ptr c = Some index ->
  (Coloring.is_core_kmer c node = Ret true ->
   forall fuel, Coloring.get_color_set_id fuel c node
                = Some (Sparse_Uint_Array.get (Coloring.node_id_to_color_set_id c) node))
  /\ (forall id,
        (exists fuel, Coloring.get_color_set_id fuel c node = Some (Ret id))
        <-> exists v, Coloring.walk c index node v
              /\ Coloring.is_core_kmer c v = Ret true
              /\ Sparse_Uint_Array.get (Coloring.node_id_to_color_set_id c) v = Ret id)
  /\ ((exists fuel e, Coloring.get_color_set_id fuel c node = Some (Throw e))
      <-> exists v, Coloring.walk c index node v
            /\ Coloring.is_core_kmer c v = Ret false
            /\ Coloring.no_out_edges index v)
  /\ (forall fuel e,
        Coloring.get_color_set_id fuel c node = Some (Throw e) -> e = Coloring.dead_end)
  /\ (forall u X,
        sdsl.bit (SBWT.bits_of (SBWT.get_subset_rank_structure index) X) u = Ret true ->
        (forall Y, Y <> X ->
           sdsl.bit (SBWT.bits_of (SBWT.get_subset_rank_structure index) Y) u = Ret false) ->
        Coloring.follow_edge index u = Coloring.successor index u X).
Proof.
  intros Hindex. unfold Coloring.get_color_set_id. rewrite Hindex.
  split; [| split; [| split; [| split]]].
  - intros Hc fuel. by apply loop_core.
  - intros id. split.
    + intros [fuel Hfuel].
      destruct (loop_result_walk fuel c index node (Ret id) Hfuel) as (v & Hw & Hv); [done |].
      exists v. split; [done |].
      destruct Hv as [[Hc Hg] | (_ & e & _ & ?)]; [done | done].
    + intros (v & Hw & Hc & Hg). rewrite <- Hg. by apply walk_core_result.
  - split.
    + intros (fuel & e & Hfuel).
      destruct (loop_result_walk fuel c index node (Throw e) Hfuel) as (v & Hw & Hv); [done |].
      exists v. split; [done |].
      destruct Hv as [[Hc Hg] | (Hc & e' & He & Heq)].
      * symmetry in Hg. by apply get_core in Hg.
      * split; [done |]. by apply follow_edge_throw in He as [_ ?].
    + intros (v & Hw & Hc & Hno).
      destruct (walk_dead_end_result c index node v Hw Hc Hno) as [fuel Hfuel]. eauto.
  - intros fuel e Hfuel.
    destruct (loop_result_walk fuel c index node (Throw e) Hfuel) as (v & Hw & Hv); [done |].
    destruct Hv as [[Hc Hg] | (Hc & e' & He & Heq)].
    + symmetry in Hg. by apply get_core in Hg.
    + injection Heq as ->. by apply follow_edge_throw in He as [? _].
  - intros u X. apply follow_edge_only.
Qed.

End Get_Color_Set_Id_Facts.

(** ** Serialization and loading *)

Section Serialization_Facts.
Context `{Serializable sdsl.bit_vector} `{Serializable sdsl.int_vector}
        `{Rank_Support_Serializable} `{Serializable string}.

Lemma load_serialize_storage st st0 rest :
  Color_Set_Storage.storage_serializable st ->
  Color_Set_Storage.load_storage st0 (Color_Set_Storage.serialize_storage st ++ rest)
  = Ret ({| Color_Set_Storage.bitmap_concat := Color_Set_Storage.bitmap_concat st;
            Color_Set_Storage.bitmap_starts := Color_Set_Storage.bitmap_starts st;
            Color_Set_Storage.arrays_concat := Color_Set_Storage.arrays_concat st;
            Color_Set_Storage.arrays_starts := Color_Set_Storage.arrays_starts st;
            Color_Set_Storage.is_bitmap_marks := Color_Set_Storage.is_bitmap_marks st;
            Color_Set_Storage.is_bitmap_marks_rs := Color_Set_Storage.is_bitmap_marks_rs st;
            Color_Set_Storage.temp_bitmap_concat := Color_Set_Storage.temp_bitmap_concat st0;
            Color_Set_Storage.temp_arrays_concat := Color_Set_Storage.temp_arrays_concat st0;
            Color_Set_Storage.temp_bitmap_starts := Color_Set_Storage.temp_bitmap_starts st0;
            Color_Set_Storage.temp_arrays_starts := Color_Set_Storage.temp_arrays_starts st0;
            Color_Set_Storage.temp_is_bitmap_marks :=
              Color_Set_Storage.temp_is_bitmap_marks st0 |},
         rest).
Proof.
  intros (Hbc & Hbs & Hac & Has & Hm & Hrs & Heq).
  unfold Color_Set_Storage.load_storage, Color_Set_Storage.serialize_storage.
  rewrite <- !app_assoc.
  rewrite load_serialize by done. cbn [mbind outcome_bind].
  rewrite load_serialize by done. cbn [mbind outcome_bind].
  rewrite load_serialize by done. cbn [mbind outcome_bind].
  rewrite load_serialize by done. cbn [mbind outcome_bind].
  rewrite load_serialize by done. cbn [mbind outcome_bind].
  rewrite Heq, rs_load_serialize by done. done.
Qed.

Lemma load_serialize_array a rest :
  Sparse_Uint_Array.array_serializable a ->
  Sparse_Uint_Array.load_array (Sparse_Uint_Array.serialize_array a ++ rest) = Ret (a, rest).
Proof.
  intros (Hp & Hrs & Heq & Hv).
  unfold Sparse_Uint_Array.load_array, Sparse_Uint_Array.serialize_array.
  rewrite <- !app_assoc.
  rewrite load_serialize by done. cbn [mbind outcome_bind].
  rewrite Heq, rs_load_serialize by done. cbn [mbind outcome_bind].
  rewrite load_serialize by done. cbn [mbind outcome_bind].
  destruct a. simpl in *. by rewrite Heq.
Qed.

Section With_Storage.
Context {storage_t : Type} `{Color_Set_Storage_Interface storage_t}.

Lemma check_type_id_match type_id :
  Coloring.type_id_of colorset_t = Ret type_id ->
  Coloring.check_type_id type_id = Ret tt.
Proof.
  unfold Coloring.type_id_of, Coloring.check_type_id.
  destruct colorset_t eqn:Hc; intros [= <-]; try done.
Qed.

Lemma check_type_id_mismatch type_id :
  Coloring.known_type_id type_id ->
  Coloring.type_id_of colorset_t <> Ret type_id ->
  Coloring.check_type_id type_id = Throw WrongTemplateParameterException.
Proof.
  unfold Coloring.type_id_of, Coloring.check_type_id.
  intros [-> | [-> | ->]] Hne; simpl; destruct colorset_t; try done.
Qed.

Lemma check_type_id_unknown type_id :
  ~ Coloring.known_type_id type_id ->
  Coloring.check_type_id type_id
  = Throw (runtime_error ("Unknown color set type:" ++ type_id)).
Proof.
  unfold Coloring.known_type_id, Coloring.check_type_id. intros Hno.
  destruct (String.eqb_spec type_id "sdsl-hybrid-v4") as [-> | _]; [tauto |].
  destruct (String.eqb_spec type_id "roaring-v0") as [-> | _]; [tauto |].
  destruct (String.eqb_spec type_id "bitmagic-v0") as [-> | _]; [tauto |].
  done.
Qed.

Lemma load_type_id (c : Coloring.t storage_t) type_id rest index :
  serializable type_id ->
  Coloring.load_coloring_from c (serialize type_id ++ rest) index
  = (_ ← Coloring.check_type_id type_id;
     '(sets', input) ← storage_load (Coloring.sets c) rest;
     '(node_id_to_color_set_id', input) ← Sparse_Uint_Array.load_array input;
     '(largest_color_id', input) ← read_int64 input;
     '(total_color_set_length', input) ← read_int64 input;
     Ret ({| Coloring.sets := sets';
             Coloring.node_id_to_color_set_id := node_id_to_color_set_id';
             Coloring.index_ptr := Some index;
             Coloring.largest_color_id := largest_color_id';
             Coloring.total_color_set_length := total_color_set_length' |},
          input)).
Proof.
  intros Hs. unfold Coloring.load_coloring_from. by rewrite load_serialize by done.
Qed.

Lemma loop_same_map fuel (c c' : Coloring.t storage_t) index :
  Coloring.node_id_to_color_set_id c' = Coloring.node_id_to_color_set_id c ->
  forall node,
    Coloring.get_color_set_id_loop fuel c' index node
    = Coloring.get_color_set_id_loop fuel c index node.
Proof.
  intros Hmap. induction fuel as [|fuel IH]; intros node; simpl;
    unfold Coloring.is_core_kmer; rewrite Hmap; [done |].
  destruct (Sparse_Uint_Array.has_index _ node) as [[|] | |]; try done.
  by destruct (Coloring.follow_edge index node).
Qed.

End With_Storage.

(** Claim C4 (serialization round-trip), for the hybrid color sets. Loading
    the bytes that [serialize] writes for a coloring [c], with the same index,
    gives a coloring whose accessors return what those of [c] return: the
    number of distinct color sets, the largest color, the sum of the color set
    lengths, the colors of every color set id and, when [c] has this index,
    the color set id and the colors of every node. [c] is a coloring that the
    formats of its members can hold. *)
Theorem coloring_serialize_load (c c0 : Coloring.t Color_Set_Storage.t) index rest :
  coloring_serializable c ->
  exists bytes c',
    Coloring.serialize_coloring c = Ret bytes
    /\ Coloring.load_coloring_from c0 (bytes ++ rest) index = Ret (c', rest)
    /\ Coloring.number_of_distinct_color_sets c' = Coloring.number_of_distinct_color_sets c
    /\ Coloring.largest_color c' = Coloring.largest_color c
    /\ Coloring.sum_of_all_distinct_color_set_lengths c'
       = Coloring.sum_of_all_distinct_color_set_lengths c
    /\ (forall id, Coloring.get_color_set_as_vector_by_color_set_id c' id
                   = Coloring.get_color_set_as_vector_by_color_set_id c id)
    /\ (Coloring.index_ptr c = Some index ->
        forall fuel node,
          Coloring.get_color_set_id fuel c' node = Coloring.get_color_set_id fuel c node
          /\ Coloring.get_color_set_of_node_as_vector fuel c' node
             = Coloring.get_color_set_of_node_as_vector fuel c node).
Proof.
  intros (Htag & Hst & Hmap & Hl & Ht).
  unfold Coloring.serialize_coloring.
  change (Coloring.type_id_of colorset_t) with (Ret (A := string) "sdsl-hybrid-v4"%string).
  cbn [mbind outcome_bind].
  eexists _, _. split; [reflexivity |].
  rewrite <- !app_assoc, load_type_id by done.
  rewrite (check_type_id_match "sdsl-hybrid-v4") by done. cbn [mbind outcome_bind].
  change (storage_load ?s ?i) with (Color_Set_Storage.load_storage s i).
  change (storage_serialize ?s) with (Color_Set_Storage.serialize_storage s).
  rewrite load_serialize_storage by done. cbn [mbind outcome_bind].
  rewrite load_serialize_array by done. cbn [mbind outcome_bind].
  rewrite read_write_int64 by done. cbn [mbind outcome_bind].
  rewrite read_write_int64 by done. cbn [mbind outcome_bind].
  do 5 (split; [reflexivity |]). intros Hindex fuel node.
  unfold Coloring.get_color_set_of_node_as_vector, Coloring.get_color_set_id.
  cbn [Coloring.index_ptr]. rewrite Hindex.
  by rewrite (loop_same_map _ c) by done.
Qed.

Section Load_Coloring_Facts.
Context {roaring bit_magic : Type}
        `{Color_Set_Interface roaring} `{Color_Set_Interface bit_magic}.

Local Abbreviation load_coloring :=
  (Load_Coloring.load_coloring (roaring := roaring) (bit_magic := bit_magic)).
Local Abbreviation try_load :=
  (Load_Coloring.try_load (roaring := roaring) (bit_magic := bit_magic)).
Local Abbreviation Coloring_Color_Set :=
  (Load_Coloring.Coloring_Color_Set (roaring := roaring) (bit_magic := bit_magic)).
Local Abbreviation Coloring_Roaring_Color_Set :=
  (Load_Coloring.Coloring_Roaring_Color_Set (roaring := roaring) (bit_magic := bit_magic)).
Local Abbreviation Coloring_Bit_Magic_Color_Set :=
  (Load_Coloring.Coloring_Bit_Magic_Color_Set (roaring := roaring) (bit_magic := bit_magic)).

Lemma try_load_wrong {storage_t : Type} `{Color_Set_Storage_Interface storage_t}
    (wrap : Coloring.t storage_t -> Load_Coloring.coloring_variant roaring bit_magic) type_id rest SBWT :
  serializable type_id ->
  Coloring.known_type_id type_id ->
  Coloring.type_id_of colorset_t <> Ret type_id ->
  Load_Coloring.try_load wrap (serialize type_id ++ rest) SBWT = None.
Proof.
  intros Hs Hk Hne. unfold Load_Coloring.try_load.
  by rewrite load_type_id, check_type_id_mismatch by done.
Qed.

Lemma try_load_unknown {storage_t : Type} `{Color_Set_Storage_Interface storage_t}
    (wrap : Coloring.t storage_t -> Load_Coloring.coloring_variant roaring bit_magic) type_id rest SBWT :
  serializable type_id ->
  ~ Coloring.known_type_id type_id ->
  Load_Coloring.try_load wrap (serialize type_id ++ rest) SBWT
  = Some (Throw (runtime_error ("Unknown color set type:" ++ type_id))).
Proof.
  intros Hs Hk. unfold Load_Coloring.try_load.
  by rewrite load_type_id, check_type_id_unknown by done.
Qed.

(** Claim C5. [Coloring::load] reads the type id of the archive. When it is
    one of the three known ids and not the one of the loader's color set
    type, [load] throws [WrongTemplateParameterException]; when it is none of
    them, [load] throws a runtime error; when it is the loader's own, the
    check passes. [load_coloring] catches the first exception and goes on
    with the next type: an archive tagged [roaring-v0] is handed to the
    roaring loader, one tagged [bitmagic-v0] to the bit-magic loader (the
    roaring color sets going by their own name). An unknown id makes
    [load_coloring] fail with the runtime error of the first loader. *)
Theorem load_type_id_dispatch :
  (forall {storage_t : Type} `{Color_Set_Storage_Interface storage_t}
          (c : Coloring.t storage_t) type_id rest index,
     serializable type_id ->
     (Coloring.known_type_id type_id -> Coloring.type_id_of colorset_t <> Ret type_id ->
      Coloring.load_coloring_from c (serialize type_id ++ rest) index
      = Throw WrongTemplateParameterException)
     /\ (~ Coloring.known_type_id type_id ->
         Coloring.load_coloring_from c (serialize type_id ++ rest) index
         = Throw (runtime_error ("Unknown color set type:" ++ type_id)))
     /\ (Coloring.type_id_of colorset_t = Ret type_id ->
         Coloring.check_type_id type_id = Ret tt))
  /\ (forall rest SBWT,
        serializable "roaring-v0"%string ->
        load_coloring (serialize "roaring-v0"%string ++ rest) SBWT
        = match try_load Coloring_Roaring_Color_Set
                  (serialize "roaring-v0"%string ++ rest) SBWT with
          | Some r => r
          | None =>
              match try_load Coloring_Bit_Magic_Color_Set
                      (serialize "roaring-v0"%string ++ rest) SBWT with
              | Some r => r
              | None => Throw (runtime_error "Error: could not load color structure.")
              end
          end)
  /\ (forall rest SBWT,
        serializable "bitmagic-v0"%string ->
        colorset_name (C := roaring) = Roaring_Color_Set ->
        load_coloring (serialize "bitmagic-v0"%string ++ rest) SBWT
        = match try_load Coloring_Bit_Magic_Color_Set
                  (serialize "bitmagic-v0"%string ++ rest) SBWT with
          | Some r => r
          | None => Throw (runtime_error "Error: could not load color structure.")
          end)
  /\ (forall type_id rest SBWT,
        serializable type_id -> ~ Coloring.known_type_id type_id ->
        load_coloring (serialize type_id ++ rest) SBWT
        = Throw (runtime_error ("Unknown color set type:" ++ type_id))).
Proof.
  split; [| split; [| split]].
  - intros storage_t Hst c type_id rest index Hs. split; [| split].
    + intros Hk Hne. by rewrite load_type_id, check_type_id_mismatch by done.
    + intros Hk. by rewrite load_type_id, check_type_id_unknown by done.
    + apply check_type_id_match.
  - intros rest SBWT Hs. unfold Load_Coloring.load_coloring.
    rewrite (try_load_wrong Coloring_Color_Set);
      [done | done | by right; left | done].
  - intros rest SBWT Hs Hname. unfold Load_Coloring.load_coloring.
    rewrite (try_load_wrong Coloring_Color_Set);
      [| done | by right; right | done].
    rewrite (try_load_wrong Coloring_Roaring_Color_Set);
      [done | done | by right; right |].
    simpl. by rewrite Hname.
  - intros type_id rest SBWT Hs Hk. unfold Load_Coloring.load_coloring.
    by rewrite (try_load_unknown Coloring_Color_Set).
Qed.

End Load_Coloring_Facts.

End Serialization_Facts.

(** ** The formats of the archive as instances, and examples *)

Section Format_Instances.
Import Archive_Format Examples.

Definition bit_vector_format : Serializable sdsl.bit_vector :=
  {| serialize := serialize_bit_vector; load := load_bit_vector;
     serializable := bit_vector_serializable;
     load_serialize := load_serialize_bit_vector |}.

Definition int_vector_format : Serializable sdsl.int_vector :=
  {| serialize := serialize_int_vector; load := load_int_vector;
     serializable := int_vector_serializable;
     load_serialize := load_serialize_int_vector |}.

Definition string_format : Serializable string :=
  {| serialize := serialize_string; load := load_string;
     serializable := string_serializable;
     load_serialize := load_serialize_string |}.

Definition rank_support_format : Rank_Support_Serializable :=
  {| rs_serialize := serialize_rank_support; rs_load := load_rank_support;
     rs_serializable := rank_support_serializable;
     rs_load_serialize := load_serialize_rank_support |}.

Lemma load_serialize_roaring_set (x : roaring_set) rest :
  bit_vector_serializable (roaring_bits x) ->
  (r ← load_bit_vector (serialize_bit_vector (roaring_bits x) ++ rest);
   Ret ({| roaring_bits := r.1 |}, r.2))
  = Ret (x, rest).
Proof. intros Hx. rewrite load_serialize_bit_vector by done. by destruct x. Qed.

Lemma load_serialize_bit_magic_set (x : bit_magic_set) rest :
  bit_vector_serializable (bit_magic_bits x) ->
  (r ← load_bit_vector (serialize_bit_vector (bit_magic_bits x) ++ rest);
   Ret ({| bit_magic_bits := r.1 |}, r.2))
  = Ret (x, rest).
Proof. intros Hx. rewrite load_serialize_bit_vector by done. by destruct x. Qed.

Definition roaring_set_format : Serializable roaring_set :=
  {| serialize := fun x => serialize_bit_vector (roaring_bits x);
     load := fun input =>
       r ← load_bit_vector input; Ret ({| roaring_bits := r.1 |}, r.2);
     serializable := fun x => bit_vector_serializable (roaring_bits x);
     load_serialize := load_serialize_roaring_set |}.

Definition bit_magic_set_format : Serializable bit_magic_set :=
  {| serialize := fun x => serialize_bit_vector (bit_magic_bits x);
     load := fun input =>
       r ← load_bit_vector input; Ret ({| bit_magic_bits := r.1 |}, r.2);
     serializable := fun x => bit_vector_serializable (bit_magic_bits x);
     load_serialize := load_serialize_bit_magic_set |}.

Definition roaring_sets : Color_Set_Interface roaring_set :=
  {| colorset_name := Roaring_Color_Set;
     colorset_default := {| roaring_bits := [] |};
     colorset_of_vector := fun v => {| roaring_bits := Layout.bitmap_of v |};
     colorset_colors := fun x => Ret (colors_of_bits (roaring_bits x));
     colorset_serializable := roaring_set_format |}.

Definition bit_magic_sets : Color_Set_Interface bit_magic_set :=
  {| colorset_name := Bit_Magic_Color_Set;
     colorset_default := {| bit_magic_bits := [] |};
     colorset_of_vector := fun v => {| bit_magic_bits := Layout.bitmap_of v |};
     colorset_colors := fun x => Ret (colors_of_bits (bit_magic_bits x));
     colorset_serializable := bit_magic_set_format |}.

End Format_Instances.

Section Witnesses.
Import Examples.
#[local] Existing Instance floor_libm.
#[local] Existing Instance bit_vector_format.
#[local] Existing Instance int_vector_format.
#[local] Existing Instance string_format.
#[local] Existing Instance rank_support_format.
#[local] Existing Instance roaring_sets.
#[local] Existing Instance bit_magic_sets.

Lemma example_coloring_serializable : coloring_serializable example_coloring.
Proof.
  unfold coloring_serializable, Color_Set_Storage.storage_serializable,
    Sparse_Uint_Array.array_serializable.
  cbn [serializable bit_vector_format int_vector_format string_format rs_serializable
       rank_support_format].
  unfold Archive_Format.string_serializable, Archive_Format.bit_vector_serializable,
    Archive_Format.int_vector_serializable, Archive_Format.rank_support_serializable.
  repeat split; try (vm_compute; (reflexivity || discriminate)).
  all: vm_compute; repeat constructor; discriminate.
Defined.

Lemma coloring_serialize_load_witness :
  exists bytes (c' : Coloring.t Color_Set_Storage.t),
    Coloring.serialize_coloring example_coloring = Ret bytes
    /\ Coloring.load_coloring_from Coloring.default (bytes ++ []) example_index = Ret (c', [])
    /\ Coloring.number_of_distinct_color_sets c'
       = Coloring.number_of_distinct_color_sets example_coloring
    /\ Coloring.largest_color c' = Coloring.largest_color example_coloring
    /\ Coloring.sum_of_all_distinct_color_set_lengths c'
       = Coloring.sum_of_all_distinct_color_set_lengths example_coloring
    /\ (forall id, Coloring.get_color_set_as_vector_by_color_set_id c' id
                   = Coloring.get_color_set_as_vector_by_color_set_id example_coloring id)
    /\ (Coloring.index_ptr example_coloring = Some example_index ->
        forall fuel node,
          Coloring.get_color_set_id fuel c' node
          = Coloring.get_color_set_id fuel example_coloring node
          /\ Coloring.get_color_set_of_node_as_vector fuel c' node
             = Coloring.get_color_set_of_node_as_vector fuel example_coloring node).
Proof.
  apply (coloring_serialize_load example_coloring Coloring.default example_index []).
  apply example_coloring_serializable.
Defined.

Lemma get_color_set_id_walk_witness :
  (exists fuel, Coloring.get_color_set_id fuel example_coloring 0 = Some (Ret 1))
  /\ (exists fuel e, Coloring.get_color_set_id fuel example_coloring 3 = Some (Throw e))
  /\ Coloring.follow_edge example_index 1 = Coloring.successor example_index 1 SBWT.C.
Proof.
  split; [| split].
  - apply (proj1 (proj2 (get_color_set_id_walk example_coloring example_index 0 eq_refl)) 1).
    exists 2. split; [| split; reflexivity].
    apply (Coloring.walk_edge _ _ 0 1 2); [reflexivity | reflexivity |].
    apply (Coloring.walk_edge _ _ 1 2 2); [reflexivity | reflexivity |].
    apply Coloring.walk_here.
  - apply (proj1 (proj2 (proj2 (get_color_set_id_walk example_coloring example_index 3
                                  eq_refl)))).
    exists 3. split; [apply Coloring.walk_here |]. split; [reflexivity |].
    intros []; reflexivity.
  - apply (proj2 (proj2 (proj2 (proj2 (get_color_set_id_walk example_coloring example_index
                                         0 eq_refl))))).
    + reflexivity.
    + intros [] Hne; (reflexivity || by destruct Hne).
Defined.

(** A coloring with two roaring color sets, and what follows its type id in
    the archive. *)
Definition example_roaring_coloring : Coloring.t (Generic_Storage.t roaring_set) :=
  {| Coloring.sets :=
       {| Generic_Storage.sets :=
            [{| roaring_bits := [true; false; true] |}; {| roaring_bits := [false; true] |}] |};
     Coloring.node_id_to_color_set_id := example_map;
     Coloring.index_ptr := Some example_index;
     Coloring.largest_color_id := 2;
     Coloring.total_color_set_length := 3 |}.

Definition example_roaring_body : stream :=
  storage_serialize (Coloring.sets example_roaring_coloring)
  ++ Sparse_Uint_Array.serialize_array example_map
  ++ write_int64 2
  ++ write_int64 3.

Lemma load_type_id_dispatch_witness :
  Coloring.load_coloring_from (Coloring.default : Coloring.t Color_Set_Storage.t)
    (serialize "roaring-v0"%string ++ example_roaring_body) example_index
  = Throw WrongTemplateParameterException
  /\ Load_Coloring.load_coloring (roaring := roaring_set) (bit_magic := bit_magic_set)
       (serialize "roaring-v0"%string ++ example_roaring_body) example_index
     = Ret (Load_Coloring.Coloring_Roaring_Color_Set example_roaring_coloring)
  /\ Load_Coloring.load_coloring (roaring := roaring_set) (bit_magic := bit_magic_set)
       (serialize "roaring-v1"%string ++ example_roaring_body) example_index
     = Throw (runtime_error "Unknown color set type:roaring-v1").
Proof.
  pose proof (load_type_id_dispatch (roaring := roaring_set) (bit_magic := bit_magic_set))
    as (Hload & Hroaring & _ & Hunknown).
  split; [| split].
  - apply (Hload Color_Set_Storage.t _ Coloring.default "roaring-v0"%string);
      [vm_compute; reflexivity | by right; left | discriminate].
  - rewrite Hroaring by (vm_compute; reflexivity). vm_compute. reflexivity.
  - apply (Hunknown "roaring-v1"%string); [vm_compute; reflexivity |].
    by intros [? | [? | ?]].
Defined.

End Witnesses.

(** ** The cases of the tests

    The vectors of test_color_set.hh, given to the hybrid color set, with a C
    library whose [log2] returns, where the tests call it, the double nearest
    to the logarithm. The last case uses the multiples of 3 below 1000 where
    the test goes up to 10000. *)

Section Test_Cases.

Import Examples.
Context {libm : Libm}.

Hypothesis log2_998 :
  log2 (double_of_int 998) = S754_finite false 5608611842145986 (-49).
Hypothesis log2_999 :
  log2 (double_of_int 999) = S754_finite false 5609425227397817 (-49).
Hypothesis log2_5000 :
  log2 (double_of_int 5000) = S754_finite false 6917367111721841 (-49).
Hypothesis log2_8903 :
  log2 (double_of_int 8903) = S754_finite false 7385946083292290 (-49).

Lemma dense_998_500 : dense 998 500 = true.
Proof. unfold dense. rewrite log2_998. vm_compute. reflexivity. Qed.

Lemma dense_999_334 : dense 999 334 = true.
Proof. unfold dense. rewrite log2_999. vm_compute. reflexivity. Qed.

Lemma dense_999_6 : dense 999 6 = false.
Proof. unfold dense. rewrite log2_999. vm_compute. reflexivity. Qed.

Lemma dense_5000_4 : dense 5000 4 = false.
Proof. unfold dense. rewrite log2_5000. vm_compute. reflexivity. Qed.

Lemma dense_8903_4 : dense 8903 4 = false.
Proof. unfold dense. rewrite log2_8903. vm_compute. reflexivity. Qed.

(** The constructor is run with the test decided, for a vector with largest
    element [m] for which the test is [d]. *)
Ltac construct v m d :=
  rewrite (Color_Set_of_vector_test v m eq_refl);
  rewrite (d : dense m (Z.of_nat (length v)) = _).

Example test_sparse :
  describe [4; 1534; 4003; 8903] = Ret (false, 4, [4; 1534; 4003; 8903])
  /\ contains_of_vector [4; 1534; 4003; 8903] 4 = Ret true
  /\ contains_of_vector [4; 1534; 4003; 8903] 5 = Ret false.
Proof.
  unfold describe, contains_of_vector.
  construct [4; 1534; 4003; 8903] 8903 dense_8903_4.
  split_and!; vm_compute; reflexivity.
Qed.

Example test_dense :
  describe (get_dense_example 3 1000) = Ret (true, 334, get_dense_example 3 1000)
  /\ contains_of_vector (get_dense_example 3 1000) 999 = Ret true
  /\ contains_of_vector (get_dense_example 3 1000) 998 = Ret false.
Proof.
  unfold describe, contains_of_vector.
  construct (get_dense_example 3 1000) 999 dense_999_334.
  split_and!; vm_compute; reflexivity.
Qed.

Example test_sparse_vs_sparse :
  intersection_of_vectors [4; 1534; 4003; 8903] [4; 2000; 4003; 5000] = Ret [4; 4003].
Proof.
  unfold intersection_of_vectors.
  construct [4; 1534; 4003; 8903] 8903 dense_8903_4.
  construct [4; 2000; 4003; 5000] 5000 dense_5000_4.
  vm_compute. reflexivity.
Qed.

Example test_dense_vs_dense :
  intersection_of_vectors (get_dense_example 2 1000) (get_dense_example 3 1000)
  = Ret (get_dense_example 6 1000).
Proof.
  unfold intersection_of_vectors.
  construct (get_dense_example 2 1000) 998 dense_998_500.
  construct (get_dense_example 3 1000) 999 dense_999_334.
  vm_compute. reflexivity.
Qed.

Example test_dense_vs_sparse :
  intersection_of_vectors (get_dense_example 3 1000) [3; 4; 5; 300; 601; 999]
  = Ret [3; 300; 999].
Proof.
  unfold intersection_of_vectors.
  construct (get_dense_example 3 1000) 999 dense_999_334.
  construct [3; 4; 5; 300; 601; 999] 999 dense_999_6.
  vm_compute. reflexivity.
Qed.

End Test_Cases.

(** * More of the code *)

(** ** The accessors of a color set *)

Section Color_Set_Facts.
Import Layout Examples Views.
Context {libm : Libm}.

Lemma for_loop_S {A} (n : nat) (body : Z -> A -> outcome A) init :
  Hybrid.for_loop (Z.of_nat (S n)) body init
  = (a ← Hybrid.for_loop (Z.of_nat n) body init; body (Z.of_nat n) a).
Proof.
  unfold Hybrid.for_loop. rewrite seqZ_S, foldl_app. simpl. by rewrite Z.add_0_l.
Qed.

Lemma for_loop_0 {A} (body : Z -> A -> outcome A) init :
  Hybrid.for_loop 0 body init = Ret init.
Proof. reflexivity. Qed.

Lemma for_loop_invariant {A} (P : nat -> A -> Prop) (n : nat) (body : Z -> A -> outcome A) init :
  P 0%nat init ->
  (forall (i : nat) a, (i < n)%nat -> P i a -> exists a', body (Z.of_nat i) a = Ret a' /\ P (S i) a') ->
  exists a, Hybrid.for_loop (Z.of_nat n) body init = Ret a /\ P n a.
Proof.
  intros H0 Hstep. induction n as [| n IH].
  - exists init. by rewrite for_loop_0.
  - destruct IH as (a & Ha & HP); [intros i b Hi; apply Hstep; lia |].
    destruct (Hstep n a) as (a' & Ha' & HP'); [lia | done |].
    exists a'. by rewrite for_loop_S, Ha.
Qed.

Lemma for_loop_ext {A} (n : nat) (body1 body2 : Z -> A -> outcome A) init :
  (forall (i : nat) a, (i < n)%nat -> body1 (Z.of_nat i) a = body2 (Z.of_nat i) a) ->
  Hybrid.for_loop (Z.of_nat n) body1 init = Hybrid.for_loop (Z.of_nat n) body2 init.
Proof.
  intros Hext. induction n as [| n IH]; [done |].
  rewrite !for_loop_S, IH by (intros; apply Hext; lia).
  destruct (Hybrid.for_loop (Z.of_nat n) body2 init); simpl; try done. apply Hext. lia.
Qed.

Lemma colors_of_bits_snoc (bv : list bool) b :
  colors_of_bits (bv ++ [b])
  = colors_of_bits bv ++ (if b : bool then [Z.of_nat (length bv)] else []).
Proof.
  unfold colors_of_bits. rewrite imap_app, filter_app, fmap_app. f_equal.
  simpl. rewrite Nat.add_0_r. destruct b; reflexivity.
Qed.

Lemma colors_of_bits_elem (bv : list bool) c :
  c ∈ colors_of_bits bv <-> 0 <= c /\ bv !! Z.to_nat c = Some true.
Proof.
  induction bv as [| b bv IH] using rev_ind.
  - split; [by intros ?%elem_of_nil | by intros [_ ?]].
  - rewrite colors_of_bits_snoc, elem_of_app, IH. split.
    + intros [[? Hl] | Hc].
      * split; [done |]. rewrite lookup_app_l; [done | by eapply lookup_lt_Some].
      * destruct b; [| by apply elem_of_nil in Hc].
        apply list_elem_of_singleton in Hc as ->. split; [lia |].
        rewrite Nat2Z.id. by rewrite lookup_app_r, Nat.sub_diag by lia.
    + intros [Hc Hl]. destruct (decide (Z.to_nat c < length bv)%nat) as [Hlt | Hge].
      * left. by rewrite lookup_app_l in Hl.
      * right. rewrite lookup_app_r in Hl by lia.
        destruct (Z.to_nat c - length bv)%nat as [| k] eqn:Hk; [| by destruct k].
        simpl in Hl. injection Hl as ->. apply list_elem_of_singleton. lia.
Qed.

Lemma colors_of_bits_bound (bv : list bool) c : c ∈ colors_of_bits bv -> 0 <= c < Z.of_nat (length bv).
Proof.
  intros [? Hl]%colors_of_bits_elem. apply lookup_lt_Some in Hl. lia.
Qed.

Lemma colors_of_bits_sorted (bv : list bool) : StronglySorted Z.lt (colors_of_bits bv).
Proof.
  induction bv as [| b bv IH] using rev_ind; [constructor |].
  rewrite colors_of_bits_snoc. destruct b; [| by rewrite app_nil_r].
  apply StronglySorted_app_2; [| done | repeat constructor].
  intros x y Hx ->%list_elem_of_singleton. by apply colors_of_bits_bound in Hx as [_ ?].
Qed.

Lemma colors_of_bits_length (bv : list bool) : Z.of_nat (length (colors_of_bits bv)) = sdsl.popcount bv.
Proof.
  unfold sdsl.popcount. f_equal.
  induction bv as [| b bv IH] using rev_ind; [done |].
  rewrite colors_of_bits_snoc, filter_app, !length_app, IH. f_equal.
  by destruct b.
Qed.

Lemma strictly_sorted_NoDup (l : list Z) : StronglySorted Z.lt l -> NoDup l.
Proof.
  induction 1 as [| x l _ IH Hx]; constructor; [| done].
  intros Hin. pose proof (proj1 (Forall_forall _ _) Hx x Hin). lia.
Qed.

(** A strictly increasing list of non-negative colors is the list of the set
    bits of its bitmap. *)
Lemma colors_of_bitmap_of set :
  valid_colors set -> StronglySorted Z.lt set -> colors_of_bits (bitmap_of set) = set.
Proof.
  intros Hvalid Hsorted.
  apply (StronglySorted_unique_strong Z.lt); [lia | apply colors_of_bits_sorted | done |].
  apply NoDup_Permutation.
  - apply strictly_sorted_NoDup, colors_of_bits_sorted.
  - by apply strictly_sorted_NoDup.
  - intros c. rewrite colors_of_bits_elem. split.
    + intros [Hc Hl].
      pose proof (bitmap_of_lookup_default set c Hvalid Hc) as Hd.
      rewrite Hl in Hd. simpl in Hd. symmetry in Hd. by apply bool_decide_eq_true in Hd.
    + intros Hin. destruct Hvalid as [Hne Hall].
      pose proof (proj1 (Forall_forall _ _) Hall c Hin) as [Hc _].
      split; [done |].
      rewrite bitmap_of_lookup.
      * f_equal. by apply bool_decide_eq_true.
      * eapply Forall_impl; [done | simpl; lia].
      * split; [done | by apply largest_ge].
Qed.

Lemma span_lookup {A} (l : list A) (s n k : nat) :
  (k < n)%nat -> take n (drop s l) !! k = l !! (s + k)%nat.
Proof. intros Hk. by rewrite lookup_take_lt, lookup_drop by done. Qed.

Lemma span_length {A} (l : list A) (s n : nat) :
  (s + n <= length l)%nat -> length (take n (drop s l)) = n.
Proof. intros Hn. rewrite length_take, length_drop. lia. Qed.

Lemma bits_of_view_length cs :
  in_bounds cs -> Hybrid.colorset_is_bitmap cs = true ->
  Z.of_nat (length (bits_of_view cs)) = Hybrid.length cs.
Proof.
  intros (Hs & Hl & Hb). unfold Hybrid.colorset_is_bitmap, bits_of_view.
  destruct (Hybrid.data_ptr cs) as [bv | iv]; [intros _ | done].
  simpl in Hb. rewrite span_length; lia.
Qed.

Lemma values_of_view_length cs :
  in_bounds cs -> Hybrid.colorset_is_bitmap cs = false ->
  Z.of_nat (length (values_of_view cs)) = Hybrid.length cs.
Proof.
  intros (Hs & Hl & Hb). unfold Hybrid.colorset_is_bitmap, values_of_view.
  destruct (Hybrid.data_ptr cs) as [bv | iv]; [done | intros _].
  simpl in Hb. unfold sdsl.size in Hb. rewrite length_fmap, span_length; lia.
Qed.

Lemma access_bitmap_in_bounds cs (k : nat) :
  in_bounds cs -> Hybrid.colorset_is_bitmap cs = true ->
  (k < length (bits_of_view cs))%nat ->
  exists b, bits_of_view cs !! k = Some b
    /\ Hybrid.colorset_access_bitmap cs (Z.of_nat k) = Ret b.
Proof.
  intros Hin Hbm Hk. pose proof (bits_of_view_length cs Hin Hbm) as Hlen.
  destruct (lookup_lt_is_Some_2 _ _ Hk) as [b Hb]. exists b. split; [done |].
  destruct Hin as (Hs & Hl & Hbound).
  unfold Hybrid.colorset_is_bitmap in Hbm.
  unfold bits_of_view in Hb, Hlen, Hk. unfold Hybrid.colorset_access_bitmap, sdsl.bit.
  destruct (Hybrid.data_ptr cs) as [bv | iv]; [| done].
  rewrite span_lookup in Hb by lia.
  replace (Hybrid.start cs + Z.of_nat k)
    with (Z.of_nat (Z.to_nat (Hybrid.start cs) + k)) by lia.
  by rewrite at_index_nat, Hb.
Qed.

Lemma access_array_in_bounds cs (k : nat) :
  in_bounds cs -> Hybrid.colorset_is_bitmap cs = false ->
  (k < length (values_of_view cs))%nat ->
  exists x, values_of_view cs !! k = Some x
    /\ Hybrid.colorset_access_array cs (Z.of_nat k) = Ret x.
Proof.
  intros Hin Hbm Hk. pose proof (values_of_view_length cs Hin Hbm) as Hlen.
  destruct (lookup_lt_is_Some_2 _ _ Hk) as [x Hx]. exists x. split; [done |].
  destruct Hin as (Hs & Hl & Hbound).
  unfold Hybrid.colorset_is_bitmap in Hbm.
  unfold values_of_view in Hx, Hlen, Hk.
  unfold Hybrid.colorset_access_array, sdsl.get_int64, sdsl.get.
  destruct (Hybrid.data_ptr cs) as [bv | iv]; [done |].
  rewrite list_lookup_fmap in Hx. rewrite length_fmap in Hlen, Hk.
  rewrite span_lookup in Hx by lia.
  replace (Hybrid.start cs + Z.of_nat k)
    with (Z.of_nat (Z.to_nat (Hybrid.start cs) + k)) by lia.
  rewrite at_index_nat.
  destruct (sdsl.elements iv !! (Z.to_nat (Hybrid.start cs) + k)%nat) as [v |]; [| done].
  simpl in *. by injection Hx as ->.
Qed.

Lemma get_colors_in_bounds cs :
  in_bounds cs -> Hybrid.colorset_get_colors_as_vector cs = Ret (colors_of cs).
Proof.
  intros Hin. unfold Hybrid.colorset_get_colors_as_vector, colors_of.
  destruct (Hybrid.colorset_is_bitmap cs) eqn:Hbm.
  - pose proof (bits_of_view_length cs Hin Hbm) as Hlen. rewrite <- Hlen.
    destruct (for_loop_invariant
      (fun i vec => vec = colors_of_bits (take i (bits_of_view cs)))
      (length (bits_of_view cs))
      (fun i vec => b ← Hybrid.colorset_access_bitmap cs i;
                    Ret (if b : bool then vec ++ [i] else vec)) [])
      as (vec & -> & ->); [done | | by rewrite firstn_all].
    intros i vec Hi ->.
    destruct (access_bitmap_in_bounds cs i Hin Hbm Hi) as (b & Hb & ->). simpl.
    eexists; split; [done |].
    rewrite (take_S_r _ _ _ Hb), colors_of_bits_snoc, length_take_le by lia.
    destruct b; [done | by rewrite app_nil_r].
  - pose proof (values_of_view_length cs Hin Hbm) as Hlen. rewrite <- Hlen.
    destruct (for_loop_invariant
      (fun i vec => vec = take i (values_of_view cs))
      (length (values_of_view cs))
      (fun i vec => c ← Hybrid.colorset_access_array cs i; Ret (vec ++ [c])) [])
      as (vec & -> & ->); [done | | by rewrite firstn_all].
    intros i vec Hi ->.
    destruct (access_array_in_bounds cs i Hin Hbm Hi) as (x & Hx & ->). simpl.
    eexists; split; [done |]. by rewrite (take_S_r _ _ _ Hx).
Qed.

Lemma size_in_bounds cs :
  in_bounds cs -> Hybrid.colorset_size cs = Ret (Z.of_nat (length (colors_of cs))).
Proof.
  intros Hin. unfold Hybrid.colorset_size, colors_of.
  destruct (Hybrid.colorset_is_bitmap cs) eqn:Hbm.
  - pose proof (bits_of_view_length cs Hin Hbm) as Hlen. rewrite <- Hlen.
    destruct (for_loop_invariant
      (fun i count => count = Z.of_nat (length (colors_of_bits (take i (bits_of_view cs)))))
      (length (bits_of_view cs))
      (fun i count => b ← Hybrid.colorset_access_bitmap cs i; Ret (count + Z.b2z b)) 0)
      as (count & -> & ->); [done | | by rewrite firstn_all].
    intros i count Hi ->.
    destruct (access_bitmap_in_bounds cs i Hin Hbm Hi) as (b & Hb & ->). simpl.
    eexists; split; [done |].
    rewrite (take_S_r _ _ _ Hb), colors_of_bits_snoc, length_app.
    destruct b; simpl; lia.
  - by rewrite (values_of_view_length cs Hin Hbm).
Qed.

Lemma scan_in_bounds cs color :
  in_bounds cs -> Hybrid.colorset_is_bitmap cs = false ->
  forall (fuel i : nat), (i + fuel = length (values_of_view cs))%nat ->
  Hybrid.scan cs color (Z.of_nat i) fuel
  = Ret (bool_decide (color ∈ drop i (values_of_view cs))).
Proof.
  intros Hin Hbm. induction fuel as [| fuel IH]; intros i Hi.
  - simpl. rewrite drop_ge by lia. rewrite bool_decide_false; [done |]. by intros ?%elem_of_nil.
  - simpl.
    destruct (access_array_in_bounds cs i Hin Hbm) as (x & Hx & ->); [lia |]. simpl.
    rewrite (drop_S _ _ _ Hx).
    destruct (decide (x = color)) as [-> | Hne].
    + rewrite bool_decide_true; [done | by left].
    + replace (Z.of_nat i + 1) with (Z.of_nat (S i)) by lia. rewrite IH by lia.
      f_equal. apply bool_decide_ext. rewrite elem_of_cons.
      split; [by right | by intros [? | ?]].
Qed.

Lemma contains_in_bounds cs c :
  in_bounds cs -> 0 <= c ->
  Hybrid.colorset_contains cs c = Ret (bool_decide (c ∈ colors_of cs)).
Proof.
  intros Hin Hc. unfold Hybrid.colorset_contains, colors_of.
  destruct (Hybrid.colorset_is_bitmap cs) eqn:Hbm.
  - pose proof (bits_of_view_length cs Hin Hbm) as Hlen.
    destruct (decide (c >= Hybrid.length cs)) as [Hge | Hlt].
    + rewrite bool_decide_false; [done |]. intros ?%colors_of_bits_bound. lia.
    + destruct (access_bitmap_in_bounds cs (Z.to_nat c) Hin Hbm) as (b & Hb & Hacc); [lia |].
      rewrite Z2Nat.id in Hacc by done. rewrite Hacc. f_equal.
      destruct b.
      * rewrite bool_decide_true; [done |]. by apply colors_of_bits_elem.
      * rewrite bool_decide_false; [done |]. intros [_ Hl]%colors_of_bits_elem. congruence.
  - pose proof (values_of_view_length cs Hin Hbm) as Hlen. rewrite <- Hlen, Nat2Z.id.
    change 0 with (Z.of_nat 0).
    by rewrite (scan_in_bounds cs c Hin Hbm (length (values_of_view cs)) 0%nat).
Qed.

Lemma concat_span {A} (chunks : list (list A)) (j : nat) chunk :
  chunks !! j = Some chunk ->
  take (length chunk) (drop (length (concat (take j chunks))) (concat chunks)) = chunk.
Proof.
  intros Hj.
  assert (concat chunks = concat (take j chunks) ++ chunk ++ concat (drop (S j) chunks)) as Heq.
  { rewrite <- concat_cons, <- concat_app. by rewrite take_drop_middle. }
  rewrite Heq. by rewrite drop_app_length, take_app_length.
Qed.

Lemma chunk_view_in_bounds {A} data (chunks : list (list A)) (j : nat) chunk :
  chunks !! j = Some chunk ->
  data_size data = Z.of_nat (length (concat chunks)) ->
  in_bounds (chunk_view data chunks j).
Proof.
  intros Hj Hsize. unfold in_bounds. rewrite (chunk_view_length _ _ _ _ Hj). simpl.
  rewrite Hsize. split; [lia |]. split; [lia |].
  assert (concat chunks = concat (take j chunks) ++ chunk ++ concat (drop (S j) chunks)) as Heq.
  { rewrite <- concat_cons, <- concat_app. by rewrite take_drop_middle. }
  rewrite Heq, !length_app. lia.
Qed.

Lemma colors_of_bitmap_chunk (chunks : list (list bool)) (j : nat) chunk :
  chunks !! j = Some chunk ->
  colors_of (chunk_view (Hybrid.Bitmap (concat chunks)) chunks j) = colors_of_bits chunk.
Proof.
  intros Hj. unfold colors_of, bits_of_view. simpl Hybrid.colorset_is_bitmap. cbv iota.
  rewrite (chunk_view_length _ _ _ _ Hj). simpl. by rewrite !Nat2Z.id, concat_span.
Qed.

Lemma colors_of_array_chunk w (chunks : list (list Z)) (j : nat) chunk :
  chunks !! j = Some chunk -> Forall (fun c => 0 <= c < 2 ^ 63) chunk ->
  colors_of (chunk_view (Hybrid.Array {| sdsl.width := w; sdsl.elements := concat chunks |})
                        chunks j) = chunk.
Proof.
  intros Hj Hall. unfold colors_of, values_of_view. simpl Hybrid.colorset_is_bitmap. cbv iota.
  rewrite (chunk_view_length _ _ _ _ Hj). simpl. rewrite !Nat2Z.id, concat_span by done.
  rewrite <- (list_fmap_id chunk) at 2. apply Forall_fmap_ext_1.
  eapply Forall_impl; [done |]. intros x Hx. by apply to_int64_small.
Qed.

(** The view of a stored set: in bounds, of the representation the rule
    picks, and with the colors of the set. *)
Lemma built_view sets st (id : nat) set :
  Forall valid_colors sets -> fits sets ->
  Color_Set_Storage.build sets = Ret st ->
  sets !! id = Some set ->
  exists view,
    Color_Set_Storage.get_color_set_by_id st (Z.of_nat id) = Ret view
    /\ in_bounds view
    /\ Hybrid.colorset_is_bitmap view = is_dense set
    /\ colors_of view = if is_dense set then colors_of_bits (bitmap_of set) else set.
Proof.
  intros Hall Hfits Hbuild Hid.
  destruct (build_spec sets Hall Hfits)
    as (st0 & wb & wc & wa & Hb & Hbc & Hbs & Hac & Has & Hm & Hrs).
  rewrite Hbuild in Hb. injection Hb as <-.
  assert (valid_colors set) as Hv.
  { rewrite Forall_lookup in Hall. by eapply Hall. }
  destruct (get_color_set_by_id_built sets st id set Hall Hfits Hbuild Hid) as (_ & _ & Hget).
  destruct (is_dense set).
  - destruct Hget as [Hchunk ->]. eexists. split; [done |]. rewrite Hbc.
    split; [by eapply chunk_view_in_bounds |]. split; [done |].
    by apply colors_of_bitmap_chunk.
  - destruct Hget as [Hchunk ->]. eexists. split; [done |]. rewrite Hac.
    split; [by eapply chunk_view_in_bounds |]. split; [done |].
    apply colors_of_array_chunk; [done | apply Hv].
Qed.

Lemma colors_of_sorted set :
  valid_colors set -> StronglySorted Z.lt set ->
  (if is_dense set then colors_of_bits (bitmap_of set) else set) = set.
Proof. intros Hv Hs. destruct (is_dense set); [by apply colors_of_bitmap_of | done]. Qed.

Lemma colors_of_elem set c :
  valid_colors set ->
  c ∈ (if is_dense set then colors_of_bits (bitmap_of set) else set) <-> c ∈ set.
Proof.
  intros Hv. destruct (is_dense set); [| done].
  rewrite colors_of_bits_elem. split.
  - intros [Hc Hl]. pose proof (bitmap_of_lookup_default set c Hv Hc) as Hd.
    rewrite Hl in Hd. simpl in Hd. symmetry in Hd. by apply bool_decide_eq_true in Hd.
  - intros Hin. destruct Hv as [Hne Hall].
    pose proof (proj1 (Forall_forall _ _) Hall c Hin) as [Hc _].
    split; [done |]. rewrite bitmap_of_lookup.
    + f_equal. by apply bool_decide_eq_true.
    + eapply Forall_impl; [done | simpl; lia].
    + split; [done | by apply largest_ge].
Qed.

(** What the constructor from a vector builds. *)
Lemma Color_Set_of_vector_built set :
  valid_colors set ->
  exists cs, Hybrid.Color_Set_of_vector set = Ret cs
    /\ in_bounds cs
    /\ Hybrid.start cs = 0
    /\ Hybrid.colorset_is_bitmap cs = is_dense set
    /\ colors_of cs = if is_dense set then colors_of_bits (bitmap_of set) else set.
Proof.
  intros Hv. pose proof (largest_nonneg set Hv) as Hl.
  unfold Hybrid.Color_Set_of_vector.
  rewrite max_element_largest by apply Hv. simpl. fold (is_dense set).
  destruct (is_dense set).
  - rewrite set_bits_bitmap_of by done. simpl. eexists. split; [done |].
    split; [unfold in_bounds, data_size; simpl; lia |]. split; [done |]. split; [done |].
    unfold colors_of, bits_of_view. simpl. by rewrite Nat2Z.id, drop_0, firstn_all.
  - rewrite (assign_spec set _ 0 [] (replicate (length set) (0 `mod` 2 ^ 64)) []);
      simpl; [| by rewrite Nat2Z.id, app_nil_r | done | by rewrite length_replicate].
    eexists. split; [done |]. rewrite app_nil_r.
    split; [unfold in_bounds, data_size, sdsl.size; simpl; rewrite length_fmap; lia |]. split; [done |]. split; [done |].
    unfold colors_of, values_of_view, sdsl.size. simpl.
    rewrite Nat2Z.id, drop_0, firstn_all, <- list_fmap_compose.
    rewrite <- (list_fmap_id set) at 2. apply Forall_fmap_ext_1.
    destruct Hv as [_ Hall]. eapply Forall_impl; [done |]. intros x Hx. simpl in *.
    rewrite Z.mod_small by lia. apply to_int64_small. lia.
Qed.

Lemma insert_take_replicate {A} (l : list A) d (i : nat) x :
  l !! i = Some x ->
  <[i := x]> (take i l ++ replicate (length l - i) d)
  = take (S i) l ++ replicate (length l - S i) d.
Proof.
  intros Hi. pose proof (lookup_lt_Some _ _ _ Hi) as Hlt.
  rewrite insert_app_r_alt by (rewrite length_take; lia).
  rewrite length_take_le, Nat.sub_diag by lia.
  replace (length l - i)%nat with (S (length l - S i)) by lia. simpl.
  rewrite (take_S_r _ _ _ Hi), <- app_assoc. done.
Qed.

Lemma raw_values_of_view cs iv :
  Hybrid.data_ptr cs = Hybrid.Array iv ->
  values_of_view cs
  = to_int64 <$> take (Z.to_nat (Hybrid.length cs))
                      (drop (Z.to_nat (Hybrid.start cs)) (sdsl.elements iv)).
Proof. intros Hd. unfold values_of_view. by rewrite Hd. Qed.

(** The copy of a view: a set that starts at 0 and spans the same bits or
    values. *)
Lemma Color_Set_of_view_built view :
  in_bounds view -> data_wf (Hybrid.data_ptr view) ->
  exists cs, Hybrid.Color_Set_of_view view = Ret cs
    /\ in_bounds cs
    /\ Hybrid.start cs = 0
    /\ Hybrid.length cs = Hybrid.length view
    /\ Hybrid.colorset_is_bitmap cs = Hybrid.colorset_is_bitmap view
    /\ colors_of cs = colors_of view.
Proof.
  intros Hin Hwf. pose proof Hin as (Hs & Hl & Hb).
  unfold Hybrid.Color_Set_of_view. rewrite decide_False by lia.
  destruct (Hybrid.data_ptr view) as [from | from] eqn:Hd.
  - assert (Hybrid.colorset_is_bitmap view = true) as Hbm
      by (unfold Hybrid.colorset_is_bitmap; by rewrite Hd).
    pose proof (bits_of_view_length view Hin Hbm) as Hlen.
    set (bits := bits_of_view view) in *. rewrite <- Hlen.
    destruct (for_loop_invariant (A := sdsl.bit_vector)
      (fun i to => to = take i bits ++ replicate (length bits - i) false)
      (length bits)
      (fun i (to : sdsl.bit_vector) =>
         b ← sdsl.bit from (Hybrid.start view + i); sdsl.set_bit to i b)
      (replicate (Z.to_nat (Z.of_nat (length bits))) false))
      as (to & Hto & ->).
    + simpl. by rewrite Nat.sub_0_r, Nat2Z.id.
    + intros i to Hi ->.
      destruct (access_bitmap_in_bounds view i Hin Hbm Hi) as (b & Hbit & Hacc).
      unfold Hybrid.colorset_access_bitmap in Hacc. rewrite Hd in Hacc. rewrite Hacc. simpl.
      unfold sdsl.set_bit. rewrite decide_True.
      * eexists. split; [done |]. rewrite Nat2Z.id. by apply insert_take_replicate.
      * rewrite length_app, length_take, length_replicate. lia.
    + rewrite Hto. simpl. rewrite Nat.sub_diag, firstn_all, app_nil_r.
      eexists. split; [done |].
      split; [unfold in_bounds, data_size; simpl; lia |].
      split; [done |]. split; [done |]. split; [by rewrite Hbm |].
      unfold colors_of. rewrite Hbm. simpl. f_equal.
      unfold bits_of_view at 1. simpl. by rewrite Nat2Z.id, drop_0, firstn_all.
  - assert (Hybrid.colorset_is_bitmap view = false) as Hbm
      by (unfold Hybrid.colorset_is_bitmap; by rewrite Hd).
    simpl in Hwf, Hb. unfold sdsl.size in Hb.
    set (raw := take (Z.to_nat (Hybrid.length view))
                     (drop (Z.to_nat (Hybrid.start view)) (sdsl.elements from))).
    assert (length raw = Z.to_nat (Hybrid.length view)) as Hlen
      by (unfold raw; rewrite span_length; lia).
    assert (Forall (fun x => 0 <= x < 2 ^ sdsl.width from) raw) as Hraw.
    { unfold raw. by apply Forall_take, Forall_drop. }
    replace (Hybrid.length view) with (Z.of_nat (length raw)) by lia.
    destruct (for_loop_invariant
      (fun i to => to = {| sdsl.width := sdsl.width from;
                           sdsl.elements := take i raw ++ replicate (length raw - i) 0 |})
      (length raw)
      (fun i to => x ← sdsl.get from (Hybrid.start view + i); sdsl.set to i x)
      (sdsl.int_vector_make (Z.of_nat (length raw)) 0 (sdsl.width from)))
      as (to & Hto & ->).
    + unfold sdsl.int_vector_make. simpl. by rewrite Nat.sub_0_r, Nat2Z.id.
    + intros i to Hi ->.
      destruct (lookup_lt_is_Some_2 raw i Hi) as [x Hx].
      assert (sdsl.get from (Hybrid.start view + Z.of_nat i) = Ret x) as ->.
      { unfold sdsl.get.
        replace (Hybrid.start view + Z.of_nat i)
          with (Z.of_nat (Z.to_nat (Hybrid.start view) + i)) by lia.
        rewrite at_index_nat. unfold raw in Hx. rewrite span_lookup in Hx by lia.
        by rewrite Hx. }
      simpl. unfold sdsl.set, sdsl.size. simpl. rewrite decide_True.
      * eexists. split; [done |]. rewrite Nat2Z.id. f_equal.
        rewrite Z.mod_small by (rewrite Forall_lookup in Hraw; by eapply Hraw).
        by apply insert_take_replicate.
      * rewrite length_app, length_take, length_replicate. lia.
    + rewrite Hto. simpl. rewrite Nat.sub_diag, firstn_all, app_nil_r.
      eexists. split; [done |].
      split; [unfold in_bounds, data_size, sdsl.size; simpl; lia |].
      split; [done |]. split; [simpl; lia |]. split; [by rewrite Hbm |].
      unfold colors_of. rewrite Hbm. simpl.
      rewrite (raw_values_of_view view from Hd). fold raw.
      unfold values_of_view. simpl. by rewrite Nat2Z.id, drop_0, firstn_all.
Qed.

Lemma empty_colors_of cs :
  in_bounds cs -> Hybrid.colorset_is_empty cs = true -> colors_of cs = [].
Proof.
  intros Hin. unfold Hybrid.colorset_is_empty. intros Hz%Z.eqb_eq.
  apply length_zero_iff_nil, Nat2Z.inj. unfold colors_of.
  destruct (Hybrid.colorset_is_bitmap cs) eqn:Hbm.
  - pose proof (bits_of_view_length cs Hin Hbm) as Hlen.
    assert (bits_of_view cs = []) as -> by (apply length_zero_iff_nil; lia). done.
  - pose proof (values_of_view_length cs Hin Hbm). lia.
Qed.

(** Property X1. For a set or view whose span lies inside its vector, the
    accessors agree: [size()] is the number of colors that
    [get_colors_as_vector()] returns, [contains(c)] is true for a
    non-negative [c] exactly when [c] is one of them, the colors of a bitmap
    come in strictly increasing order, and a set that [empty()] reports as
    empty has no colors. *)
Theorem colorset_accessors_agree cs :
  in_bounds cs ->
  exists colors,
    Hybrid.colorset_get_colors_as_vector cs = Ret colors
    /\ Hybrid.colorset_size cs = Ret (Z.of_nat (length colors))
    /\ (forall c, 0 <= c -> Hybrid.colorset_contains cs c = Ret (bool_decide (c ∈ colors)))
    /\ (Hybrid.colorset_is_bitmap cs = true -> StronglySorted Z.lt colors)
    /\ (Hybrid.colorset_is_empty cs = true -> colors = []).
Proof.
  intros Hin. exists (colors_of cs).
  split; [by apply get_colors_in_bounds |]. split; [by apply size_in_bounds |].
  split; [intros c Hc; by apply contains_in_bounds |]. split.
  - intros Hbm. unfold colors_of. rewrite Hbm. apply colors_of_bits_sorted.
  - by apply empty_colors_of.
Qed.

Lemma number_of_sets_built sets st :
  Forall valid_colors sets -> fits sets ->
  Color_Set_Storage.build sets = Ret st ->
  Color_Set_Storage.number_of_sets_stored st = Z.of_nat (length sets).
Proof.
  intros Hall Hfits Hbuild.
  destruct (build_spec sets Hall Hfits)
    as (st0 & wb & wc & wa & Hb & Hbc & Hbs & Hac & Has & Hm & Hrs).
  rewrite Hbuild in Hb. injection Hb as <-.
  unfold Color_Set_Storage.number_of_sets_stored. by rewrite Hm, length_fmap.
Qed.

(** Property X3. After [add_set] for strictly increasing vectors and
    [prepare_for_queries], [number_of_sets_stored()] is the number of
    vectors, and the view of set [i] returns vector [i] from
    [get_colors_as_vector()], its length from [size()], and is not empty. *)
Theorem storage_views_colors sets :
  Forall valid_colors sets -> Forall (StronglySorted Z.lt) sets -> fits sets ->
  exists st,
    Color_Set_Storage.build sets = Ret st
    /\ Color_Set_Storage.number_of_sets_stored st = Z.of_nat (length sets)
    /\ forall (i : nat) set, sets !! i = Some set ->
         exists view,
           Color_Set_Storage.get_color_set_by_id st (Z.of_nat i) = Ret view
           /\ Hybrid.colorset_get_colors_as_vector view = Ret set
           /\ Hybrid.colorset_size view = Ret (Z.of_nat (length set))
           /\ Hybrid.colorset_is_empty view = false.
Proof.
  intros Hall Hsorted Hfits.
  destruct (build_spec sets Hall Hfits) as (st & _ & _ & _ & Hb & _).
  exists st. split; [done |]. split; [by apply number_of_sets_built |].
  intros i set Hi.
  assert (valid_colors set) as Hv by (rewrite Forall_lookup in Hall; by eapply Hall).
  assert (StronglySorted Z.lt set) as Hs by (rewrite Forall_lookup in Hsorted; by eapply Hsorted).
  destruct (built_view sets st i set Hall Hfits Hb Hi) as (view & Hget & Hin & Hbm & Hcolors).
  rewrite colors_of_sorted in Hcolors by done.
  exists view. split; [done |].
  rewrite get_colors_in_bounds, size_in_bounds, Hcolors by done.
  split; [done |]. split; [done |].
  destruct (Hybrid.colorset_is_empty view) eqn:He; [| done].
  pose proof (empty_colors_of view Hin He) as Hnil. rewrite Hcolors in Hnil.
  by destruct Hv as [Hne _].
Qed.

(** Property X4. [Color_Set(const Color_Set_View&)] copies a view into a
    set that starts at 0, has the length and the representation of the view,
    and answers [get_colors_as_vector], [size] and [contains] as the view
    does. *)
Theorem color_set_of_view_copy view :
  in_bounds view -> data_wf (Hybrid.data_ptr view) ->
  exists cs,
    Hybrid.Color_Set_of_view view = Ret cs
    /\ Hybrid.start cs = 0
    /\ Hybrid.length cs = Hybrid.length view
    /\ Hybrid.colorset_is_bitmap cs = Hybrid.colorset_is_bitmap view
    /\ Hybrid.colorset_get_colors_as_vector cs = Hybrid.colorset_get_colors_as_vector view
    /\ Hybrid.colorset_size cs = Hybrid.colorset_size view
    /\ forall c, 0 <= c -> Hybrid.colorset_contains cs c = Hybrid.colorset_contains view c.
Proof.
  intros Hin Hwf.
  destruct (Color_Set_of_view_built view Hin Hwf) as (cs & Hcs & Hin' & Hs & Hl & Hbm & Hc).
  exists cs. split; [done |]. split; [done |]. split; [done |]. split; [done |].
  rewrite !get_colors_in_bounds, !size_in_bounds, Hc by done.
  split; [done |]. split; [done |].
  intros c Hc0. by rewrite !contains_in_bounds, Hc.
Qed.

(** Property X5. [get_all_sets()] of a storage built from strictly
    increasing vectors returns one view for each vector, in the order in which
    the vectors were added, each with the colors of its vector. *)
Theorem get_all_sets_in_order sets :
  Forall valid_colors sets -> Forall (StronglySorted Z.lt) sets -> fits sets ->
  exists st views,
    Color_Set_Storage.build sets = Ret st
    /\ Color_Set_Storage.get_all_sets st = Ret views
    /\ Forall2 (fun view set =>
                  Hybrid.colorset_get_colors_as_vector view = Ret set) views sets.
Proof.
  intros Hall Hsorted Hfits.
  destruct (build_spec sets Hall Hfits) as (st & _ & _ & _ & Hb & _).
  exists st. unfold Color_Set_Storage.get_all_sets.
  rewrite (number_of_sets_built sets st Hall Hfits Hb).
  destruct (for_loop_invariant
    (fun i all => Forall2 (fun view set =>
                    Hybrid.colorset_get_colors_as_vector view = Ret set) all (take i sets))
    (length sets)
    (fun i all => view ← Color_Set_Storage.get_color_set_by_id st i; Ret (all ++ [view])) [])
    as (views & Hviews & HP).
  - constructor.
  - intros i all Hi HP.
    destruct (lookup_lt_is_Some_2 sets i Hi) as [set Hset].
    assert (valid_colors set) as Hv by (rewrite Forall_lookup in Hall; by eapply Hall).
    assert (StronglySorted Z.lt set) as Hs
      by (rewrite Forall_lookup in Hsorted; by eapply Hsorted).
    destruct (built_view sets st i set Hall Hfits Hb Hset) as (view & -> & Hin & _ & Hc).
    simpl. eexists. split; [done |].
    rewrite (take_S_r _ _ _ Hset). apply Forall2_app; [done |].
    constructor; [| constructor].
    rewrite get_colors_in_bounds, Hc by done. f_equal. by apply colors_of_sorted.
  - exists views. rewrite firstn_all in HP. done.
Qed.

Lemma add_color_sets_vectors sets : forall css st,
  Forall valid_colors sets -> Forall (StronglySorted Z.lt) sets ->
  Forall2 (fun V cs => Hybrid.Color_Set_of_vector V = Ret cs) sets css ->
  Color_Set_Storage.add_color_sets st css = Color_Set_Storage.add_sets st sets.
Proof.
  induction sets as [| set sets IH]; intros css st Hall Hsorted Hcss.
  - by apply Forall2_nil_inv_l in Hcss as ->.
  - apply Forall2_cons_inv_l in Hcss as (cs & css' & Hcs & Hcss & ->).
    apply Forall_cons in Hall as [Hv Hall]. apply Forall_cons in Hsorted as [Hs Hsorted].
    destruct (Color_Set_of_vector_built set Hv) as (cs' & Hcs' & Hin & _ & _ & Hc).
    rewrite Hcs in Hcs'. injection Hcs' as <-.
    simpl. rewrite get_colors_in_bounds, Hc, colors_of_sorted by done. simpl.
    destruct (Color_Set_Storage.add_set st set); simpl; [by apply IH | done | done].
Qed.

(** Property X6. The storage that the constructor
    [Color_Set_Storage(const vector<Color_Set>&)] builds from color sets made
    of strictly increasing vectors is the storage that [add_set] of these
    vectors and [prepare_for_queries] build. *)
Theorem storage_of_color_sets sets css :
  Forall valid_colors sets -> Forall (StronglySorted Z.lt) sets ->
  Forall2 (fun V cs => Hybrid.Color_Set_of_vector V = Ret cs) sets css ->
  Color_Set_Storage.of_color_sets css = Color_Set_Storage.build sets.
Proof.
  intros Hall Hsorted Hcss. unfold Color_Set_Storage.of_color_sets, Color_Set_Storage.build.
  by rewrite (add_color_sets_vectors sets css).
Qed.

End Color_Set_Facts.

Section Color_Set_Witnesses.
Import Layout Examples Views.
#[local] Existing Instance floor_libm.

Lemma colorset_accessors_agree_witness :
  exists colors,
    Hybrid.colorset_get_colors_as_vector example_view = Ret colors
    /\ Hybrid.colorset_size example_view = Ret (Z.of_nat (length colors))
    /\ (forall c, 0 <= c ->
        Hybrid.colorset_contains example_view c = Ret (bool_decide (c ∈ colors)))
    /\ (Hybrid.colorset_is_bitmap example_view = true -> StronglySorted Z.lt colors)
    /\ (Hybrid.colorset_is_empty example_view = true -> colors = []).
Proof. apply colorset_accessors_agree. unfold in_bounds. simpl. lia. Defined.



Lemma storage_views_colors_witness :
  exists st,
    Color_Set_Storage.build example_sets = Ret st
    /\ Color_Set_Storage.number_of_sets_stored st = Z.of_nat (length example_sets)
    /\ forall (i : nat) set, example_sets !! i = Some set ->
         exists view,
           Color_Set_Storage.get_color_set_by_id st (Z.of_nat i) = Ret view
           /\ Hybrid.colorset_get_colors_as_vector view = Ret set
           /\ Hybrid.colorset_size view = Ret (Z.of_nat (length set))
           /\ Hybrid.colorset_is_empty view = false.
Proof.
  apply (storage_views_colors example_sets).
  - repeat constructor; try done; lia.
  - repeat constructor; lia.
  - split; vm_compute; reflexivity.
Defined.

Lemma color_set_of_view_copy_witness :
  exists cs,
    Hybrid.Color_Set_of_view example_view = Ret cs
    /\ Hybrid.start cs = 0
    /\ Hybrid.length cs = Hybrid.length example_view
    /\ Hybrid.colorset_is_bitmap cs = Hybrid.colorset_is_bitmap example_view
    /\ Hybrid.colorset_get_colors_as_vector cs
       = Hybrid.colorset_get_colors_as_vector example_view
    /\ Hybrid.colorset_size cs = Hybrid.colorset_size example_view
    /\ forall c, 0 <= c ->
         Hybrid.colorset_contains cs c = Hybrid.colorset_contains example_view c.
Proof.
  apply color_set_of_view_copy.
  - unfold in_bounds. simpl. lia.
  - exact I.
Defined.

Lemma get_all_sets_in_order_witness :
  exists st views,
    Color_Set_Storage.build example_sets = Ret st
    /\ Color_Set_Storage.get_all_sets st = Ret views
    /\ Forall2 (fun view set =>
                  Hybrid.colorset_get_colors_as_vector view = Ret set) views example_sets.
Proof.
  apply (get_all_sets_in_order example_sets).
  - repeat constructor; try done; lia.
  - repeat constructor; lia.
  - split; vm_compute; reflexivity.
Defined.

Lemma storage_of_color_sets_witness :
  exists css,
    Forall2 (fun V cs => Hybrid.Color_Set_of_vector V = Ret cs) example_sets css
    /\ Color_Set_Storage.of_color_sets css = Color_Set_Storage.build example_sets.
Proof.
  assert (exists css,
            Forall2 (fun V cs => Hybrid.Color_Set_of_vector V = Ret cs) example_sets css)
    as [css Hcss].
  { eexists. repeat (constructor; [vm_compute; reflexivity |]). constructor. }
  exists css. split; [done |].
  apply (storage_of_color_sets example_sets css); [| | done].
  - repeat constructor; try done; lia.
  - repeat constructor; lia.
Defined.

End Color_Set_Witnesses.

(** ** The generic storage and [load_coloring] *)

Section Generic_Facts.
Context {libm : Libm}.
Import Layout Examples Views.

Section Generic_Storage_Facts.
Context {C : Type} `{Color_Set_Interface C}.

Lemma generic_add_sets_sets vectors : forall st : Generic_Storage.t C,
  Generic_Storage.sets (Generic_Storage.add_sets st vectors)
  = Generic_Storage.sets st ++ (colorset_of_vector <$> vectors).
Proof.
  unfold Generic_Storage.add_sets.
  induction vectors as [| V vectors IH]; intros st; simpl.
  - by rewrite app_nil_r.
  - rewrite IH. simpl. by rewrite <- app_assoc.
Qed.

(** Property X7. The generic storage after [add_set] for each of a list of
    vectors: [number_of_sets_stored()] is their number, [get_all_sets()] and
    [get_color_set_by_id(i)] return the color sets constructed from the
    vectors, in order, and an id outside the range reads past the vector of
    sets (no check is made). *)
Theorem generic_storage_add_get (vectors : list (list Z)) :
  let st := Generic_Storage.add_sets (Generic_Storage.empty (C := C)) vectors in
  Generic_Storage.number_of_sets_stored st = Z.of_nat (length vectors)
  /\ Generic_Storage.get_all_sets st = colorset_of_vector <$> vectors
  /\ (forall (i : nat) V, vectors !! i = Some V ->
        Generic_Storage.get_color_set_by_id st (Z.of_nat i) = Ret (colorset_of_vector V))
  /\ (forall id, ~ (0 <= id < Z.of_nat (length vectors)) ->
        Generic_Storage.get_color_set_by_id st id = Undefined).
Proof.
  intros st.
  assert (Generic_Storage.sets st = colorset_of_vector <$> vectors) as Hsets
    by (unfold st; by rewrite generic_add_sets_sets).
  unfold Generic_Storage.number_of_sets_stored, Generic_Storage.get_all_sets,
    Generic_Storage.get_color_set_by_id. rewrite Hsets, length_fmap.
  split; [done |]. split; [done |]. split.
  - intros i V Hi. by rewrite at_index_nat, list_lookup_fmap, Hi.
  - intros id Hid. destruct (at_index _ id) as [cs |] eqn:Hat; [| done].
    apply at_index_Some in Hat as [Hnonneg Hl]. apply lookup_lt_Some in Hl.
    rewrite length_fmap in Hl. lia.
Qed.

Lemma generic_load_sets (sets : list C) rest :
  Forall serializable sets ->
  Generic_Storage.load_sets (length sets) (concat (serialize <$> sets) ++ rest)
  = Ret (sets, rest).
Proof.
  induction 1 as [| cs sets Hcs _ IH]; [done |].
  rewrite fmap_cons. cbn [length concat Generic_Storage.load_sets].
  rewrite <- app_assoc, load_serialize by done. cbn [mbind outcome_bind].
  by rewrite IH.
Qed.

End Generic_Storage_Facts.

Section Generic_Storage_Serialization.
Context {C : Type} `{Color_Set_Interface C}.

Lemma load_serialize_generic_storage (st st0 : Generic_Storage.t C) rest :
  generic_storage_serializable st ->
  Generic_Storage.load_storage st0 (Generic_Storage.serialize_storage st ++ rest)
  = Ret (st, rest).
Proof.
  intros [Hall Hn]. unfold Generic_Storage.load_storage, Generic_Storage.serialize_storage.
  rewrite <- app_assoc, read_write_int64 by lia. cbn [mbind outcome_bind].
  unfold to_uint64. rewrite Z.mod_small by lia. rewrite Nat2Z.id.
  rewrite generic_load_sets by done. by destruct st.
Qed.

(** Property X8. [load] of the generic storage reads back what [serialize]
    wrote, whatever the storage held before, and leaves the rest of the stream
    in place; every set is one that the format of the color set can hold. *)
Theorem generic_storage_serialize_load (st st0 : Generic_Storage.t C) rest :
  generic_storage_serializable st ->
  Generic_Storage.load_storage st0 (Generic_Storage.serialize_storage st ++ rest)
  = Ret (st, rest).
Proof. apply load_serialize_generic_storage. Qed.

End Generic_Storage_Serialization.

Section Coloring_Round_Trip.
Context `{Serializable sdsl.bit_vector} `{Serializable sdsl.int_vector}
        `{Rank_Support_Serializable} `{Serializable string}.

(** What [load] returns for the bytes of [serialize], for any storage whose
    [load] reads back what its [serialize] wrote. *)
Lemma load_serialized_coloring {storage_t : Type} {interface : Color_Set_Storage_Interface storage_t}
    (c c0 : Coloring.t storage_t) type_id sets' index rest :
  Coloring.type_id_of colorset_t = Ret type_id ->
  serializable type_id ->
  (forall rest', storage_load (Coloring.sets c0) (storage_serialize (Coloring.sets c) ++ rest')
                 = Ret (sets', rest')) ->
  Sparse_Uint_Array.array_serializable (Coloring.node_id_to_color_set_id c) ->
  - 2 ^ 63 <= Coloring.largest_color_id c < 2 ^ 63 ->
  - 2 ^ 63 <= Coloring.total_color_set_length c < 2 ^ 63 ->
  exists bytes,
    Coloring.serialize_coloring c = Ret bytes
    /\ Coloring.load_coloring_from c0 (bytes ++ rest) index
       = Ret ({| Coloring.sets := sets';
                 Coloring.node_id_to_color_set_id := Coloring.node_id_to_color_set_id c;
                 Coloring.index_ptr := Some index;
                 Coloring.largest_color_id := Coloring.largest_color_id c;
                 Coloring.total_color_set_length := Coloring.total_color_set_length c |},
              rest).
Proof.
  intros Htag Hs Hsets Hmap Hl Ht. unfold Coloring.serialize_coloring. rewrite Htag.
  cbn [mbind outcome_bind]. eexists. split; [reflexivity |].
  rewrite <- !app_assoc, load_type_id by done.
  rewrite (check_type_id_match type_id) by done. cbn [mbind outcome_bind].
  rewrite Hsets. cbn [mbind outcome_bind].
  rewrite load_serialize_array by done. cbn [mbind outcome_bind].
  rewrite read_write_int64 by done. cbn [mbind outcome_bind].
  rewrite read_write_int64 by done. done.
Qed.

End Coloring_Round_Trip.

Section Load_Coloring_Round_Trip.
Context `{Serializable sdsl.bit_vector} `{Serializable sdsl.int_vector}
        `{Rank_Support_Serializable} `{Serializable string}.
Context {roaring bit_magic : Type}
        `{Color_Set_Interface roaring} `{Color_Set_Interface bit_magic}.

Local Abbreviation load_coloring :=
  (Load_Coloring.load_coloring (roaring := roaring) (bit_magic := bit_magic)).
Local Abbreviation Coloring_Color_Set :=
  (Load_Coloring.Coloring_Color_Set (roaring := roaring) (bit_magic := bit_magic)).
Local Abbreviation Coloring_Roaring_Color_Set :=
  (Load_Coloring.Coloring_Roaring_Color_Set (roaring := roaring) (bit_magic := bit_magic)).
Local Abbreviation Coloring_Bit_Magic_Color_Set :=
  (Load_Coloring.Coloring_Bit_Magic_Color_Set (roaring := roaring) (bit_magic := bit_magic)).

Lemma try_load_ok {storage_t : Type} `{Color_Set_Storage_Interface storage_t}
    (wrap : Coloring.t storage_t -> Load_Coloring.coloring_variant roaring bit_magic)
    file SBWT c rest :
  Coloring.load_coloring_from Coloring.default file SBWT = Ret (c, rest) ->
  Load_Coloring.try_load wrap file SBWT = Some (Ret (wrap c)).
Proof. intros Hload. unfold Load_Coloring.try_load. by rewrite Hload. Qed.

Lemma type_id_of_known c type_id :
  Coloring.type_id_of c = Ret type_id -> Coloring.known_type_id type_id.
Proof.
  unfold Coloring.known_type_id. destruct c; simpl; intros [= <-]; auto.
Qed.

(** Property X9. [load_coloring] returns the coloring that was serialized,
    in the alternative of its color set type: a hybrid coloring comes back
    with equal accessors, a roaring or bit-magic coloring comes back as it
    was, after the loaders of the other types have thrown
    [WrongTemplateParameterException]. *)
Theorem load_coloring_serialized index rest :
  (forall c : Coloring.t Color_Set_Storage.t,
     coloring_serializable c ->
     exists bytes c',
       Coloring.serialize_coloring c = Ret bytes
       /\ load_coloring (bytes ++ rest) index = Ret (Coloring_Color_Set c')
       /\ Coloring.index_ptr c' = Some index
       /\ Coloring.node_id_to_color_set_id c' = Coloring.node_id_to_color_set_id c
       /\ Coloring.number_of_distinct_color_sets c' = Coloring.number_of_distinct_color_sets c
       /\ Coloring.largest_color c' = Coloring.largest_color c
       /\ Coloring.sum_of_all_distinct_color_set_lengths c'
          = Coloring.sum_of_all_distinct_color_set_lengths c
       /\ forall id, Coloring.get_color_set_as_vector_by_color_set_id c' id
                     = Coloring.get_color_set_as_vector_by_color_set_id c id)
  /\ (forall c : Coloring.t (Generic_Storage.t roaring),
        generic_coloring_serializable c "roaring-v0" ->
        exists bytes,
          Coloring.serialize_coloring c = Ret bytes
          /\ load_coloring (bytes ++ rest) index
             = Ret (Coloring_Roaring_Color_Set
                      {| Coloring.sets := Coloring.sets c;
                         Coloring.node_id_to_color_set_id := Coloring.node_id_to_color_set_id c;
                         Coloring.index_ptr := Some index;
                         Coloring.largest_color_id := Coloring.largest_color_id c;
                         Coloring.total_color_set_length := Coloring.total_color_set_length c |}))
  /\ (forall c : Coloring.t (Generic_Storage.t bit_magic),
        generic_coloring_serializable c "bitmagic-v0" ->
        colorset_name (C := roaring) <> Bit_Magic_Color_Set ->
        exists bytes,
          Coloring.serialize_coloring c = Ret bytes
          /\ load_coloring (bytes ++ rest) index
             = Ret (Coloring_Bit_Magic_Color_Set
                      {| Coloring.sets := Coloring.sets c;
                         Coloring.node_id_to_color_set_id := Coloring.node_id_to_color_set_id c;
                         Coloring.index_ptr := Some index;
                         Coloring.largest_color_id := Coloring.largest_color_id c;
                         Coloring.total_color_set_length := Coloring.total_color_set_length c |})).
Proof.
  split; [| split].
  - intros c (Htag & Hst & Hmap & Hl & Ht).
    destruct (load_serialized_coloring (interface := hybrid_storage)
                c Coloring.default "sdsl-hybrid-v4" _ index rest
                eq_refl Htag (fun rest' => load_serialize_storage _ _ rest' Hst) Hmap Hl Ht)
      as (bytes & Hser & Hload).
    exists bytes. eexists. split; [done |]. unfold Load_Coloring.load_coloring.
    rewrite (try_load_ok Load_Coloring.Coloring_Color_Set _ _ _ _ Hload).
    split; [reflexivity |]. by repeat split.
  - intros c (Hname & Htag & Hst & Hmap & Hl & Ht).
    destruct (load_serialized_coloring (interface := Generic_Storage.generic_storage)
                c Coloring.default "roaring-v0" _ index rest
                Hname Htag (fun rest' => load_serialize_generic_storage _ _ rest' Hst) Hmap Hl Ht)
      as (bytes & Hser & Hload).
    exists bytes. split; [done |]. unfold Load_Coloring.load_coloring.
    pose proof Hser as Hbytes. unfold Coloring.serialize_coloring in Hbytes.
    cbn [colorset_t Generic_Storage.generic_storage] in Hbytes.
    rewrite Hname in Hbytes. cbn [mbind outcome_bind] in Hbytes. injection Hbytes as <-.
    rewrite <- !app_assoc in *.
    rewrite (try_load_wrong Load_Coloring.Coloring_Color_Set "roaring-v0");
      [| done | by right; left | discriminate].
    rewrite (try_load_ok Load_Coloring.Coloring_Roaring_Color_Set _ _ _ _ Hload).
    by destruct c.
  - intros c (Hname & Htag & Hst & Hmap & Hl & Ht) Hroaring.
    destruct (load_serialized_coloring (interface := Generic_Storage.generic_storage)
                c Coloring.default "bitmagic-v0" _ index rest
                Hname Htag (fun rest' => load_serialize_generic_storage _ _ rest' Hst) Hmap Hl Ht)
      as (bytes & Hser & Hload).
    exists bytes. split; [done |]. unfold Load_Coloring.load_coloring.
    pose proof Hser as Hbytes. unfold Coloring.serialize_coloring in Hbytes.
    cbn [colorset_t Generic_Storage.generic_storage] in Hbytes.
    rewrite Hname in Hbytes. cbn [mbind outcome_bind] in Hbytes. injection Hbytes as <-.
    rewrite <- !app_assoc in *.
    rewrite (try_load_wrong Load_Coloring.Coloring_Color_Set "bitmagic-v0");
      [| done | by right; right | discriminate].
    rewrite (try_load_wrong Load_Coloring.Coloring_Roaring_Color_Set "bitmagic-v0");
      [| done | by right; right | ].
    + rewrite (try_load_ok Load_Coloring.Coloring_Bit_Magic_Color_Set _ _ _ _ Hload).
      by destruct c.
    + simpl. intros Heq. apply Hroaring.
      destruct (colorset_name (C := roaring)); simpl in Heq; congruence.
Qed.

End Load_Coloring_Round_Trip.

Section Coloring_Colors.
Context `{Serializable sdsl.bit_vector} `{Serializable sdsl.int_vector}
        `{Rank_Support_Serializable}.

Lemma get_color_set_by_id_out_of_range st id :
  ~ (0 <= id < Color_Set_Storage.number_of_sets_stored st) ->
  Color_Set_Storage.get_color_set_by_id st id = Undefined.
Proof.
  intros Hid. unfold Color_Set_Storage.get_color_set_by_id, sdsl.bit.
  destruct (at_index (Color_Set_Storage.is_bitmap_marks st) id) as [b |] eqn:Hat; [| done].
  apply at_index_Some in Hat as [Hnonneg Hl]. apply lookup_lt_Some in Hl.
  unfold Color_Set_Storage.number_of_sets_stored in Hid. lia.
Qed.

(** Property X10. For a coloring whose storage is built from strictly
    increasing vectors: [get_color_set_as_vector_by_color_set_id(-1)] throws,
    an id in range returns its vector, any other id reads out of bounds of
    the storage, and [get_color_set_of_node_as_vector] returns the vector of
    the id that [get_color_set_id] finds. *)
Theorem coloring_colors_by_id sets st (c : Coloring.t Color_Set_Storage.t) :
  Forall valid_colors sets -> Forall (StronglySorted Z.lt) sets -> fits sets ->
  Color_Set_Storage.build sets = Ret st ->
  Coloring.sets c = st ->
  Coloring.number_of_distinct_color_sets c = Z.of_nat (length sets)
  /\ Coloring.get_color_set_as_vector_by_color_set_id c (-1)
     = Throw (runtime_error "BUG: Tried to access a color set with id -1")
  /\ (forall (i : nat) set, sets !! i = Some set ->
        Coloring.get_color_set_as_vector_by_color_set_id c (Z.of_nat i) = Ret set)
  /\ (forall id, id <> -1 -> ~ (0 <= id < Z.of_nat (length sets)) ->
        Coloring.get_color_set_as_vector_by_color_set_id c id = Undefined)
  /\ (forall fuel node (i : nat) set,
        Coloring.get_color_set_id fuel c node = Some (Ret (Z.of_nat i)) ->
        sets !! i = Some set ->
        Coloring.get_color_set_of_node_as_vector fuel c node = Some (Ret set)).
Proof.
  intros Hall Hsorted Hfits Hbuild Hold.
  pose proof (number_of_sets_built sets st Hall Hfits Hbuild) as Hn.
  assert (forall (i : nat) set, sets !! i = Some set ->
            Coloring.get_color_set_as_vector_by_color_set_id c (Z.of_nat i) = Ret set)
    as Hget.
  { intros i set Hset.
    assert (valid_colors set) as Hv by (rewrite Forall_lookup in Hall; by eapply Hall).
    assert (StronglySorted Z.lt set) as Hs
      by (rewrite Forall_lookup in Hsorted; by eapply Hsorted).
    destruct (built_view sets st i set Hall Hfits Hbuild Hset)
      as (view & Hview & Hin & _ & Hc).
    rewrite colors_of_sorted in Hc by done.
    unfold Coloring.get_color_set_as_vector_by_color_set_id.
    rewrite decide_False by lia. rewrite Hold.
    change (storage_get_colors_as_vector st (Z.of_nat i))
      with (view ← Color_Set_Storage.get_color_set_by_id st (Z.of_nat i);
            Hybrid.colorset_get_colors_as_vector view).
    rewrite Hview. cbn [mbind outcome_bind]. by rewrite get_colors_in_bounds, Hc. }
  split; [| split; [| split; [| split]]].
  - unfold Coloring.number_of_distinct_color_sets. by rewrite Hold.
  - done.
  - done.
  - intros id Hne Hid. unfold Coloring.get_color_set_as_vector_by_color_set_id.
    rewrite decide_False by done. rewrite Hold.
    change (storage_get_colors_as_vector st id)
      with (view ← Color_Set_Storage.get_color_set_by_id st id;
            Hybrid.colorset_get_colors_as_vector view).
    rewrite get_color_set_by_id_out_of_range; [done | by rewrite Hn].
  - intros fuel node i set Hid Hset.
    unfold Coloring.get_color_set_of_node_as_vector. rewrite Hid.
    cbn [mbind outcome_bind]. by rewrite (Hget i set).
Qed.

End Coloring_Colors.

End Generic_Facts.

(** ** The end of a color stream *)

Section Color_Stream_End_Facts.
Import Color_Streams.

Lemma cf_next_end s :
  cf_reverse_complements s && cf_rc_flag s = false ->
  pending s = [] ->
  cf_next s = Throw (runtime_error "Error: more colors than sequences.").
Proof.
  intros Hflag Hpend. unfold cf_next. rewrite Hflag.
  by rewrite getline_loop_end.
Qed.

Lemma cf_calls_plain_end rest : forall s,
  cf_reverse_complements s = false ->
  0 <= cf_current_file_idx s -> pending s = rest ->
  cf_calls (S (length rest)) s = Throw (runtime_error "Error: more colors than sequences.").
Proof.
  induction rest as [|c rest IH]; intros s Hrc Hidx Hpend.
  - cbn [length cf_calls]. by rewrite cf_next_end by (by rewrite ?Hrc).
  - destruct (cf_next_read s c rest) as (s' & Hn & Hp & Hi & Hx & Hrc' & Hfl');
      [by rewrite Hrc | done | done |].
    cbn [length]. rewrite (eq_refl : cf_calls (S (S (length rest))) s
      = (r ← cf_next s; rest0 ← cf_calls (S (length rest)) (snd r); Ret (fst r :: rest0))).
    rewrite Hn. cbn [mbind outcome_bind snd].
    by rewrite IH by (done || congruence).
Qed.

Lemma cf_calls_rc_end rest : forall s,
  cf_reverse_complements s = true -> cf_rc_flag s = false ->
  0 <= cf_current_file_idx s -> pending s = rest ->
  cf_calls (S (2 * length rest)) s
  = Throw (runtime_error "Error: more colors than sequences.").
Proof.
  induction rest as [|c rest IH]; intros s Hrc Hflag Hidx Hpend.
  - cbn [length cf_calls Nat.mul]. by rewrite cf_next_end by (by rewrite ?Hrc, ?Hflag).
  - replace (S (2 * length (c :: rest)))%nat with (S (S (S (2 * length rest))))
      by (simpl; lia).
    destruct (cf_next_read s c rest) as (s' & Hn & Hp & Hi & Hx & Hrc' & Hfl');
      [by rewrite Hrc, Hflag | done | done |].
    rewrite (eq_refl : cf_calls (S (S (S (2 * length rest)))) s
      = (r ← cf_next s; rest0 ← cf_calls (S (S (2 * length rest))) (snd r);
         Ret (fst r :: rest0))).
    rewrite Hn. cbn [mbind outcome_bind snd].
    rewrite Hrc, Hflag in *. simpl in Hfl'.
    rewrite (eq_refl : cf_calls (S (S (2 * length rest))) s'
      = (r ← cf_next s'; rest0 ← cf_calls (S (2 * length rest)) (snd r);
         Ret (fst r :: rest0))).
    unfold cf_next at 1. rewrite Hrc', Hfl'. cbn [andb mbind outcome_bind snd].
    by rewrite IH.
Qed.

Lemma uf_advance_end counts : forall idx seq_idx,
  0 <= seq_idx ->
  match counts with
  | [] => []
  | n :: later => replicate (Z.to_nat (n - seq_idx)) idx ++ file_colors (idx + 1) later
  end = [] ->
  uf_advance counts idx seq_idx = Undefined.
Proof.
  induction counts as [|n later IH]; intros idx seq_idx Hseq Hpend; [done |].
  apply app_eq_nil in Hpend as [Hrep Hlater].
  assert (seq_idx >= n) as Hge.
  { destruct (Z.to_nat (n - seq_idx)) eqn:Hk; [lia | done]. }
  simpl. rewrite decide_True by done. apply IH; [lia |].
  destruct later as [|n' later']; [done |]. simpl in Hlater. by rewrite Z.sub_0_r.
Qed.

Lemma uf_calls_end rest : forall s,
  0 <= cur_file_idx s -> 0 <= cur_file_seq_idx s ->
  uf_pending s = rest -> uf_calls (S (length rest)) s = Undefined.
Proof.
  induction rest as [|c rest IH]; intros s Hidx Hseq Hpend.
  - cbn [length uf_calls]. unfold uf_next. unfold uf_pending in Hpend.
    by rewrite uf_advance_end.
  - destruct (uf_next_spec s c rest Hidx Hseq Hpend) as (s' & Hn & Hi & Hs & Hp).
    cbn [length]. rewrite (eq_refl : uf_calls (S (S (length rest))) s
      = (r ← uf_next s; rest0 ← uf_calls (S (length rest)) (snd r); Ret (fst r :: rest0))).
    rewrite Hn. cbn [mbind outcome_bind snd]. by rewrite IH.
Qed.

(** Property X11. [Colorfile_Stream] throws on an empty list of color files,
    and the call of [next()] after the last color throws "more colors than
    sequences", with and without reverse complements.
    [Unique_For_Each_File_Color_Stream] has no such check: the call after
    the last sequence reads [seq_count_in_file] past its end. *)
Theorem color_streams_exhausted :
  (forall reverse_complements,
     cf_make [] reverse_complements = Throw (runtime_error "Error: empty color file list"))
  /\ (forall f fs,
        cf_stream (f :: fs) false (S (length (concat (f :: fs))))
        = Throw (runtime_error "Error: more colors than sequences."))
  /\ (forall f fs,
        cf_stream (f :: fs) true (S (2 * length (concat (f :: fs))))
        = Throw (runtime_error "Error: more colors than sequences."))
  /\ (forall counts,
        uf_calls (S (length (file_colors 0 counts))) (uf_make counts false) = Undefined)
  /\ (forall counts,
        uf_calls (S (length (twice (file_colors 0 counts)))) (uf_make counts true)
        = Undefined).
Proof.
  split; [done |]. split; [| split; [| split]].
  - intros f fs. unfold cf_stream. simpl cf_make. cbn [mbind outcome_bind].
    by apply cf_calls_plain_end.
  - intros f fs. unfold cf_stream. simpl cf_make. cbn [mbind outcome_bind].
    by apply cf_calls_rc_end.
  - intros counts. apply uf_calls_end; [done | done |].
    rewrite uf_make_pending. f_equal. by rewrite list_fmap_id.
  - intros counts. apply uf_calls_end; [done | done |].
    by rewrite uf_make_pending, file_colors_twice.
Qed.

Lemma call_plain (n : nat) : call n (make false) = Z.of_nat n.
Proof.
  unfold call. destruct (after_single n (make false)) as [Hrc Hx]; [done |].
  unfold next. simpl. rewrite Hx. simpl. lia.
Qed.

Lemma call_rc (n : nat) :
  call (2 * n) (make true) = Z.of_nat n /\ call (2 * n + 1) (make true) = Z.of_nat n.
Proof.
  unfold call, make. split.
  - rewrite after_pair. simpl. lia.
  - rewrite after_add, after_pair. simpl. lia.
Qed.

Lemma generate_default_colorfile_spec reads rc : forall seq_id,
  Forall (fun len => len <> 0) reads ->
  Build_Index.generate_default_colorfile reads rc seq_id
  = (if rc then twice else Datatypes.id) (seqZ seq_id (Z.of_nat (length reads))).
Proof.
  induction reads as [| len reads IH]; intros seq_id Hall.
  - by destruct rc.
  - apply Forall_cons in Hall as [Hlen Hall].
    cbn [Build_Index.generate_default_colorfile length]. rewrite decide_False by done.
    rewrite IH by done. rewrite (seqZ_cons seq_id) by lia.
    replace (Z.pred (Z.of_nat (S (length reads)))) with (Z.of_nat (length reads)) by lia.
    replace (Z.succ seq_id) with (seq_id + 1) by lia.
    by destruct rc.
Qed.

Lemma calls_plain (n : nat) :
  (fun i => call i (make false)) <$> seq 0 n = seqZ 0 (Z.of_nat n).
Proof.
  unfold seqZ. rewrite Nat2Z.id. apply list_fmap_ext. intros. rewrite call_plain. lia.
Qed.

Lemma calls_rc (n : nat) :
  (fun i => call i (make true)) <$> seq 0 (2 * n) = twice (seqZ 0 (Z.of_nat n)).
Proof.
  induction n as [| n IH]; [done |].
  replace (2 * S n)%nat with (S (S (2 * n))) by lia.
  rewrite !seq_S, !fmap_app, IH, seqZ_S, twice_app.
  destruct (call_rc n) as [H0 H1].
  cbn [fmap list_fmap twice flat_map app Nat.add].
  replace (S (2 * n)) with (2 * n + 1)%nat by lia.
  rewrite H0, H1, <- app_assoc. done.
Qed.

(** Property X15. The color file that [generate_default_colorfile] writes
    for a list of reads holds what [Unique_For_Each_Sequence_Color_Stream]
    returns call after call (each sequence number once, or twice with reverse
    complements), and [Colorfile_Stream] without reverse complements reads
    these lines back. *)
Theorem default_colorfile_is_sequence_stream reads rc :
  Forall (fun len => len <> 0) reads ->
  let lines := Build_Index.generate_default_colorfile reads rc 0 in
  lines = (fun i => call i (make rc))
          <$> seq 0 (if rc then 2 * length reads else length reads)
  /\ cf_stream [lines] false (length lines) = Ret lines.
Proof.
  intros Hall lines. split.
  - unfold lines. rewrite generate_default_colorfile_spec by done.
    destruct rc; [by rewrite calls_rc | by rewrite calls_plain].
  - unfold cf_stream. simpl. apply cf_calls_plain; [done | done |].
    unfold pending. simpl. by rewrite app_nil_r.
Qed.

Lemma default_colorfile_is_sequence_stream_witness :
  let lines := Build_Index.generate_default_colorfile [70; 31; 5] true 0 in
  lines = (fun i => call i (make true)) <$> seq 0 (2 * length [70; 31; 5])
  /\ cf_stream [lines] false (length lines) = Ret lines.
Proof.
  apply (default_colorfile_is_sequence_stream [70; 31; 5] true).
  repeat constructor; lia.
Defined.

End Color_Stream_End_Facts.

(** ** The index builder *)

Section Build_Index_Facts.
Import Build_Index.

Lemma substring_all (s : string) : substring 0 (String.length s) s = s.
Proof. induction s as [| a s IH]; simpl; [done | by rewrite IH]. Qed.

Lemma substr_app (p s : string) : substr (p ++ s) (String.length p) = s.
Proof.
  unfold substr. induction p as [| a p IH]; simpl.
  - rewrite Nat.sub_0_r. apply substring_all.
  - apply IH.
Qed.

Lemma length_string_app (p s : string) :
  String.length (p ++ s) = (String.length p + String.length s)%nat.
Proof. induction p as [| a p IH]; simpl; [done | by rewrite IH]. Qed.

Lemma substr_split (s : string) (n : nat) :
  (n <= String.length s)%nat -> s = (substring 0 n s ++ substr s n)%string.
Proof.
  unfold substr. revert n. induction s as [| a s IH]; intros n Hn.
  - simpl in Hn. by replace n with 0%nat by lia.
  - destruct n as [| n]; simpl.
    + by rewrite substring_all.
    + f_equal. apply IH. simpl in Hn. lia.
Qed.

(** Property X12. [has_suffix_dot_txt(S)] is true exactly when [S] ends in
    ".txt". *)
Theorem has_suffix_dot_txt_spec (str : string) :
  has_suffix_dot_txt str = true <-> exists prefix, str = (prefix ++ ".txt")%string.
Proof.
  unfold has_suffix_dot_txt. rewrite andb_true_iff, Nat.leb_le, String.eqb_eq. split.
  - intros [Hlen Hsub]. exists (substring 0 (String.length str - 4) str).
    rewrite <- Hsub. apply substr_split. lia.
  - intros [prefix ->]. rewrite length_string_app. simpl. split; [lia |].
    replace (String.length prefix + 4 - 4)%nat with (String.length prefix) by lia.
    apply substr_app.
Qed.

Lemma bind_unit (m : outcome unit) (k : unit -> outcome unit) :
  (m ≫= k) = Ret tt <-> m = Ret tt /\ k tt = Ret tt.
Proof.
  destruct m as [[] | e |]; simpl; split; try done; by intros [? ?].
Qed.

Lemma for_each_ok check files :
  for_each check files = Ret tt <-> Forall (fun file => check file = Ret tt) files.
Proof.
  induction files as [| file files IH]; simpl.
  - split; [constructor | done].
  - rewrite bind_unit, IH, Forall_cons. done.
Qed.

Section Check_Valid_Facts.
Variable MAX_KMER_LENGTH : Z.
Variable to_string : Z -> string.
Variable check_true : bool -> string -> outcome unit.
Variables check_readable check_writable check_dir_exists : string -> outcome unit.
Hypothesis check_true_true : forall message, check_true true message = Ret tt.
Hypothesis check_true_false : forall message, check_true false message <> Ret tt.

Lemma check_true_ok condition message :
  check_true condition message = Ret tt <-> condition = true.
Proof.
  destruct condition.
  - split; [done | intros _; apply check_true_true].
  - split; [intros Hc; by apply check_true_false in Hc | done].
Qed.

Lemma nonempty_length {A} (l : list A) : (0 <? length l)%nat = true <-> l <> [].
Proof. destruct l; simpl; split; try done. Qed.

(** Property X13. [Build_Config::check_valid] returns normally exactly for
    the configurations of [valid_config] whose files and directories pass
    their checks; [check_true] is any function that returns on a true
    condition and does not return on a false one. *)
Theorem check_valid_accepts C :
  check_valid MAX_KMER_LENGTH to_string check_true
    check_readable check_writable check_dir_exists C = Ret tt
  <-> valid_config MAX_KMER_LENGTH C
      /\ files_ok check_readable check_writable check_dir_exists C.
Proof.
  unfold check_valid, valid_config, files_ok.
  rewrite !bind_unit.
  assert (forall b : bool, negb b = true <-> b = false) as Hneg by (by intros []).
  assert (forall s : string, negb (String.eqb s "") = true <-> s <> ""%string) as Hne.
  { intros s. rewrite Hneg. split; [intros Hs ->; by rewrite String.eqb_refl in Hs |].
    intros Hs. destruct (String.eqb s "") eqn:He; [by apply String.eqb_eq in He | done]. }
  assert ((if negb (String.eqb (coloring_structure_type C) "sdsl-hybrid")
              && negb (String.eqb (coloring_structure_type C) "roaring")
           then Throw (runtime_error ("Unknown coloring structure type: "
                                      ++ coloring_structure_type C))
           else Ret tt) = Ret tt
          <-> coloring_structure_type C = "sdsl-hybrid"%string
              \/ coloring_structure_type C = "roaring"%string) as ->.
  { rewrite <- !String.eqb_eq.
    destruct (String.eqb _ "sdsl-hybrid"), (String.eqb _ "roaring"); simpl;
      split; auto; try done; by intros [? | ?]. }
  rewrite !check_true_ok, Hne, Z.ltb_lt, Z.leb_le.
  assert ((if (0 <? length (colorfiles C))%nat
           then check_true (negb (no_colors C))
                  "Must not give both --no-colors and --manual-colors"
                ≫= (fun _ => check_true (negb (file_colors C))
                       "Must not give both --no-colors and --file-colors"
                     ≫= fun _ => check_true (negb (sequence_colors C))
                          "Must not give both --no-colors and --sequence-colors"
                        ≫= fun _ => for_each check_readable (colorfiles C))
           else Ret tt) = Ret tt
          <-> (colorfiles C <> [] ->
               no_colors C = false /\ file_colors C = false /\ sequence_colors C = false)
              /\ Forall (fun file => check_readable file = Ret tt) (colorfiles C)) as ->.
  { destruct (colorfiles C) as [| file files] eqn:Hfiles.
    - simpl. split; [intros _ | done]. split; [done | constructor].
    - cbn [length Nat.ltb Nat.leb]. rewrite !bind_unit, !check_true_ok, !Hneg, for_each_ok.
      split; [intros (? & ? & ? & ?) | intros [Hc ?]]; [done |].
      by destruct Hc as (? & ? & ?). }
  destruct (String.eqb (from_index C) "") eqn:Hfrom; cbn [negb].
  - rewrite !bind_unit, check_true_ok, nonempty_length, for_each_ok.
    assert ((if negb (load_dbg C)
             then check_true (negb (k C =? 0)) "Parameter k not set"
                  ≫= (fun _ => check_true (k C <=? MAX_KMER_LENGTH)
                         ("Maximum allowed k is " ++ to_string MAX_KMER_LENGTH
                          ++ ". To increase the limit, recompile by first running cmake with the option `-DMAX_KMER_LENGTH=n`, where n is a number up to 255, and then running `make` again."))
             else Ret tt) = Ret tt
            <-> (load_dbg C = false -> k C <> 0 /\ k C <= MAX_KMER_LENGTH)) as ->.
    { destruct (load_dbg C); simpl; [done |].
      rewrite bind_unit, !check_true_ok, Hneg, Z.leb_le, Z.eqb_neq. tauto. }
    tauto.
  - rewrite !bind_unit, !check_true_ok, Hneg, Nat.eqb_eq, Z.eqb_eq, length_zero_iff_nil.
    assert (Bool.eqb (no_colors C) false = true <-> no_colors C = false) as ->
      by (by destruct (no_colors C)).
    intuition congruence.
Qed.

End Check_Valid_Facts.

(** Property X14. The color mode that [build_index_main] derives from the
    options: sequence colors are the default when no color option is given,
    manual colors are on exactly when neither file colors nor sequence colors
    are, and need a color file; [colorfiles] is filled only for manual
    colors, so that a color file given with [--file-colors] or
    [--sequence-colors] is not read. The color stream made after the step
    that replaces non-ACGT characters is none with [--no-colors], else one
    color for each file with [--file-colors], else one for each sequence
    unless manual colors name at least one color file. *)
Theorem build_index_color_mode readlines fix_alphabet opts :
  let C := build_config readlines opts in
  let C' := replace_non_ACGT fix_alphabet C in
  file_colors C = opt_file_colors opts
  /\ (sequence_colors C = true
      <-> opt_sequence_colors opts = true
          \/ (opt_manual_colors opts = ""%string /\ opt_file_colors opts = false))
  /\ (manual_colors C = true <-> file_colors C = false /\ sequence_colors C = false)
  /\ (manual_colors C = true -> opt_manual_colors opts <> ""%string)
  /\ (colorfiles C <> [] ->
      manual_colors C = true /\ file_colors C = false /\ sequence_colors C = false)
  /\ colorfiles C' = colorfiles C
  /\ make_color_stream C'
     = if opt_no_colors opts then None
       else if opt_file_colors opts then
         Some (Unique_For_Each_File_Color_Stream (seqfiles C') (opt_reverse_complements opts))
       else if opt_sequence_colors opts || String.eqb (opt_manual_colors opts) "" then
         Some (Unique_For_Each_Sequence_Color_Stream (opt_reverse_complements opts))
       else
         match colorfiles C with
         | [] => Some (Unique_For_Each_Sequence_Color_Stream (opt_reverse_complements opts))
         | _ :: _ => Some (Colorfile_Stream (colorfiles C) (opt_reverse_complements opts))
         end.
Proof.
  intros C C'. unfold C', C, make_color_stream, replace_non_ACGT, build_config.
  cbn -[has_suffix_dot_txt String.eqb].
  pose proof (String.eqb_spec (opt_manual_colors opts) "") as Hspec.
  destruct (opt_randomize_non_ACGT opts);
  destruct (opt_file_colors opts), (opt_sequence_colors opts),
    (String.eqb (opt_manual_colors opts) ""), (opt_no_colors opts);
    cbn -[has_suffix_dot_txt]; inversion Hspec as [Heq | Hne];
    (split; [done |]); (split; [split; [auto | by intros [| []]] |]);
    (split; [split; [auto | by intros []] |]);
    (split; [done || by intros _ |]); (split; [done |]); (split; [done |]); try done;
    by destruct (has_suffix_dot_txt (opt_input_file opts)); [destruct (readlines _) |].
Qed.

End Build_Index_Facts.

Lemma check_valid_accepts_witness :
  Build_Index.check_valid 255 (fun _ => "255"%string) Build_Index.example_check_true
    Build_Index.example_check_file Build_Index.example_check_file
    Build_Index.example_check_file Build_Index.example_config = Ret tt
  <-> Build_Index.valid_config 255 Build_Index.example_config
      /\ Build_Index.files_ok Build_Index.example_check_file Build_Index.example_check_file
           Build_Index.example_check_file Build_Index.example_config.
Proof.
  apply (check_valid_accepts 255 (fun _ => "255"%string) Build_Index.example_check_true).
  - intros message. reflexivity.
  - intros message. simpl. discriminate.
Defined.


Section Build_From_Index_Section.
Context {libm : Libm}.
Import Layout Examples Views.

Section Build_From_Index_Facts.
Context `{Serializable sdsl.bit_vector} `{Serializable sdsl.int_vector}
        `{Rank_Support_Serializable}.

(** The loop of [build_from_index] over a storage built from sorted sets. *)
Lemma build_from_index_loop {new_colorset : Type}
    (encode : list Z -> outcome new_colorset) (R : list Z -> new_colorset -> Prop)
    sets st (old : Coloring.t Color_Set_Storage.t) :
  Forall valid_colors sets -> Forall (StronglySorted Z.lt) sets -> fits sets ->
  Color_Set_Storage.build sets = Ret st ->
  Coloring.sets old = st ->
  (forall V, valid_colors V -> exists cs, encode V = Ret cs /\ R V cs) ->
  exists new_colorsets,
    Build_Index.build_from_index_loop encode old
    = Ret (new_colorsets, foldl Z.max 0 (concat sets), Z.of_nat (length (concat sets)))
    /\ Forall2 R sets new_colorsets.
Proof.
  intros Hall Hsorted Hfits Hbuild Hold Hencode.
  unfold Build_Index.build_from_index_loop, Coloring.number_of_distinct_color_sets. rewrite Hold.
  change (storage_number_of_sets_stored st) with (Color_Set_Storage.number_of_sets_stored st).
  rewrite (number_of_sets_built sets st Hall Hfits Hbuild).
  match goal with
  | |- context [Hybrid.for_loop _ ?body ?init] =>
      destruct (for_loop_invariant
        (fun i (acc : list new_colorset * Z * Z) =>
           Forall2 R (take i sets) acc.1.1
           /\ acc.1.2 = foldl Z.max 0 (concat (take i sets))
           /\ acc.2 = Z.of_nat (length (concat (take i sets))))
        (length sets) body init) as ([[ncs lg] tot] & Hloop & HR & Hlg & Htot)
  end.
  - simpl. split; [constructor | done].
  - intros i [[ncs lg] tot] Hi (HR & Hlg & Htot). simpl in HR, Hlg, Htot.
    destruct (lookup_lt_is_Some_2 sets i Hi) as [set Hset].
    assert (valid_colors set) as Hv by (rewrite Forall_lookup in Hall; by eapply Hall).
    assert (StronglySorted Z.lt set) as Hs
      by (rewrite Forall_lookup in Hsorted; by eapply Hsorted).
    destruct (built_view sets st i set Hall Hfits Hbuild Hset)
      as (view & Hget & Hin & _ & Hc).
    rewrite colors_of_sorted in Hc by done.
    unfold Coloring.get_color_set_as_vector_by_color_set_id.
    rewrite decide_False by lia. rewrite Hold.
    change (storage_get_colors_as_vector st (Z.of_nat i))
      with (view ← Color_Set_Storage.get_color_set_by_id st (Z.of_nat i);
            Hybrid.colorset_get_colors_as_vector view).
    rewrite Hget. cbn [mbind outcome_bind]. rewrite get_colors_in_bounds, Hc by done.
    cbn [mbind outcome_bind].
    destruct (Hencode set Hv) as (cs & -> & Hcs). cbn [mbind outcome_bind].
    eexists. split; [reflexivity |]. simpl.
    rewrite (take_S_r _ _ _ Hset), concat_app, foldl_app, length_app. simpl.
    rewrite app_nil_r. split; [| split].
    + apply Forall2_app; [done | by constructor].
    + by rewrite Hlg.
    + rewrite Htot. lia.
  - simpl in HR, Hlg, Htot. rewrite firstn_all in HR, Hlg, Htot.
    exists ncs. split; [| done]. rewrite Hloop. by rewrite Hlg, Htot.
Qed.

(** Property X16. [build_from_index] on a hybrid coloring whose storage is
    built from strictly increasing vectors: re-encoded as hybrid color sets it
    builds the same storage again, re-encoded for the generic storage it
    holds the color sets constructed from the vectors, in order; the largest
    color is the maximum of 0 and all colors, the total length the sum of the
    lengths of the vectors. *)
Theorem build_from_index_reencodes sets st (old : Coloring.t Color_Set_Storage.t) :
  Forall valid_colors sets -> Forall (StronglySorted Z.lt) sets -> fits sets ->
  Color_Set_Storage.build sets = Ret st ->
  Coloring.sets old = st ->
  Build_Index.build_from_index Hybrid.Color_Set_of_vector Color_Set_Storage.of_color_sets old
  = Ret (st, foldl Z.max 0 (concat sets), Z.of_nat (length (concat sets)))
  /\ forall (C : Type) (I : Color_Set_Interface C),
       Build_Index.build_from_index (fun V => Ret (colorset_of_vector V))
         (fun css => Ret (Generic_Storage.of_sets css)) old
       = Ret (Generic_Storage.add_sets Generic_Storage.empty sets,
              foldl Z.max 0 (concat sets), Z.of_nat (length (concat sets))).
Proof.
  intros Hall Hsorted Hfits Hbuild Hold. split.
  - destruct (build_from_index_loop Hybrid.Color_Set_of_vector
                (fun V cs => Hybrid.Color_Set_of_vector V = Ret cs)
                sets st old Hall Hsorted Hfits Hbuild Hold)
      as (css & Hloop & Hcss).
    { intros V HV. destruct (Color_Set_of_vector_built V HV) as (cs & Hcs & _). by exists cs. }
    unfold Build_Index.build_from_index. rewrite Hloop. cbn [mbind outcome_bind].
    unfold Color_Set_Storage.of_color_sets.
    rewrite (add_color_sets_vectors sets css) by done.
    fold (Color_Set_Storage.build sets). by rewrite Hbuild.
  - intros C I.
    destruct (build_from_index_loop (fun V => Ret (colorset_of_vector V))
                (fun V cs => cs = colorset_of_vector V)
                sets st old Hall Hsorted Hfits Hbuild Hold)
      as (css & Hloop & Hcss).
    { intros V _. by eexists. }
    unfold Build_Index.build_from_index. rewrite Hloop. cbn [mbind outcome_bind].
    f_equal. f_equal. f_equal.
    assert (css = colorset_of_vector <$> sets) as ->.
    { clear -Hcss. induction Hcss as [| V cs sets' css' Hcs _ IH]; [done |].
      by rewrite Hcs, IH. }
    pose proof (generic_add_sets_sets sets (Generic_Storage.empty (C := C))) as Hadd.
    simpl in Hadd. unfold Generic_Storage.of_sets.
    destruct (Generic_Storage.add_sets Generic_Storage.empty sets). simpl in Hadd. by rewrite Hadd.
Qed.

End Build_From_Index_Facts.

End Build_From_Index_Section.

(** ** Reverse complements of strings *)

Section Pseudoalign_Facts.
Import Pseudoalign.

Lemma get_rc_get_rc c : get_rc (get_rc c) = c.
Proof. by destruct c as [[] [] [] [] [] [] [] []]. Qed.

Lemma get_rc_loop_spec str : forall n rc,
  (n <= length str)%nat ->
  get_rc_loop str n rc = rc ++ (get_rc <$> reverse (take n str)).
Proof.
  induction n as [| n IH]; intros rc Hn.
  - simpl. by rewrite app_nil_r.
  - simpl. rewrite IH by lia.
    destruct (lookup_lt_is_Some_2 str n) as [c Hc]; [lia |].
    rewrite (take_S_r _ _ _ Hc), reverse_snoc, fmap_cons, <- app_assoc. simpl.
    by rewrite (nth_lookup_Some _ _ _ _ Hc).
Qed.

Lemma get_rc_string_spec str : get_rc_string str = get_rc <$> reverse str.
Proof. unfold get_rc_string. by rewrite get_rc_loop_spec, firstn_all by done. Qed.

(** Property X17. [get_rc] of a string: applied twice it gives the string
    back, it keeps the length, the reverse complement of a concatenation is
    the concatenation of the reverse complements in the other order, and
    character [i] is complemented into position [size - 1 - i]. *)
Theorem get_rc_string_involution :
  (forall str, get_rc_string (get_rc_string str) = str)
  /\ (forall str, length (get_rc_string str) = length str)
  /\ (forall str1 str2,
        get_rc_string (str1 ++ str2) = get_rc_string str2 ++ get_rc_string str1)
  /\ (forall (str : list ascii) (i : nat) c,
        str !! i = Some c ->
        get_rc_string str !! (length str - 1 - i)%nat = Some (get_rc c)).
Proof.
  split; [| split; [| split]].
  - intros str. rewrite !get_rc_string_spec, <- fmap_reverse, reverse_involutive.
    rewrite <- list_fmap_compose. rewrite <- (list_fmap_id str) at 2.
    apply list_fmap_ext. intros. apply get_rc_get_rc.
  - intros str. by rewrite get_rc_string_spec, length_fmap, length_reverse.
  - intros str1 str2. by rewrite !get_rc_string_spec, reverse_app, fmap_app.
  - intros str i c Hi. pose proof (lookup_lt_Some _ _ _ Hi) as Hlt.
    rewrite get_rc_string_spec, list_lookup_fmap, reverse_lookup by lia.
    replace (length str - S (length str - 1 - i))%nat with i by lia. by rewrite Hi.
Qed.

End Pseudoalign_Facts.

(** ** Instances *)

Section More_Witnesses.
Import Layout Examples Views.
#[local] Existing Instance floor_libm.
#[local] Existing Instance bit_vector_format.
#[local] Existing Instance int_vector_format.
#[local] Existing Instance string_format.
#[local] Existing Instance rank_support_format.
#[local] Existing Instance roaring_sets.
#[local] Existing Instance bit_magic_sets.

Lemma example_sets_valid :
  Forall valid_colors example_sets /\ Forall (StronglySorted Z.lt) example_sets
  /\ fits example_sets /\ Color_Set_Storage.build example_sets = Ret example_storage.
Proof.
  split; [repeat constructor; try done; lia |].
  split; [repeat constructor; lia |].
  split; [split; vm_compute; reflexivity | vm_compute; reflexivity].
Defined.

Lemma generic_storage_serialize_load_witness :
  Generic_Storage.load_storage Generic_Storage.empty
    (Generic_Storage.serialize_storage (Coloring.sets example_roaring_coloring) ++ [])
  = Ret (Coloring.sets example_roaring_coloring, []).
Proof.
  apply generic_storage_serialize_load. split.
  - repeat constructor; vm_compute; reflexivity.
  - vm_compute. reflexivity.
Defined.

Lemma coloring_colors_by_id_witness :
  Coloring.number_of_distinct_color_sets example_coloring = Z.of_nat (length example_sets)
  /\ Coloring.get_color_set_as_vector_by_color_set_id example_coloring (-1)
     = Throw (runtime_error "BUG: Tried to access a color set with id -1")
  /\ (forall (i : nat) set, example_sets !! i = Some set ->
        Coloring.get_color_set_as_vector_by_color_set_id example_coloring (Z.of_nat i)
        = Ret set)
  /\ (forall id, id <> -1 -> ~ (0 <= id < Z.of_nat (length example_sets)) ->
        Coloring.get_color_set_as_vector_by_color_set_id example_coloring id = Undefined)
  /\ (forall fuel node (i : nat) set,
        Coloring.get_color_set_id fuel example_coloring node = Some (Ret (Z.of_nat i)) ->
        example_sets !! i = Some set ->
        Coloring.get_color_set_of_node_as_vector fuel example_coloring node
        = Some (Ret set)).
Proof.
  destruct example_sets_valid as (Hv & Hs & Hf & Hb).
  by apply (coloring_colors_by_id example_sets example_storage example_coloring).
Defined.

Lemma build_from_index_reencodes_witness :
  Build_Index.build_from_index Hybrid.Color_Set_of_vector Color_Set_Storage.of_color_sets
    example_coloring
  = Ret (example_storage, foldl Z.max 0 (concat example_sets),
         Z.of_nat (length (concat example_sets)))
  /\ forall (C : Type) (I : Color_Set_Interface C),
       Build_Index.build_from_index (fun V => Ret (colorset_of_vector V))
         (fun css => Ret (Generic_Storage.of_sets css)) example_coloring
       = Ret (Generic_Storage.add_sets Generic_Storage.empty example_sets,
              foldl Z.max 0 (concat example_sets), Z.of_nat (length (concat example_sets))).
Proof.
  destruct example_sets_valid as (Hv & Hs & Hf & Hb).
  by apply (build_from_index_reencodes example_sets example_storage example_coloring).
Defined.

Lemma example_roaring_coloring_serializable :
  generic_coloring_serializable example_roaring_coloring "roaring-v0".
Proof.
  pose proof example_coloring_serializable as (_ & _ & Hmap & _).
  split; [reflexivity |]. split; [vm_compute; reflexivity |].
  split; [split; [repeat constructor; vm_compute; reflexivity | vm_compute; reflexivity] |].
  split; [exact Hmap |]. split; simpl; lia.
Defined.

Lemma load_coloring_serialized_witness :
  (exists bytes c',
     Coloring.serialize_coloring example_coloring = Ret bytes
     /\ Load_Coloring.load_coloring (roaring := roaring_set) (bit_magic := bit_magic_set)
          (bytes ++ []) example_index
        = Ret (Load_Coloring.Coloring_Color_Set c'))
  /\ (exists bytes,
        Coloring.serialize_coloring example_roaring_coloring = Ret bytes
        /\ Load_Coloring.load_coloring (roaring := roaring_set) (bit_magic := bit_magic_set)
             (bytes ++ []) example_index
           = Ret (Load_Coloring.Coloring_Roaring_Color_Set example_roaring_coloring)).
Proof.
  pose proof (load_coloring_serialized (roaring := roaring_set) (bit_magic := bit_magic_set)
                example_index []) as (Hhybrid & Hroaring & _).
  split.
  - destruct (Hhybrid example_coloring example_coloring_serializable)
      as (bytes & c' & Hser & Hload & _).
    by exists bytes, c'.
  - destruct (Hroaring example_roaring_coloring example_roaring_coloring_serializable)
      as (bytes & Hser & Hload).
    by exists bytes.
Defined.

End More_Witnesses.

(** ** Adding sets after [prepare_for_queries] *)

Section Prepare_Facts.
Context {libm : Libm}.
Import Color_Set_Storage.

Lemma prepare_for_queries_buffers a b :
  buffers a = buffers b -> prepare_for_queries a = prepare_for_queries b.
Proof.
  unfold buffers. intros [= H1 H2 H3 H4 H5].
  unfold prepare_for_queries. by rewrite H1, H2, H3, H4, H5.
Qed.

Lemma add_sets_buffers vectors : forall a b,
  buffers a = buffers b ->
  (st ← add_sets a vectors; prepare_for_queries st)
  = (st ← add_sets b vectors; prepare_for_queries st).
Proof.
  induction vectors as [|set vectors IH]; intros a b Hab.
  - simpl. by apply prepare_for_queries_buffers.
  - cbn [add_sets].
    pose proof Hab as [= H1 H2 H3 H4 H5].
    unfold add_set.
    destruct (max_element set) as [m| |]; [|done..]. simpl.
    destruct (dense m _).
    + destruct (Hybrid.set_bits _ set) as [bitmap| |]; [|done..]. simpl.
      apply IH. unfold buffers. simpl. by rewrite H1, H2, H3, H4, H5.
    + simpl. apply IH. unfold buffers. simpl. by rewrite H1, H2, H3, H4, H5.
Qed.

Lemma prepare_for_queries_clears st st' :
  prepare_for_queries st = Ret st' -> buffers st' = buffers empty.
Proof.
  unfold prepare_for_queries. intros Hp.
  destruct (to_sdsl_int_vector (temp_arrays_concat st)); [|done..]. simpl in Hp.
  destruct (to_sdsl_int_vector (temp_bitmap_starts st ++ _)); [|done..]. simpl in Hp.
  destruct (to_sdsl_int_vector (temp_arrays_starts st ++ _)); [|done..]. simpl in Hp.
  by injection Hp as <-.
Qed.

Context `{Serializable sdsl.bit_vector} `{Serializable sdsl.int_vector}
        `{Rank_Support_Serializable}.

Lemma load_storage_buffers st input st' rest :
  load_storage st input = Ret (st', rest) -> buffers st' = buffers st.
Proof.
  unfold load_storage. intros Hl.
  repeat match type of Hl with
  | context [load ?i] => destruct (load i) as [[? ?]| |]; [|done..]; simpl in Hl
  | context [rs_load ?i ?v] => destruct (rs_load i v) as [[? ?]| |]; [|done..]; simpl in Hl
  end.
  by injection Hl as <- <-.
Qed.

(** Property X18. [prepare_for_queries] builds the members from the
    construction buffers alone and clears the buffers, and [load] leaves the
    buffers as they are: the sets that are added to a storage after
    [prepare_for_queries], or after [load] into a new storage, and prepared
    again, replace the sets that were stored; the storage is the one built
    from the added sets only. *)
Theorem prepare_for_queries_restarts (st : Color_Set_Storage.t) (vectors : list (list Z)) :
  (st1 ← prepare_for_queries st; st2 ← add_sets st1 vectors; prepare_for_queries st2)
  = (_ ← prepare_for_queries st; build vectors)
  /\ forall input,
       (r ← load_storage empty input; st2 ← add_sets r.1 vectors; prepare_for_queries st2)
       = (_ ← load_storage empty input; build vectors).
Proof.
  split.
  - destruct (prepare_for_queries st) as [st1| |] eqn:Hp; [|done..]. simpl.
    apply add_sets_buffers. by eapply prepare_for_queries_clears.
  - intros input.
    destruct (load_storage empty input) as [[st1 rest]| |] eqn:Hl; [|done..]. simpl.
    apply add_sets_buffers. by eapply load_storage_buffers.
Qed.

End Prepare_Facts.

(** ** The space breakdown *)

Section Space_Breakdown_Facts.
Context `{Serializable sdsl.bit_vector} `{Serializable sdsl.int_vector}
        `{Rank_Support_Serializable}.

Lemma bytes_written_app a b : bytes_written (a ++ b) = bytes_written a + bytes_written b.
Proof. unfold bytes_written. rewrite length_app. lia. Qed.

Lemma bytes_written_sets {C : Type} `{Color_Set_Interface C} (sets : list C) total :
  foldl (fun total cs => total + bytes_written (serialize cs)) total sets
  = total + bytes_written (concat (serialize <$> sets)).
Proof.
  revert total. induction sets as [|cs sets IH]; intros total.
  - unfold bytes_written. cbn. lia.
  - rewrite fmap_cons. cbn [concat foldl]. rewrite IH, bytes_written_app. lia.
Qed.

(** Property X19. The components of [space_breakdown] of the hybrid storage
    have six different names and their byte counts add up to the count that
    [serialize] returns; the generic storage reports the one component
    [sets], whose byte count is 8 less than the count of [serialize], which
    also writes the number of sets. *)
Theorem space_breakdown_accounts_for_serialize :
  (forall st : Color_Set_Storage.t,
     NoDup (Color_Set_Storage.space_breakdown st).*1
     /\ foldr Z.add 0 (Color_Set_Storage.space_breakdown st).*2
        = bytes_written (Color_Set_Storage.serialize_storage st))
  /\ (forall (C : Type) (colorsets : Color_Set_Interface C) (st : Generic_Storage.t C),
        exists total,
          Generic_Storage.space_breakdown st = [("sets"%string, total)]
          /\ total + 8 = bytes_written (Generic_Storage.serialize_storage st)).
Proof.
  split.
  - intros st. split.
    + cbv [Color_Set_Storage.space_breakdown]. simpl.
      repeat (apply NoDup_cons; split; [rewrite ?elem_of_cons, elem_of_nil; intuition discriminate|]).
      apply NoDup_nil_2.
    + unfold Color_Set_Storage.space_breakdown, Color_Set_Storage.serialize_storage.
      simpl. rewrite !bytes_written_app. lia.
  - intros C colorsets st. eexists. split; [reflexivity|].
    unfold Generic_Storage.serialize_storage.
    rewrite bytes_written_sets, bytes_written_app.
    unfold bytes_written at 2, write_int64.
    rewrite (length_Z_to_little_endian 8 8) by lia. lia.
Qed.

End Space_Breakdown_Facts.
